(** * The live audio session engine of [src/services/geminiLiveService.ts]

    A shallow embedding of the class [GeminiLiveService]: its private
    fields become the record [Service], every method and every callback
    it registers becomes a computation in a small state-and-exception
    monad [M], and every call the class makes on an object it does not
    own (an audio node, the microphone, the transport session, the
    console, the four callbacks handed to [connect]) is appended to a
    trace of [Effect]s.

    JavaScript runs one handler at a time and an [async] method gives up
    control only at an [await].  A definition below is either one such
    uninterrupted stretch of a method, or a whole method in which every
    [await] is answered at once by an outcome that the definition takes
    as an argument (how the session promise settles, whether the
    microphone is granted) or reads from the [Host]: the method as it
    runs when no other handler of the service gets in while it waits.
    The methods that others can overtake at an [await] ([handleMessage],
    [cleanup], [disconnect], [connect]) are also given piece by piece,
    one definition for each stretch between two [await]s, and a run in
    which another handler gets in is the composition of those pieces
    with that handler in between. *)

From Stdlib Require Import List String Ascii Bool Arith ZArith Lia.
Import ListNotations.
Open Scope string_scope.

(** ** Numbers

    [nextStartTime], [currentTime] and [duration] are JavaScript numbers.
    The service only ever adds two of them, compares two of them with
    [<], and writes the literal [0]; the embedding is generic in these
    three operations. *)

Class Timeline (T : Type) : Type := {
  tzero : T;
  tadd : T -> T -> T;
  tltb : T -> T -> bool
}.

(** The order facts about numbers that monotonicity arguments use. *)

Class TimelineOrder (T : Type) {TL : Timeline T} : Type := {
  tle : T -> T -> Prop;
  tle_refl : forall a, tle a a;
  tle_trans : forall a b c, tle a b -> tle b c -> tle a c;
  tltb_tle : forall a b, tltb a b = true -> tle a b;
  tadd_nonneg : forall c d, tle tzero d -> tle c (tadd c d)
}.

(** ** Strings: truthiness and [String.prototype.trim]

    Text is a sequence of code units; the model covers the code units
    below 256, of which these seven are white space or line terminators
    for [trim]. *)

Definition isWhiteSpace (c : ascii) : bool :=
  let n := nat_of_ascii c in
  ((n =? 9) || (n =? 10) || (n =? 11) || (n =? 12) || (n =? 13)
   || (n =? 32) || (n =? 160))%nat.

Definition isEmpty (s : string) : bool :=
  match s with
  | EmptyString => true
  | String _ _ => false
  end.

(** A string is truthy when it is not the empty string. *)
Definition truthy (s : string) : bool := negb (isEmpty s).

Fixpoint trimStart (s : string) : string :=
  match s with
  | EmptyString => EmptyString
  | String c rest => if isWhiteSpace c then trimStart rest else s
  end.

Fixpoint trimEnd (s : string) : string :=
  match s with
  | EmptyString => EmptyString
  | String c rest =>
      let rest' := trimEnd rest in
      if isWhiteSpace c && isEmpty rest' then EmptyString
      else String c rest'
  end.

Definition trim (s : string) : string := trimEnd (trimStart s).

(** [x?.f] on an optional object, and truthiness of optional values. *)
Definition truthyFlag (b : option bool) : bool :=
  match b with
  | Some true => true
  | _ => false
  end.

Definition startsWith (prefix s : string) : bool := String.prefix prefix s.

(** ** Messages of the transport ([LiveServerMessage])

    The transport does not promise a [mimeType] on inline data, and
    [handleMessage] reads it without a check (l.176): the field is
    optional here, and reading [startsWith] off a missing one throws. *)

Record Blob : Type := { mimeType : option string; data : string }.

Record Part : Type := { inlineData : option Blob }.

Record Content : Type := { parts : option (list Part) }.

Record Transcription : Type := { text : option string }.

Record ServerContent : Type := {
  interrupted : option bool;
  modelTurn : option Content;
  inputTranscription : option Transcription;
  outputTranscription : option Transcription;
  turnComplete : option bool
}.

Record LiveServerMessage : Type := { serverContent : option ServerContent }.

Inductive Role : Type := user | model.

(** The transport session a fulfilled connection promise carries;
    [hasClose] is [typeof session.close === 'function']. *)
Record Session : Type := { sessionId : nat; hasClose : bool }.

(** How the session promise settles, when it does.  A promise that
    stays pending leaves the method that awaits it at its [await]: see
    [disconnectPending]. *)
Inductive Settlement : Type :=
| Resolves (session : Session)
| Rejects.

Record MediaStream : Type := { streamId : nat; tracks : list nat }.

Inductive ContextState : Type := Suspended | Running | Closed.

Definition isClosed (st : ContextState) : bool :=
  match st with
  | Closed => true
  | _ => false
  end.

Definition isSuspended (st : ContextState) : bool :=
  match st with
  | Suspended => true
  | _ => false
  end.

(** Where an audio node is wired to. *)
Inductive Target : Type :=
| ToNode (node : nat)
| ToDestination (ctx : nat).

(** ** The frequency bars of [Visualizer]

    [draw] reads [bars] values out of the [bufferLength] frequency bins,
    one every [step] bins, [step] being [Math.floor(bufferLength / bars)]. *)

Definition bars : nat := 64.

Definition binStep (bufferLength : nat) : nat := bufferLength / bars.

(** The index [i * step] of the bin that bar [i] reads. *)
Definition binIndex (bufferLength i : nat) : nat := i * binStep bufferLength.

(** ** A state-and-exception monad for method bodies *)

Inductive Completion (A : Type) : Type :=
| Normal (a : A)
| Thrown.

Arguments Normal {A} a.
Arguments Thrown {A}.

Definition StateExn (W A : Type) : Type := W -> Completion A * W.

Section Monad.

Context {W : Type}.

Definition ret {A : Type} (a : A) : StateExn W A := fun w => (Normal a, w).

Definition bind {A B : Type} (m : StateExn W A) (k : A -> StateExn W B)
  : StateExn W B :=
  fun w =>
    match m w with
    | (Normal a, w') => k a w'
    | (Thrown, w') => (Thrown, w')
    end.

Definition throw {A : Type} : StateExn W A := fun w => (Thrown, w).

(** [try { body } catch { handler }] *)
Definition tryCatch {A : Type} (body handler : StateExn W A)
  : StateExn W A :=
  fun w =>
    match body w with
    | (Normal a, w') => (Normal a, w')
    | (Thrown, w') => handler w'
    end.

Definition when_ (b : bool) (m : StateExn W unit) : StateExn W unit :=
  if b then m else ret tt.

Fixpoint forEach {A : Type} (l : list A) (f : A -> StateExn W unit)
  : StateExn W unit :=
  match l with
  | [] => ret tt
  | x :: rest => bind (f x) (fun _ => forEach rest f)
  end.

(** The world a computation leaves behind, and how it completed. *)
Definition exec {A : Type} (m : StateExn W A) (w : W) : W := snd (m w).

Definition completion {A : Type} (m : StateExn W A) (w : W)
  : Completion A :=
  fst (m w).

End Monad.

Notation "x <- m ;; k" := (bind m (fun x => k))
  (at level 61, m at next level, right associativity).
Notation "m ;; k" := (bind m (fun _ => k))
  (at level 61, right associativity).

Section Model.

Context {T : Type} {TL : Timeline T}.

Record AudioBuffer : Type := { duration : T }.

Record AudioContext : Type := {
  ctxId : nat;
  ctxState : ContextState;
  currentTime : T
}.

(** An [AudioBufferSourceNode]; [srcId] stands for the identity of the
    object, which is what the [Set] compares. *)
Record SourceNode : Type := { srcId : nat; srcBuffer : AudioBuffer }.

(** ** Calls on objects the service does not own *)

Inductive Effect : Type :=
| SourceStart (src : nat) (when : T) (buffer : AudioBuffer)
| SourceStop (src : nat)
| Connect (node : nat) (target : Target)
| TrackStop (track : nat)
| ProcessorDisconnect (node : nat)
| ProcessorUnhook (node : nat)
| InputSourceDisconnect (node : nat)
| ContextResume (ctx : nat)
| ContextClose (ctx : nat)
| SessionClose (session : nat)
| SendRealtimeInput (mime : string) (payload : string)
| OnOpen
| OnClose
| OnError
| OnTranscript (txt : string) (role : Role)
| ConsoleLog (msg : string)
| ConsoleWarn (msg : string)
| ConsoleError (msg : string)
| CleanupEntered.

(** ** The fields of [GeminiLiveService] *)

Record Service : Type := {
  sessionPromise : option nat;
  audioContext : option AudioContext;
  inputAudioContext : option AudioContext;
  inputSource : option nat;
  processor : option nat;
  stream : option MediaStream;
  nextStartTime : T;
  scheduledSources : list SourceNode;
  outputGain : option nat;
  outputAnalyser : option nat;
  currentInputTranscription : string;
  currentOutputTranscription : string;
  isConnected : bool
}.

(** The state of a freshly constructed service. *)
Definition newService : Service := {|
  sessionPromise := None;
  audioContext := None;
  inputAudioContext := None;
  inputSource := None;
  processor := None;
  stream := None;
  nextStartTime := tzero;
  scheduledSources := [];
  outputGain := None;
  outputAnalyser := None;
  currentInputTranscription := "";
  currentOutputTranscription := "";
  isConnected := false
|}.

Definition set_sessionPromise (v : option nat) (s : Service) : Service :=
  {| sessionPromise := v;
     audioContext := audioContext s;
     inputAudioContext := inputAudioContext s;
     inputSource := inputSource s;
     processor := processor s;
     stream := stream s;
     nextStartTime := nextStartTime s;
     scheduledSources := scheduledSources s;
     outputGain := outputGain s;
     outputAnalyser := outputAnalyser s;
     currentInputTranscription := currentInputTranscription s;
     currentOutputTranscription := currentOutputTranscription s;
     isConnected := isConnected s |}.

Definition set_audioContext (v : option AudioContext) (s : Service) : Service :=
  {| sessionPromise := sessionPromise s;
     audioContext := v;
     inputAudioContext := inputAudioContext s;
     inputSource := inputSource s;
     processor := processor s;
     stream := stream s;
     nextStartTime := nextStartTime s;
     scheduledSources := scheduledSources s;
     outputGain := outputGain s;
     outputAnalyser := outputAnalyser s;
     currentInputTranscription := currentInputTranscription s;
     currentOutputTranscription := currentOutputTranscription s;
     isConnected := isConnected s |}.

Definition set_inputAudioContext (v : option AudioContext) (s : Service)
  : Service :=
  {| sessionPromise := sessionPromise s;
     audioContext := audioContext s;
     inputAudioContext := v;
     inputSource := inputSource s;
     processor := processor s;
     stream := stream s;
     nextStartTime := nextStartTime s;
     scheduledSources := scheduledSources s;
     outputGain := outputGain s;
     outputAnalyser := outputAnalyser s;
     currentInputTranscription := currentInputTranscription s;
     currentOutputTranscription := currentOutputTranscription s;
     isConnected := isConnected s |}.

Definition set_inputSource (v : option nat) (s : Service) : Service :=
  {| sessionPromise := sessionPromise s;
     audioContext := audioContext s;
     inputAudioContext := inputAudioContext s;
     inputSource := v;
     processor := processor s;
     stream := stream s;
     nextStartTime := nextStartTime s;
     scheduledSources := scheduledSources s;
     outputGain := outputGain s;
     outputAnalyser := outputAnalyser s;
     currentInputTranscription := currentInputTranscription s;
     currentOutputTranscription := currentOutputTranscription s;
     isConnected := isConnected s |}.

Definition set_processor (v : option nat) (s : Service) : Service :=
  {| sessionPromise := sessionPromise s;
     audioContext := audioContext s;
     inputAudioContext := inputAudioContext s;
     inputSource := inputSource s;
     processor := v;
     stream := stream s;
     nextStartTime := nextStartTime s;
     scheduledSources := scheduledSources s;
     outputGain := outputGain s;
     outputAnalyser := outputAnalyser s;
     currentInputTranscription := currentInputTranscription s;
     currentOutputTranscription := currentOutputTranscription s;
     isConnected := isConnected s |}.

Definition set_stream (v : option MediaStream) (s : Service) : Service :=
  {| sessionPromise := sessionPromise s;
     audioContext := audioContext s;
     inputAudioContext := inputAudioContext s;
     inputSource := inputSource s;
     processor := processor s;
     stream := v;
     nextStartTime := nextStartTime s;
     scheduledSources := scheduledSources s;
     outputGain := outputGain s;
     outputAnalyser := outputAnalyser s;
     currentInputTranscription := currentInputTranscription s;
     currentOutputTranscription := currentOutputTranscription s;
     isConnected := isConnected s |}.

Definition set_nextStartTime (v : T) (s : Service) : Service :=
  {| sessionPromise := sessionPromise s;
     audioContext := audioContext s;
     inputAudioContext := inputAudioContext s;
     inputSource := inputSource s;
     processor := processor s;
     stream := stream s;
     nextStartTime := v;
     scheduledSources := scheduledSources s;
     outputGain := outputGain s;
     outputAnalyser := outputAnalyser s;
     currentInputTranscription := currentInputTranscription s;
     currentOutputTranscription := currentOutputTranscription s;
     isConnected := isConnected s |}.

Definition set_scheduledSources (v : list SourceNode) (s : Service)
  : Service :=
  {| sessionPromise := sessionPromise s;
     audioContext := audioContext s;
     inputAudioContext := inputAudioContext s;
     inputSource := inputSource s;
     processor := processor s;
     stream := stream s;
     nextStartTime := nextStartTime s;
     scheduledSources := v;
     outputGain := outputGain s;
     outputAnalyser := outputAnalyser s;
     currentInputTranscription := currentInputTranscription s;
     currentOutputTranscription := currentOutputTranscription s;
     isConnected := isConnected s |}.

Definition set_outputGain (v : option nat) (s : Service) : Service :=
  {| sessionPromise := sessionPromise s;
     audioContext := audioContext s;
     inputAudioContext := inputAudioContext s;
     inputSource := inputSource s;
     processor := processor s;
     stream := stream s;
     nextStartTime := nextStartTime s;
     scheduledSources := scheduledSources s;
     outputGain := v;
     outputAnalyser := outputAnalyser s;
     currentInputTranscription := currentInputTranscription s;
     currentOutputTranscription := currentOutputTranscription s;
     isConnected := isConnected s |}.

Definition set_outputAnalyser (v : option nat) (s : Service) : Service :=
  {| sessionPromise := sessionPromise s;
     audioContext := audioContext s;
     inputAudioContext := inputAudioContext s;
     inputSource := inputSource s;
     processor := processor s;
     stream := stream s;
     nextStartTime := nextStartTime s;
     scheduledSources := scheduledSources s;
     outputGain := outputGain s;
     outputAnalyser := v;
     currentInputTranscription := currentInputTranscription s;
     currentOutputTranscription := currentOutputTranscription s;
     isConnected := isConnected s |}.

Definition set_currentInputTranscription (v : string) (s : Service)
  : Service :=
  {| sessionPromise := sessionPromise s;
     audioContext := audioContext s;
     inputAudioContext := inputAudioContext s;
     inputSource := inputSource s;
     processor := processor s;
     stream := stream s;
     nextStartTime := nextStartTime s;
     scheduledSources := scheduledSources s;
     outputGain := outputGain s;
     outputAnalyser := outputAnalyser s;
     currentInputTranscription := v;
     currentOutputTranscription := currentOutputTranscription s;
     isConnected := isConnected s |}.

Definition set_currentOutputTranscription (v : string) (s : Service)
  : Service :=
  {| sessionPromise := sessionPromise s;
     audioContext := audioContext s;
     inputAudioContext := inputAudioContext s;
     inputSource := inputSource s;
     processor := processor s;
     stream := stream s;
     nextStartTime := nextStartTime s;
     scheduledSources := scheduledSources s;
     outputGain := outputGain s;
     outputAnalyser := outputAnalyser s;
     currentInputTranscription := currentInputTranscription s;
     currentOutputTranscription := v;
     isConnected := isConnected s |}.

Definition set_isConnected (v : bool) (s : Service) : Service :=
  {| sessionPromise := sessionPromise s;
     audioContext := audioContext s;
     inputAudioContext := inputAudioContext s;
     inputSource := inputSource s;
     processor := processor s;
     stream := stream s;
     nextStartTime := nextStartTime s;
     scheduledSources := scheduledSources s;
     outputGain := outputGain s;
     outputAnalyser := outputAnalyser s;
     currentInputTranscription := currentInputTranscription s;
     currentOutputTranscription := currentOutputTranscription s;
     isConnected := v |}.

(** ** The world: the service, the trace of its calls, and the supply of
    object identities for the nodes it creates. *)

Record World : Type := {
  svc : Service;
  trace : list Effect;
  fresh : nat
}.

(** Method bodies run in the monad over the world. *)
Definition M (A : Type) : Type := StateExn World A.

(** Reading [this], assigning one of its fields, calling out. *)
Definition this : M Service := fun w => (Normal (svc w), w).

Definition assign (f : Service -> Service) : M unit :=
  fun w =>
    (Normal tt, {| svc := f (svc w); trace := trace w; fresh := fresh w |}).

Definition emit (e : Effect) : M unit :=
  fun w =>
    (Normal tt,
     {| svc := svc w; trace := trace w ++ [e]; fresh := fresh w |}).

(** The identity of a newly created object. *)
Definition newObject : M nat :=
  fun w =>
    (Normal (fresh w),
     {| svc := svc w; trace := trace w; fresh := S (fresh w) |}).


(** ** What the service calls and does not define

    [decodeAudio] stands for [decodeBase64] followed by [decodeAudioData]
    of [utils/audioUtils] ([None] when either throws); [encodeFrame] for
    [float32ToInt16], the byte view and [encodeBase64] of the same
    module.  The five predicates say which of the calls that the source
    guards with [try]/[catch] or with a [catch] handler fail: [stop()] on
    a source node, [close()] and [resume()] on an audio context,
    [close()] and [sendRealtimeInput] on a session.  [newContextState]
    is the state a newly constructed audio context reports. *)

Class Host : Type := {
  decodeAudio : string -> option AudioBuffer;
  encodeFrame : list T -> string;
  stopThrows : nat -> bool;
  closeRejects : nat -> bool;
  resumeRejects : nat -> bool;
  sessionCloseThrows : nat -> bool;
  sendThrows : nat -> bool;
  newContextState : ContextState
}.

Context {HO : Host}.

Definition isNone {A : Type} (o : option A) : bool :=
  match o with
  | Some _ => false
  | None => true
  end.

(** ** The [Set] of scheduled source nodes, in insertion order *)

Definition hasSource (id : nat) (l : list SourceNode) : bool :=
  existsb (fun x => Nat.eqb (srcId x) id) l.

Definition setAdd (src : SourceNode) (l : list SourceNode)
  : list SourceNode :=
  if hasSource (srcId src) l then l else l ++ [src].

Definition setDelete (id : nat) (l : list SourceNode) : list SourceNode :=
  filter (fun x => negb (Nat.eqb (srcId x) id)) l.

(** ** Playback scheduler *)

(** [decodeBase64] and [await decodeAudioData]: a value or an exception. *)
Definition decode (base64Audio : string) : M AudioBuffer :=
  match decodeAudio base64Audio with
  | Some audioBuffer => ret audioBuffer
  | None => throw
  end.

(** [this.audioContext.currentTime]; a [TypeError] when the field is
    [null]. *)
Definition readCurrentTime : M T :=
  s <- this ;;
  match audioContext s with
  | Some ctx => ret (currentTime ctx)
  | None => throw
  end.

(** [this.outputGain] where a node is required: [connect(null)] is a
    [TypeError]. *)
Definition readOutputGain : M nat :=
  s <- this ;;
  match outputGain s with
  | Some gain => ret gain
  | None => throw
  end.

(** [queueAudioOutput(base64Audio)], with its [await] answered at once:
    the guard, the decode and the body after the [await] in one piece.
    Creating, wiring and starting the new source node are calls that do
    not throw here: the node is new and the start time is a cursor
    value. *)
Definition queueAudioOutput (base64Audio : string) : M unit :=
  s <- this ;;
  match audioContext s, outputGain s with
  | Some _, Some gain =>
      tryCatch
        (audioBuffer <- decode base64Audio ;;
         now <- readCurrentTime ;;
         s <- this ;;
         when_ (tltb (nextStartTime s) now) (assign (set_nextStartTime now)) ;;
         id <- newObject ;;
         let source := {| srcId := id; srcBuffer := audioBuffer |} in
         emit (Connect id (ToNode gain)) ;;
         s <- this ;;
         emit (SourceStart id (nextStartTime s) audioBuffer) ;;
         assign (fun s =>
           set_nextStartTime (tadd (nextStartTime s) (duration audioBuffer)) s) ;;
         assign (fun s =>
           set_scheduledSources (setAdd source (scheduledSources s)) s))
        (emit (ConsoleError "Error decoding audio"))
  | _, _ => ret tt
  end.

(** The output context and the gain node both exist: the guard of
    [queueAudioOutput] (l.206) lets the payload through. *)
Definition hasSink (s : Service) : bool :=
  negb (isNone (audioContext s)) && negb (isNone (outputGain s)).

(** [queueAudioOutput] from its [await] (l.210) on, for a call that has
    passed the guard: the outcome of the decode, then l.212-228 on the
    fields as they are when the method resumes, inside the same [try].
    A context set to [null] in the meantime makes [currentTime] throw,
    which the [catch] logs like a failed decode.  The decode of
    [decodeBase64] (l.209) is reported here as well. *)
Definition queueAudioOutputAfterAwait (base64Audio : string) : M unit :=
  tryCatch
    (audioBuffer <- decode base64Audio ;;
     now <- readCurrentTime ;;
     s <- this ;;
     when_ (tltb (nextStartTime s) now) (assign (set_nextStartTime now)) ;;
     id <- newObject ;;
     let source := {| srcId := id; srcBuffer := audioBuffer |} in
     gain <- readOutputGain ;;
     emit (Connect id (ToNode gain)) ;;
     s <- this ;;
     emit (SourceStart id (nextStartTime s) audioBuffer) ;;
     assign (fun s =>
       set_nextStartTime (tadd (nextStartTime s) (duration audioBuffer)) s) ;;
     assign (fun s =>
       set_scheduledSources (setAdd source (scheduledSources s)) s))
    (emit (ConsoleError "Error decoding audio")).

(** The [onended] handler installed on each scheduled source. *)
Definition sourceEnded (id : nat) : M unit :=
  assign (fun s => set_scheduledSources (setDelete id (scheduledSources s)) s).

Definition stopSource (source : SourceNode) : M unit :=
  emit (SourceStop (srcId source)) ;;
  if stopThrows (srcId source) then throw else ret tt.

(** [stopAllScheduledAudio()] *)
Definition stopAllScheduledAudio : M unit :=
  s <- this ;;
  forEach (scheduledSources s)
    (fun source => tryCatch (stopSource source) (ret tt)) ;;
  assign (set_scheduledSources []) ;;
  s <- this ;;
  match audioContext s with
  | Some ctx => assign (set_nextStartTime (currentTime ctx))
  | None => ret tt
  end.

(** ** Inbound messages *)

Definition interruptedOf (sc : option ServerContent) : bool :=
  match sc with
  | Some c => truthyFlag (interrupted c)
  | None => false
  end.

(** [serverContent?.modelTurn?.parts], the empty list when absent. *)
Definition partsOf (sc : option ServerContent) : list Part :=
  match sc with
  | Some c =>
      match modelTurn c with
      | Some turn =>
          match parts turn with
          | Some ps => ps
          | None => []
          end
      | None => []
      end
  | None => []
  end.

(** [x?.text] when it is truthy. *)
Definition fragmentOf (t : option Transcription) : option string :=
  match t with
  | Some tr =>
      match text tr with
      | Some txt => if truthy txt then Some txt else None
      | None => None
      end
  | None => None
  end.

Definition inputFragmentOf (sc : option ServerContent) : option string :=
  match sc with
  | Some c => fragmentOf (inputTranscription c)
  | None => None
  end.

Definition outputFragmentOf (sc : option ServerContent) : option string :=
  match sc with
  | Some c => fragmentOf (outputTranscription c)
  | None => None
  end.

Definition turnCompleteOf (sc : option ServerContent) : bool :=
  match sc with
  | Some c => truthyFlag (turnComplete c)
  | None => false
  end.

(** One turn of the loop over the parts (l.175-180), with the [await]
    answered at once.  Inline data without a [mimeType] is a
    [TypeError] at [.startsWith], which nothing in [handleMessage]
    catches. *)
Definition queuePart (part : Part) : M unit :=
  match inlineData part with
  | Some blob =>
      match mimeType blob with
      | Some type =>
          if startsWith "audio/pcm" type
          then queueAudioOutput (data blob)
          else ret tt
      | None => throw
      end
  | None => ret tt
  end.

Definition appendInput (fragment : option string) : M unit :=
  match fragment with
  | Some txt =>
      assign (fun s =>
        set_currentInputTranscription (currentInputTranscription s ++ txt) s)
  | None => ret tt
  end.

Definition appendOutput (fragment : option string) : M unit :=
  match fragment with
  | Some txt =>
      assign (fun s =>
        set_currentOutputTranscription (currentOutputTranscription s ++ txt) s)
  | None => ret tt
  end.

(** The body of [if (serverContent?.turnComplete) { ... }]. *)
Definition dispatchTurns : M unit :=
  s <- this ;;
  when_ (truthy (trim (currentInputTranscription s)))
    (emit (OnTranscript (currentInputTranscription s) user) ;;
     assign (set_currentInputTranscription "")) ;;
  s <- this ;;
  when_ (truthy (trim (currentOutputTranscription s)))
    (emit (OnTranscript (currentOutputTranscription s) model) ;;
     assign (set_currentOutputTranscription "")).

(** [handleMessage(message, onTranscript)], with every [await] answered
    at once: the handler as it runs when each decode it waits for
    settles before any other handler of the service runs.  A message
    without an audio part meets no [await] and always runs like this. *)
Definition handleMessage (message : LiveServerMessage) : M unit :=
  let sc := serverContent message in
  if interruptedOf sc then
    stopAllScheduledAudio ;;
    assign (set_currentOutputTranscription "")
  else
    forEach (partsOf sc) queuePart ;;
    appendInput (inputFragmentOf sc) ;;
    appendOutput (outputFragmentOf sc) ;;
    when_ (turnCompleteOf sc) dispatchTurns.

(** *** [handleMessage], stretch by stretch

    The handler is an [async] function that the callback of l.93 starts
    and does not wait for.  It gives up control at
    [await this.queueAudioOutput(...)] (l.178), once for each audio
    part, before it has looked at the transcriptions and at the
    turn-complete signal of its message; until it resumes, the handlers
    of later messages run. *)

(** What [handleMessage] does after the loop over the parts
    (l.183-202). *)
Definition handleText (sc : option ServerContent) : M unit :=
  appendInput (inputFragmentOf sc) ;;
  appendOutput (outputFragmentOf sc) ;;
  when_ (turnCompleteOf sc) dispatchTurns.

(** A call of [handleMessage] waiting at l.178.  [decoding] is the
    payload whose decode [queueAudioOutput] is waiting for in turn
    (l.210), [None] when [queueAudioOutput] has returned at its guard;
    [laterParts] are the parts the loop has not reached. *)
Record Waiting : Type := {
  decoding : option string;
  laterParts : list Part;
  content : option ServerContent
}.

Inductive Progress : Type :=
| Finished
| Awaits (k : Waiting).

(** The loop from the parts [ps] on, up to the next [await] or to the
    end of the handler. *)
Fixpoint handleParts (ps : list Part) (sc : option ServerContent)
  : M Progress :=
  match ps with
  | [] => handleText sc ;; ret Finished
  | part :: rest =>
      match inlineData part with
      | Some blob =>
          match mimeType blob with
          | Some type =>
              if startsWith "audio/pcm" type then
                s <- this ;;
                ret (Awaits {| decoding := if hasSink s
                                           then Some (data blob) else None;
                               laterParts := rest;
                               content := sc |})
              else handleParts rest sc
          | None => throw
          end
      | None => handleParts rest sc
      end
  end.

(** The first stretch: from the arrival of the message to the first
    [await], or to the end when there is none. *)
Definition handleMessageUntilAwait (message : LiveServerMessage)
  : M Progress :=
  let sc := serverContent message in
  if interruptedOf sc then
    stopAllScheduledAudio ;;
    assign (set_currentOutputTranscription "") ;;
    ret Finished
  else handleParts (partsOf sc) sc.

(** The next stretch of a waiting handler: [queueAudioOutput] finishes,
    and the loop goes on to the next [await] or to the end. *)
Definition resumeMessage (k : Waiting) : M Progress :=
  match decoding k with
  | Some base64Audio => queueAudioOutputAfterAwait base64Audio
  | None => ret tt
  end ;;
  handleParts (laterParts k) (content k).

(** A waiting handler run to its end, every further [await] answered
    at once. *)
Definition runToEnd (p : Progress) : M unit :=
  match p with
  | Finished => ret tt
  | Awaits k =>
      match decoding k with
      | Some base64Audio => queueAudioOutputAfterAwait base64Audio
      | None => ret tt
      end ;;
      forEach (laterParts k) queuePart ;;
      handleText (content k)
  end.

(** Messages handled one after the other, each by a handler that has
    finished, or thrown, before the next message arrives. *)
Definition handleInTurn (ms : list LiveServerMessage) : M unit :=
  forEach ms (fun m => tryCatch (handleMessage m) (ret tt)).

(** The message [m] arrives, and the messages [laters] arrive and are
    handled while the handler of [m] waits for its first decode. *)
Definition overtaken (m : LiveServerMessage) (laters : list LiveServerMessage)
  : M unit :=
  p <- handleMessageUntilAwait m ;;
  handleInTurn laters ;;
  runToEnd p.

(** ** Lifecycle *)

Definition closeContext (ctx : AudioContext) : M unit :=
  tryCatch
    (if isClosed (ctxState ctx) then ret tt
     else
       emit (ContextClose (ctxId ctx)) ;;
       if closeRejects (ctxId ctx) then throw else ret tt)
    (ret tt).

(** [cleanup()].  [CleanupEntered] is not a call of the source: it marks
    each entry into the routine, so that invocations can be counted. *)
Definition cleanup : M unit :=
  emit CleanupEntered ;;
  assign (set_isConnected false) ;;
  s <- this ;;
  match stream s with
  | Some st =>
      forEach (tracks st) (fun track => emit (TrackStop track)) ;;
      assign (set_stream None)
  | None => ret tt
  end ;;
  s <- this ;;
  match processor s with
  | Some p =>
      emit (ProcessorDisconnect p) ;;
      emit (ProcessorUnhook p) ;;
      assign (set_processor None)
  | None => ret tt
  end ;;
  s <- this ;;
  match inputSource s with
  | Some n =>
      emit (InputSourceDisconnect n) ;;
      assign (set_inputSource None)
  | None => ret tt
  end ;;
  s <- this ;;
  match inputAudioContext s with
  | Some ctx =>
      closeContext ctx ;;
      assign (set_inputAudioContext None)
  | None => ret tt
  end ;;
  s <- this ;;
  match audioContext s with
  | Some ctx =>
      closeContext ctx ;;
      assign (set_audioContext None)
  | None => ret tt
  end ;;
  assign (set_scheduledSources []) ;;
  assign (set_nextStartTime tzero) ;;
  assign (set_outputAnalyser None) ;;
  assign (set_outputGain None) ;;
  assign (set_sessionPromise None).

(** *** [cleanup], stretch by stretch

    [cleanup] suspends at [await this.inputAudioContext.close()] (l.288)
    when the input context is set and not closed.  [cleanupUntilAwait]
    is the routine up to that point: the call [close()] has been made
    and the field is still set.  [cleanupAfterAwait] is its
    continuation, which is the same whether [close()] fulfilled or
    rejected; in it the second [await], that of
    [this.audioContext.close()] (l.297), is answered at once. *)
Definition cleanupUntilAwait : M unit :=
  emit CleanupEntered ;;
  assign (set_isConnected false) ;;
  s <- this ;;
  match stream s with
  | Some st =>
      forEach (tracks st) (fun track => emit (TrackStop track)) ;;
      assign (set_stream None)
  | None => ret tt
  end ;;
  s <- this ;;
  match processor s with
  | Some p =>
      emit (ProcessorDisconnect p) ;;
      emit (ProcessorUnhook p) ;;
      assign (set_processor None)
  | None => ret tt
  end ;;
  s <- this ;;
  match inputSource s with
  | Some n =>
      emit (InputSourceDisconnect n) ;;
      assign (set_inputSource None)
  | None => ret tt
  end ;;
  s <- this ;;
  match inputAudioContext s with
  | Some ctx =>
      when_ (negb (isClosed (ctxState ctx))) (emit (ContextClose (ctxId ctx)))
  | None => ret tt
  end.

Definition cleanupAfterAwait : M unit :=
  assign (set_inputAudioContext None) ;;
  s <- this ;;
  match audioContext s with
  | Some ctx =>
      closeContext ctx ;;
      assign (set_audioContext None)
  | None => ret tt
  end ;;
  assign (set_scheduledSources []) ;;
  assign (set_nextStartTime tzero) ;;
  assign (set_outputAnalyser None) ;;
  assign (set_outputGain None) ;;
  assign (set_sessionPromise None).

(** The input context is set and has not been closed. *)
Definition inputContextOpen (s : Service) : bool :=
  match inputAudioContext s with
  | Some ctx => negb (isClosed (ctxState ctx))
  | None => false
  end.

(** The output context is set and has not been closed. *)
Definition outputContextOpen (s : Service) : bool :=
  match audioContext s with
  | Some ctx => negb (isClosed (ctxState ctx))
  | None => false
  end.

(** [cleanup] from l.294 to its second [await]: [close()] is called on
    an output context that is set and not closed. *)
Definition cleanupOutput : M unit :=
  s <- this ;;
  match audioContext s with
  | Some ctx =>
      when_ (negb (isClosed (ctxState ctx))) (emit (ContextClose (ctxId ctx)))
  | None => ret tt
  end.

(** [cleanup] from that [await] to the end (l.300-307). *)
Definition cleanupEnd : M unit :=
  assign (set_audioContext None) ;;
  assign (set_scheduledSources []) ;;
  assign (set_nextStartTime tzero) ;;
  assign (set_outputAnalyser None) ;;
  assign (set_outputGain None) ;;
  assign (set_sessionPromise None).

(** [cleanup] up to the first [await] it meets: that of the input
    context when it is open; else that of the output context when it is
    open; else there is no [await] and the routine runs to its end. *)
Definition cleanupUntilFirstAwait : M unit :=
  s <- this ;;
  cleanupUntilAwait ;;
  if inputContextOpen s then ret tt
  else
    assign (set_inputAudioContext None) ;;
    cleanupOutput ;;
    if outputContextOpen s then ret tt else cleanupEnd.


(** The handler of [this.sessionPromise.catch(...)] (l.110-116), up to
    the first [await] of the [cleanup] it starts. *)
Definition connectRejectedUntilAwait : M unit :=
  s <- this ;;
  match inputAudioContext s with
  | Some _ =>
      emit (ConsoleError "Connection failed") ;;
      emit OnError ;;
      cleanupUntilFirstAwait
  | None => ret tt
  end.

(** [await this.sessionPromise] in [disconnect] (l.252), for a promise
    that settles as [settle].  Every promise the field holds was made by
    [connect], which registered its [catch] handler on it (l.110) before
    [disconnect] could await it: when the promise rejects, that handler
    reacts first, and [disconnect] resumes as soon as the handler has
    reached its first [await].  The continuations that the capture
    handler has registered on the promise (l.146) react first as well;
    they find [isConnected] false and do nothing. *)
Definition await (settle : Settlement) : M Session :=
  match settle with
  | Resolves session => ret session
  | Rejects => connectRejectedUntilAwait ;; throw
  end.

Definition closeSession (session : Session) : M unit :=
  emit (SessionClose (sessionId session)) ;;
  if sessionCloseThrows (sessionId session) then throw else ret tt.

(** [disconnect()]; [settle] is how [this.sessionPromise] settles, which
    the method awaits when the field is set.  The [await]s of the
    [cleanup] it ends with are answered at once. *)
Definition disconnect (settle : Settlement) : M unit :=
  assign (set_isConnected false) ;;
  s <- this ;;
  match sessionPromise s with
  | Some _ =>
      tryCatch
        (session <- await settle ;;
         when_ (hasClose session) (closeSession session))
        (emit (ConsoleLog "Error closing session"))
  | None => ret tt
  end ;;
  cleanup.

(** [disconnect()] as far as it gets while [this.sessionPromise] is set
    and stays pending: it has cleared the flag and waits at l.252.
    Nothing is released before the promise settles. *)
Definition disconnectPending : M unit :=
  assign (set_isConnected false).

(** [onerror], up to the first [await] of the [cleanup] it starts. *)
Definition onerrorUntilAwait : M unit :=
  emit (ConsoleError "Session error") ;;
  assign (set_isConnected false) ;;
  emit OnError ;;
  cleanupUntilAwait.

(** [disconnect], up to the first [await] of its [cleanup], for a
    service whose session promise is not set. *)
Definition disconnectUntilAwait : M unit :=
  assign (set_isConnected false) ;;
  cleanupUntilAwait.

(** [getOutputAnalyser()] *)
Definition getOutputAnalyser (s : Service) : option nat := outputAnalyser s.

(** The [catch] block of [connect]. *)
Definition connectFailed : M unit :=
  emit (ConsoleError "Setup error") ;;
  emit OnError ;;
  cleanup.

(** [connect], up to [await navigator.mediaDevices.getUserMedia]. *)
Definition connectSetup (settle : Settlement) : M unit :=
  disconnect settle ;;
  assign (set_currentInputTranscription "") ;;
  assign (set_currentOutputTranscription "") ;;
  out <- newObject ;;
  assign (set_audioContext
    (Some {| ctxId := out; ctxState := newContextState;
             currentTime := tzero |})) ;;
  inp <- newObject ;;
  assign (set_inputAudioContext
    (Some {| ctxId := inp; ctxState := newContextState;
             currentTime := tzero |})) ;;
  gain <- newObject ;;
  assign (set_outputGain (Some gain)) ;;
  analyser <- newObject ;;
  assign (set_outputAnalyser (Some analyser)) ;;
  emit (Connect gain (ToNode analyser)) ;;
  emit (Connect analyser (ToDestination out)).

(** [connect], from the microphone answer on: [mic] is [None] when
    [getUserMedia] rejects.  The session promise is created pending and
    its [catch] handler is [connectRejected] below. *)
Definition connectOpen (mic : option MediaStream) : M unit :=
  match mic with
  | Some st =>
      assign (set_stream (Some st)) ;;
      p <- newObject ;;
      assign (set_sessionPromise (Some p))
  | None => throw
  end.

(** [connect], from the answer of [getUserMedia] on, inside its
    [try]. *)
Definition connectResume (mic : option MediaStream) : M unit :=
  tryCatch (connectOpen mic) connectFailed.

(** [connect(systemInstruction, onOpen, onClose, onError, onTranscript)],
    with every [await] answered at once. *)
Definition connect (settle : Settlement) (mic : option MediaStream)
  : M unit :=
  tryCatch (connectSetup settle ;; connectOpen mic) connectFailed.

(** The handler given to [inputContext.resume().catch(...)] (l.131). *)
Definition resumeFailed : M unit :=
  emit (ConsoleWarn "Input context resume failed").

(** [startAudioInput()].  When [resume()] rejects, its [catch] handler
    runs once the stretch that called [startAudioInput] is over; the
    method is the last statement of that stretch (l.91), and the handler
    is run here right after it. *)
Definition startAudioInput : M unit :=
  s <- this ;;
  match inputAudioContext s, stream s, sessionPromise s with
  | Some inputContext, Some _, Some _ =>
      when_ (isSuspended (ctxState inputContext))
        (emit (ContextResume (ctxId inputContext))) ;;
      src <- newObject ;;
      assign (set_inputSource (Some src)) ;;
      p <- newObject ;;
      assign (set_processor (Some p)) ;;
      emit (Connect src (ToNode p)) ;;
      emit (Connect p (ToDestination (ctxId inputContext))) ;;
      when_ (isSuspended (ctxState inputContext)
             && resumeRejects (ctxId inputContext))
        resumeFailed
  | _, _, _ => ret tt
  end.

(** The transport callbacks registered by [connect]. *)
Definition onopen : M unit :=
  assign (set_isConnected true) ;;
  emit OnOpen ;;
  startAudioInput.

Definition onclose : M unit :=
  emit (ConsoleLog "Session closed") ;;
  assign (set_isConnected false) ;;
  emit OnClose ;;
  cleanup.

Definition onerror : M unit :=
  emit (ConsoleError "Session error") ;;
  assign (set_isConnected false) ;;
  emit OnError ;;
  cleanup.

(** The handler of [this.sessionPromise.catch(...)]. *)
Definition connectRejected : M unit :=
  s <- this ;;
  match inputAudioContext s with
  | Some _ =>
      emit (ConsoleError "Connection failed") ;;
      emit OnError ;;
      cleanup
  | None => ret tt
  end.

(** ** Capture pipeline *)

(** The [onaudioprocess] handler, up to [this.sessionPromise.then]: the
    result is the encoded chunk that the registered continuation
    captures, [None] when the handler returns at its guard. *)
Definition onaudioprocess (inputData : list T) : M (option string) :=
  s <- this ;;
  if negb (isConnected s) || isNone (sessionPromise s) then ret None
  else ret (Some (encodeFrame inputData)).

(** The continuation [session => { ... }] given to [then], with the
    silent [catch] that follows it. *)
Definition sendChunk (base64Data : string) (session : Session) : M unit :=
  tryCatch
    (s <- this ;;
     when_ (isConnected s)
       (emit (SendRealtimeInput "audio/pcm;rate=16000" base64Data) ;;
        if sendThrows (sessionId session) then throw else ret tt))
    (ret tt).

(** ** The sink's clock

    [currentTime] belongs to the audio context, not to the service; it
    moves on its own between two handlers. *)
Definition advanceClock (now : T) : M unit :=
  assign (fun s =>
    match audioContext s with
    | Some ctx =>
        set_audioContext
          (Some {| ctxId := ctxId ctx; ctxState := ctxState ctx;
                   currentTime := now |}) s
    | None => s
    end).

(** ** Runs of the playback scheduler *)

Inductive SchedulerOp : Type :=
| Tick (now : T)
| Enqueue (base64Audio : string)
| Ended (src : nat).

Definition schedulerStep (op : SchedulerOp) : M unit :=
  match op with
  | Tick now => advanceClock now
  | Enqueue base64Audio => queueAudioOutput base64Audio
  | Ended src => sourceEnded src
  end.

Definition runScheduler (ops : list SchedulerOp) : M unit :=
  forEach ops schedulerStep.

(** The cursor after the starvation check against the clock of [ctx]. *)
Definition snapped (s : Service) (ctx : AudioContext) : T :=
  if tltb (nextStartTime s) (currentTime ctx) then currentTime ctx
  else nextStartTime s.

(** A method body that completes normally from every world. *)
Definition neverThrows (m : M unit) : Prop :=
  forall w, completion m w = Normal tt.

(** The buffers a run hands to the sink: one per payload that decodes. *)
Fixpoint decodedBuffers (ops : list SchedulerOp) : list AudioBuffer :=
  match ops with
  | [] => []
  | Enqueue base64Audio :: rest =>
      match decodeAudio base64Audio with
      | Some audioBuffer => audioBuffer :: decodedBuffers rest
      | None => decodedBuffers rest
      end
  | _ :: rest => decodedBuffers rest
  end.

(** The payloads of a run, in arrival order. *)
Fixpoint payloads (ops : list SchedulerOp) : list string :=
  match ops with
  | [] => []
  | Enqueue base64Audio :: rest => base64Audio :: payloads rest
  | _ :: rest => payloads rest
  end.

(** The same run without the payloads that fail to decode. *)
Fixpoint withoutUndecodable (ops : list SchedulerOp) : list SchedulerOp :=
  match ops with
  | [] => []
  | Enqueue base64Audio :: rest =>
      match decodeAudio base64Audio with
      | Some _ => Enqueue base64Audio :: withoutUndecodable rest
      | None => withoutUndecodable rest
      end
  | op :: rest => op :: withoutUndecodable rest
  end.

Definition decodes (op : SchedulerOp) : Prop :=
  match op with
  | Enqueue base64Audio => decodeAudio base64Audio <> None
  | _ => True
  end.

(** The cursor is behind the sink's clock. *)
Definition starved (s : Service) : bool :=
  match audioContext s with
  | Some ctx => tltb (nextStartTime s) (currentTime ctx)
  | None => false
  end.

(** No enqueue of the run finds the cursor behind the sink's clock. *)
Fixpoint noStarvation (ops : list SchedulerOp) (w : World) : Prop :=
  match ops with
  | [] => True
  | op :: rest =>
      match op with
      | Enqueue _ => starved (svc w) = false
      | _ => True
      end
      /\ noStarvation rest (exec (schedulerStep op) w)
  end.

(** Start times on a gapless timeline: each buffer starts where the
    previous one ends. *)
Fixpoint backToBack (cursor : T) (buffers : list AudioBuffer) : list T :=
  match buffers with
  | [] => []
  | b :: rest => cursor :: backToBack (tadd cursor (duration b)) rest
  end.

Definition cursorAfter (cursor : T) (buffers : list AudioBuffer) : T :=
  fold_left (fun c b => tadd c (duration b)) buffers cursor.

(** ** Reading a trace *)

Fixpoint startTimes (tr : list Effect) : list T :=
  match tr with
  | [] => []
  | SourceStart _ when _ :: rest => when :: startTimes rest
  | _ :: rest => startTimes rest
  end.

Fixpoint started (tr : list Effect) : list (nat * T * AudioBuffer) :=
  match tr with
  | [] => []
  | SourceStart src when buffer :: rest => (src, when, buffer) :: started rest
  | _ :: rest => started rest
  end.

Fixpoint transcripts (tr : list Effect) : list (string * Role) :=
  match tr with
  | [] => []
  | OnTranscript txt role :: rest => (txt, role) :: transcripts rest
  | _ :: rest => transcripts rest
  end.

Fixpoint sent (tr : list Effect) : list string :=
  match tr with
  | [] => []
  | SendRealtimeInput _ payload :: rest => payload :: sent rest
  | _ :: rest => sent rest
  end.

Fixpoint errorNotifications (tr : list Effect) : nat :=
  match tr with
  | [] => 0
  | OnError :: rest => S (errorNotifications rest)
  | _ :: rest => errorNotifications rest
  end.

Fixpoint cleanupRuns (tr : list Effect) : nat :=
  match tr with
  | [] => 0
  | CleanupEntered :: rest => S (cleanupRuns rest)
  | _ :: rest => cleanupRuns rest
  end.

(** Two worlds that differ only in console output. *)
Definition sameButConsole (w1 w2 : World) : Prop :=
  svc w1 = svc w2 /\ fresh w1 = fresh w2
  /\ started (trace w1) = started (trace w2)
  /\ errorNotifications (trace w1) = errorNotifications (trace w2)
  /\ cleanupRuns (trace w1) = cleanupRuns (trace w2).

(** A role's accumulator once the fragment of a message is appended. *)
Definition accumulate (buffer : string) (fragment : option string) : string :=
  match fragment with
  | Some txt => buffer ++ txt
  | None => buffer
  end.

(** What a turn boundary emits for a role whose accumulator holds [txt],
    and what it leaves in the accumulator. *)
Definition flushed (txt : string) (role : Role) : list (string * Role) :=
  if truthy (trim txt) then [(txt, role)] else [].

Definition afterFlush (txt : string) : string :=
  if truthy (trim txt) then "" else txt.

(** ** One message per kind of event

    The message that carries only one of the events of [m]. *)

Definition onlyInterrupted (m : LiveServerMessage) : LiveServerMessage :=
  {| serverContent :=
       match serverContent m with
       | Some c =>
           Some {| interrupted := interrupted c;
                   modelTurn := None;
                   inputTranscription := None;
                   outputTranscription := None;
                   turnComplete := None |}
       | None => None
       end |}.

Definition onlyAudio (m : LiveServerMessage) : LiveServerMessage :=
  {| serverContent :=
       match serverContent m with
       | Some c =>
           Some {| interrupted := None;
                   modelTurn := modelTurn c;
                   inputTranscription := None;
                   outputTranscription := None;
                   turnComplete := None |}
       | None => None
       end |}.

Definition onlyInputTranscription (m : LiveServerMessage)
  : LiveServerMessage :=
  {| serverContent :=
       match serverContent m with
       | Some c =>
           Some {| interrupted := None;
                   modelTurn := None;
                   inputTranscription := inputTranscription c;
                   outputTranscription := None;
                   turnComplete := None |}
       | None => None
       end |}.

Definition onlyOutputTranscription (m : LiveServerMessage)
  : LiveServerMessage :=
  {| serverContent :=
       match serverContent m with
       | Some c =>
           Some {| interrupted := None;
                   modelTurn := None;
                   inputTranscription := None;
                   outputTranscription := outputTranscription c;
                   turnComplete := None |}
       | None => None
       end |}.

Definition onlyTurnComplete (m : LiveServerMessage) : LiveServerMessage :=
  {| serverContent :=
       match serverContent m with
       | Some c =>
           Some {| interrupted := None;
                   modelTurn := None;
                   inputTranscription := None;
                   outputTranscription := None;
                   turnComplete := turnComplete c |}
       | None => None
       end |}.

(** The events of [m] other than the interruption, delivered one message
    at a time in the order [handleMessage] looks at them. *)
Definition oneByOne (m : LiveServerMessage) : M unit :=
  handleMessage (onlyAudio m) ;;
  handleMessage (onlyInputTranscription m) ;;
  handleMessage (onlyOutputTranscription m) ;;
  handleMessage (onlyTurnComplete m).

(** ** What happens while a session is active *)

Inductive ActiveOp : Type :=
| Opened
| Message (m : LiveServerMessage)
| ClockAdvanced (now : T)
| SourceEnded (src : nat)
| Frame (inputData : list T)
| ChunkReady (base64Data : string) (session : Session).

(** The callback of l.93 hands the promise of [handleMessage] to the
    transport, which drops it: when the handler throws, the session goes
    on with the next event. *)
Definition activeStep (op : ActiveOp) : M unit :=
  match op with
  | Opened => onopen
  | Message m => tryCatch (handleMessage m) (ret tt)
  | ClockAdvanced now => advanceClock now
  | SourceEnded src => sourceEnded src
  | Frame inputData => onaudioprocess inputData ;; ret tt
  | ChunkReady base64Data session => sendChunk base64Data session
  end.

Definition isInterruption (op : ActiveOp) : bool :=
  match op with
  | Message m => interruptedOf (serverContent m)
  | _ => false
  end.

(** ** Worlds and calls to compare with *)

(** The service as the constructor leaves it, in an empty world. *)
Definition newWorld : World :=
  {| svc := newService; trace := []; fresh := 0 |}.

(** The service state [cleanup] ends in: only the two transcript
    accumulators keep their values. *)
Definition released (s : Service) : Service := {|
  sessionPromise := None;
  audioContext := None;
  inputAudioContext := None;
  inputSource := None;
  processor := None;
  stream := None;
  nextStartTime := tzero;
  scheduledSources := [];
  outputGain := None;
  outputAnalyser := None;
  currentInputTranscription := currentInputTranscription s;
  currentOutputTranscription := currentOutputTranscription s;
  isConnected := false
|}.

(** The calls [cleanup] makes on a service in state [s]. *)
Definition closeCalls (o : option AudioContext) : list Effect :=
  match o with
  | Some ctx =>
      if isClosed (ctxState ctx) then [] else [ContextClose (ctxId ctx)]
  | None => []
  end.

Definition cleanupCalls (s : Service) : list Effect :=
  [CleanupEntered]
  ++ match stream s with
     | Some st => map TrackStop (tracks st)
     | None => []
     end
  ++ match processor s with
     | Some p => [ProcessorDisconnect p; ProcessorUnhook p]
     | None => []
     end
  ++ match inputSource s with
     | Some n => [InputSourceDisconnect n]
     | None => []
     end
  ++ closeCalls (inputAudioContext s)
  ++ closeCalls (audioContext s).

(** The calls [disconnect] makes before it reaches [cleanup], when the
    rejection of the promise, if any, is not reported
    ([rejectionReported]). *)
Definition sessionCalls (settle : Settlement) (s : Service) : list Effect :=
  match sessionPromise s with
  | Some _ =>
      match settle with
      | Resolves session =>
          if hasClose session then
            SessionClose (sessionId session)
            :: (if sessionCloseThrows (sessionId session)
                then [ConsoleLog "Error closing session"]
                else [])
          else []
      | Rejects => [ConsoleLog "Error closing session"]
      end
  | None => []
  end.

(** The operations of the capture pipeline. *)
Definition isCapture (op : ActiveOp) : bool :=
  match op with
  | Frame _ => true
  | ChunkReady _ _ => true
  | _ => false
  end.

(** ** More ways to read a world *)

Fixpoint openNotifications (tr : list Effect) : nat :=
  match tr with
  | [] => 0
  | OnOpen :: rest => S (openNotifications rest)
  | _ :: rest => openNotifications rest
  end.

Fixpoint closeNotifications (tr : list Effect) : nat :=
  match tr with
  | [] => 0
  | OnClose :: rest => S (closeNotifications rest)
  | _ :: rest => closeNotifications rest
  end.

(** The identities of the scheduled sources. *)
Definition scheduledIds (s : Service) : list nat :=
  map srcId (scheduledSources s).

(** Every scheduled source was created by this service, and none is in
    the set twice. *)
Definition wellScheduled (w : World) : Prop :=
  Forall (fun id => id < fresh w) (scheduledIds (svc w))
  /\ NoDup (scheduledIds (svc w)).

(** Two service states with the same session and the same devices: they
    may differ in the cursor, in the scheduled set and in the two
    transcript accumulators. *)
Definition sameSession (s1 s2 : Service) : Prop :=
  sessionPromise s1 = sessionPromise s2
  /\ audioContext s1 = audioContext s2
  /\ inputAudioContext s1 = inputAudioContext s2
  /\ inputSource s1 = inputSource s2
  /\ processor s1 = processor s2
  /\ stream s1 = stream s2
  /\ outputGain s1 = outputGain s2
  /\ outputAnalyser s1 = outputAnalyser s2
  /\ isConnected s1 = isConnected s2.

(** The calls that handling a message may make: wiring, starting and
    stopping source nodes, the decode log, and the transcript callback. *)
Definition isMessageCall (e : Effect) : bool :=
  match e with
  | SourceStart _ _ _ => true
  | SourceStop _ => true
  | Connect _ _ => true
  | ConsoleError _ => true
  | OnTranscript _ _ => true
  | _ => false
  end.

(** An audio context as its constructor returns it. *)
Definition newContext (id : nat) : AudioContext :=
  {| ctxId := id; ctxState := newContextState; currentTime := tzero |}.

(** The service after a [connect] that got the microphone [mic], when
    [n] was the next free object identity: two new contexts, the gain,
    the analyser and the pending session promise. *)
Definition connectingService (mic : MediaStream) (n : nat) : Service := {|
  sessionPromise := Some (n + 4);
  audioContext := Some (newContext n);
  inputAudioContext := Some (newContext (n + 1));
  inputSource := None;
  processor := None;
  stream := Some mic;
  nextStartTime := tzero;
  scheduledSources := [];
  outputGain := Some (n + 2);
  outputAnalyser := Some (n + 3);
  currentInputTranscription := "";
  currentOutputTranscription := "";
  isConnected := false
|}.

(** The inline data of a part, if any, carries a [mimeType]. *)
Definition typedPart (part : Part) : bool :=
  match inlineData part with
  | Some blob => negb (isNone (mimeType blob))
  | None => true
  end.

(** Every inline data of the message carries a [mimeType]: the loop over
    its parts gets to its end. *)
Definition wellTyped (m : LiveServerMessage) : bool :=
  forallb typedPart (partsOf (serverContent m)).

(** The payloads of the parts that [handleMessage] enqueues: those with
    inline data whose type starts with [audio/pcm], as far as the loop
    gets, which is up to the first inline data without a type. *)
Fixpoint audioPayloads (ps : list Part) : list string :=
  match ps with
  | [] => []
  | part :: rest =>
      match inlineData part with
      | Some blob =>
          match mimeType blob with
          | Some type =>
              if startsWith "audio/pcm" type
              then data blob :: audioPayloads rest
              else audioPayloads rest
          | None => []
          end
      | None => audioPayloads rest
      end
  end.

(** Whether the message holds an audio part that its handler reaches,
    and so waits at least once. *)
Definition hasAudio (m : LiveServerMessage) : bool :=
  match audioPayloads (partsOf (serverContent m)) with
  | [] => false
  | _ :: _ => true
  end.

(** A message between two turn boundaries that its handler handles to
    the end: no interruption, no turn-complete signal, and every
    inline-data part typed. *)
Definition betweenTurns (m : LiveServerMessage) : Prop :=
  interruptedOf (serverContent m) = false
  /\ turnCompleteOf (serverContent m) = false
  /\ wellTyped m = true.

(** What handling a message may do to a world: the session and the
    devices stay as they are, identities are only taken, and the calls
    added are those of [isMessageCall]. *)
Definition contained (w w' : World) : Prop :=
  sameSession (svc w) (svc w')
  /\ fresh w <= fresh w'
  /\ exists added, trace w' = (trace w ++ added)%list
                   /\ forallb isMessageCall added = true.

(** Whether the rejection of the session promise is reported by the
    handler of l.110-116 when [disconnect] awaits the promise: the field
    is set, the promise rejects, and the input context is still set. *)
Definition rejectionReported (settle : Settlement) (s : Service) : bool :=
  match sessionPromise s, settle, inputAudioContext s with
  | Some _, Rejects, Some _ => true
  | _, _, _ => false
  end.

(** What a run of messages leaves in an accumulator. *)
Definition accumulated (buffer : string) (fragments : list (option string))
  : string :=
  fold_left accumulate fragments buffer.

(** A capture frame on a session whose promise is already fulfilled: the
    handler, then the continuation it has registered. *)
Definition captureFrame (session : Session) (inputData : list T) : M unit :=
  chunk <- onaudioprocess inputData ;;
  match chunk with
  | Some base64Data => sendChunk base64Data session
  | None => ret tt
  end.

(** The calls [startAudioInput] makes for an input context [ctx] when it
    creates the nodes [src] and [p], the warning of a failed [resume()]
    included. *)
Definition captureWiring (ctx : AudioContext) (src p : nat) : list Effect :=
  (if isSuspended (ctxState ctx) then [ContextResume (ctxId ctx)] else [])
  ++ [Connect src (ToNode p); Connect p (ToDestination (ctxId ctx))]
  ++ (if isSuspended (ctxState ctx) && resumeRejects (ctxId ctx)
      then [ConsoleWarn "Input context resume failed"] else []).

End Model.

Arguments AudioBuffer : clear implicits.
Arguments AudioContext : clear implicits.
Arguments SourceNode : clear implicits.
Arguments Effect : clear implicits.
Arguments Service : clear implicits.
Arguments World : clear implicits.
Arguments Host T : clear implicits.
Arguments SchedulerOp : clear implicits.
Arguments ActiveOp : clear implicits.
Arguments M : clear implicits.

(** ** Playback that does not overlap

    [chained c l e]: the buffers of [l] start one after the other, the
    first not before [c], each not before the previous one has ended,
    and the last ends not after [e]. *)

Section Ordered.

Context {T : Type} {TL : Timeline T} {TO : TimelineOrder T}.

Fixpoint chained (c : T) (l : list (nat * T * AudioBuffer T)) (e : T)
  : Prop :=
  match l with
  | [] => tle c e
  | (_, when, b) :: rest =>
      tle c when /\ chained (tadd when (duration b)) rest e
  end.

End Ordered.

(** ** A host to run the model on

    Times are counted in whole sample frames of the sink.  A payload
    decodes to a buffer with one frame per character, unless it starts
    with an exclamation mark, which stands for a malformed payload; a
    captured frame is encoded by its length; nothing else throws. *)

#[export] Instance ZTimeline : Timeline Z := {
  tzero := 0%Z;
  tadd := Z.add;
  tltb := Z.ltb
}.

Lemma Z_ltb_le (a b : Z) : Z.ltb a b = true -> Z.le a b.
Proof. intros H. apply Z.ltb_lt in H. lia. Qed.

Lemma Z_add_nonneg_le (c d : Z) : Z.le 0 d -> Z.le c (Z.add c d).
Proof. lia. Qed.

#[export] Instance ZOrder : TimelineOrder Z := {
  tle := Z.le;
  tle_refl := Z.le_refl;
  tle_trans := Z.le_trans;
  tltb_tle := Z_ltb_le;
  tadd_nonneg := Z_add_nonneg_le
}.

Definition demoDecode (base64Audio : string) : option (AudioBuffer Z) :=
  if startsWith "!" base64Audio then None
  else Some {| duration := Z.of_nat (String.length base64Audio) |}.

Fixpoint demoEncode (inputData : list Z) : string :=
  match inputData with
  | [] => ""
  | _ :: rest => String "A" (demoEncode rest)
  end.

#[export] Instance demoHost : Host Z := {
  decodeAudio := demoDecode;
  encodeFrame := demoEncode;
  stopThrows := fun _ => false;
  closeRejects := fun _ => false;
  resumeRejects := fun _ => false;
  sessionCloseThrows := fun _ => false;
  sendThrows := fun _ => false;
  newContextState := Running
}.


(** Three payloads of four, two and one frames, the clock moving and the
    first source finishing in between. *)
Definition demoRun : list (SchedulerOp Z) :=
  [Enqueue "aaaa"; Tick 2%Z; Enqueue "bb"; Ended 7; Enqueue "c"].

(** The same with a malformed payload after the first one. *)
Definition demoRunWithBadChunk : list (SchedulerOp Z) :=
  [Enqueue "aaaa"; Enqueue "!bad"; Tick 2%Z; Enqueue "bb"; Ended 7;
   Enqueue "c"].

(** Messages for the examples. *)
Definition demoAudioPart (base64Audio : string) : Part :=
  {| inlineData :=
       Some {| mimeType := Some "audio/pcm;rate=24000";
               data := base64Audio |} |}.

Definition demoAudio (base64Audio : string) : LiveServerMessage :=
  {| serverContent :=
       Some {| interrupted := None;
               modelTurn := Some {| parts := Some [demoAudioPart base64Audio] |};
               inputTranscription := None;
               outputTranscription := None;
               turnComplete := None |} |}.

(** A message whose parts are a text part, an image and two audio
    payloads. *)
Definition demoMixedParts : LiveServerMessage :=
  {| serverContent :=
       Some {| interrupted := None;
               modelTurn :=
                 Some {| parts :=
                   Some [ {| inlineData := None |};
                          {| inlineData :=
                               Some {| mimeType := Some "image/png";
                                       data := "zzzz" |} |};
                          demoAudioPart "aaaa";
                          demoAudioPart "bb" ] |};
               inputTranscription := None;
               outputTranscription := None;
               turnComplete := None |} |}.

Definition demoInterruption : LiveServerMessage :=
  {| serverContent :=
       Some {| interrupted := Some true;
               modelTurn := None;
               inputTranscription := None;
               outputTranscription := None;
               turnComplete := None |} |}.

Definition demoInputFragment (txt : string) : LiveServerMessage :=
  {| serverContent :=
       Some {| interrupted := None;
               modelTurn := None;
               inputTranscription := Some {| text := Some txt |};
               outputTranscription := None;
               turnComplete := None |} |}.

Definition demoTurnComplete : LiveServerMessage :=
  {| serverContent :=
       Some {| interrupted := None;
               modelTurn := None;
               inputTranscription := None;
               outputTranscription := None;
               turnComplete := Some true |} |}.

(** One message carrying every kind of event at once. *)
Definition demoEverything : LiveServerMessage :=
  {| serverContent :=
       Some {| interrupted := Some true;
               modelTurn := Some {| parts := Some [demoAudioPart "aaaa"] |};
               inputTranscription := Some {| text := Some "hi" |};
               outputTranscription := Some {| text := Some "yo" |};
               turnComplete := Some true |} |}.

(** A whole turn in one message: an audio payload, a fragment for each
    role and the turn-complete signal. *)
Definition demoWholeTurn : LiveServerMessage :=
  {| serverContent :=
       Some {| interrupted := None;
               modelTurn := Some {| parts := Some [demoAudioPart "aaaa"] |};
               inputTranscription := Some {| text := Some "hi" |};
               outputTranscription := Some {| text := Some "yo" |};
               turnComplete := Some true |} |}.

(** The same turn with inline data that lacks its type in front of the
    audio payload. *)
Definition demoUntypedTurn : LiveServerMessage :=
  {| serverContent :=
       Some {| interrupted := None;
               modelTurn :=
                 Some {| parts :=
                   Some [ {| inlineData :=
                               Some {| mimeType := None; data := "zz" |} |};
                          demoAudioPart "aaaa" ] |};
               inputTranscription := Some {| text := Some "hi" |};
               outputTranscription := Some {| text := Some "yo" |};
               turnComplete := Some true |} |}.

(** An audio payload together with a fragment of what the user said. *)
Definition demoAudioWithInput (base64Audio txt : string)
  : LiveServerMessage :=
  {| serverContent :=
       Some {| interrupted := None;
               modelTurn := Some {| parts := Some [demoAudioPart base64Audio] |};
               inputTranscription := Some {| text := Some txt |};
               outputTranscription := None;
               turnComplete := None |} |}.

(** An audio payload together with a fragment of what the model says. *)
Definition demoAudioWithOutput (base64Audio txt : string)
  : LiveServerMessage :=
  {| serverContent :=
       Some {| interrupted := None;
               modelTurn := Some {| parts := Some [demoAudioPart base64Audio] |};
               inputTranscription := None;
               outputTranscription := Some {| text := Some txt |};
               turnComplete := None |} |}.

Definition demoOutputFragment (txt : string) : LiveServerMessage :=
  {| serverContent :=
       Some {| interrupted := None;
               modelTurn := None;
               inputTranscription := None;
               outputTranscription := Some {| text := Some txt |};
               turnComplete := None |} |}.

Definition demoSession : Session := {| sessionId := 7; hasClose := true |}.

Definition demoMic : MediaStream := {| streamId := 1; tracks := [11] |}.

(** A service that went through [connect] and [onopen]. *)
Definition connectedWorld : World Z :=
  exec (connect Rejects (Some demoMic) ;; onopen) newWorld.

(** A session being set up: [connect] has the microphone and waits for
    the transport. *)
Definition connectingWorld : World Z :=
  exec (connect Rejects (Some demoMic)) newWorld.

(** A session being set up: [connect] waits for the microphone. *)
Definition awaitingMicWorld : World Z :=
  exec (connectSetup Rejects) newWorld.

(** [disconnect] is called there, and the microphone is granted while
    its [cleanup] waits for the input context to close. *)
Definition overtakenDisconnect : M Z unit :=
  disconnectUntilAwait ;;
  connectOpen (Some demoMic) ;;
  cleanupAfterAwait.

(** An active session with five frames of audio scheduled and the sink's
    clock at frame two. *)
Definition playingWorld : World Z :=
  exec (runScheduler [Enqueue "aaaaa"; Tick 2%Z]) connectedWorld.

(** An active session whose user accumulator holds three spaces. *)
Definition blankWorld : World Z :=
  exec (handleMessage (demoInputFragment "   ")) connectedWorld.

(** The model had said [early] when the interruption came. *)
Definition midSentenceWorld : World Z :=
  exec (handleMessage (demoOutputFragment "early")) connectedWorld.

(** * Properties *)

Section Properties.

Context {T : Type} {TL : Timeline T} {HO : Host T}.

Ltac unfold_monad :=
  cbv [bind ret this assign emit newObject throw tryCatch when_ exec
       completion].

(** ** Sequencing of bodies that do not throw *)

Lemma completion_exec (m : M T unit) (w : World T) :
  completion m w = Normal tt -> m w = (Normal tt, exec m w).
Proof.
  unfold completion, exec. destruct (m w) as [c w']. simpl.
  intros ->. reflexivity.
Qed.

Lemma exec_seq (m k : M T unit) (w : World T) :
  neverThrows m -> exec (m ;; k) w = exec k (exec m w).
Proof.
  intros Hm. unfold exec at 1. unfold bind.
  rewrite (completion_exec m w (Hm w)). reflexivity.
Qed.

Lemma completion_seq (m k : M T unit) (w : World T) :
  neverThrows m -> completion (m ;; k) w = completion k (exec m w).
Proof.
  intros Hm. unfold completion at 1. unfold bind.
  rewrite (completion_exec m w (Hm w)). reflexivity.
Qed.

Lemma neverThrows_seq (m k : M T unit) :
  neverThrows m -> neverThrows k -> neverThrows (m ;; k).
Proof.
  intros Hm Hk w. rewrite completion_seq by assumption. apply Hk.
Qed.

Lemma neverThrows_ret : neverThrows (ret tt : M T unit).
Proof. intros w. reflexivity. Qed.

Lemma neverThrows_assign (f : Service T -> Service T) :
  neverThrows (assign f).
Proof. intros w. reflexivity. Qed.

Lemma neverThrows_emit (e : Effect T) : neverThrows (emit e).
Proof. intros w. reflexivity. Qed.

Lemma neverThrows_when (b : bool) (m : M T unit) :
  neverThrows m -> neverThrows (when_ b m).
Proof. intros Hm. destruct b; [exact Hm | apply neverThrows_ret]. Qed.

Lemma neverThrows_tryCatch (body handler : M T unit) :
  neverThrows handler -> neverThrows (tryCatch body handler).
Proof.
  intros Hh w. unfold completion, tryCatch.
  destruct (body w) as [[[]|] w']; [reflexivity | apply Hh].
Qed.

Lemma neverThrows_forEach {A : Type} (l : list A) (f : A -> M T unit) :
  (forall x, neverThrows (f x)) -> neverThrows (forEach l f).
Proof.
  intros Hf. induction l as [|x l IH]; simpl.
  - apply neverThrows_ret.
  - apply neverThrows_seq; [apply Hf | exact IH].
Qed.

Lemma neverThrows_this (k : Service T -> M T unit) :
  (forall s, neverThrows (k s)) -> neverThrows (s <- this ;; k s).
Proof. intros Hk w. unfold completion, bind, this. apply Hk. Qed.

Lemma exec_forEach_cons {A : Type} (x : A) (l : list A) (f : A -> M T unit)
  (w : World T) :
  neverThrows (f x) ->
  exec (forEach (x :: l) f) w = exec (forEach l f) (exec (f x) w).
Proof. intros Hx. simpl. apply exec_seq, Hx. Qed.

Lemma exec_forEach_app {A : Type} (l1 l2 : list A) (f : A -> M T unit)
  (w : World T) :
  (forall x, neverThrows (f x)) ->
  exec (forEach (l1 ++ l2) f) w = exec (forEach l2 f) (exec (forEach l1 f) w).
Proof.
  intros Hf. revert w. induction l1 as [|x l1 IH]; intros w; simpl.
  - reflexivity.
  - rewrite !exec_seq by apply Hf. apply IH.
Qed.

(** ** Reading a trace that grows *)

Lemma startTimes_app (t1 t2 : list (Effect T)) :
  startTimes (t1 ++ t2) = (startTimes t1 ++ startTimes t2)%list.
Proof.
  induction t1 as [|e t1 IH]; simpl; [reflexivity|].
  destruct e; simpl; rewrite ?IH; reflexivity.
Qed.

Lemma started_app (t1 t2 : list (Effect T)) :
  started (t1 ++ t2) = (started t1 ++ started t2)%list.
Proof.
  induction t1 as [|e t1 IH]; simpl; [reflexivity|].
  destruct e; simpl; rewrite ?IH; reflexivity.
Qed.

Lemma transcripts_app (t1 t2 : list (Effect T)) :
  transcripts (t1 ++ t2) = (transcripts t1 ++ transcripts t2)%list.
Proof.
  induction t1 as [|e t1 IH]; simpl; [reflexivity|].
  destruct e; simpl; rewrite ?IH; reflexivity.
Qed.

Lemma errorNotifications_app (t1 t2 : list (Effect T)) :
  errorNotifications (t1 ++ t2) = errorNotifications t1 + errorNotifications t2.
Proof.
  induction t1 as [|e t1 IH]; simpl; [reflexivity|].
  destruct e; simpl; rewrite ?IH; reflexivity.
Qed.

Lemma cleanupRuns_app (t1 t2 : list (Effect T)) :
  cleanupRuns (t1 ++ t2) = cleanupRuns t1 + cleanupRuns t2.
Proof.
  induction t1 as [|e t1 IH]; simpl; [reflexivity|].
  destruct e; simpl; rewrite ?IH; reflexivity.
Qed.

(** ** One enqueue, case by case *)

Lemma hasSink_inv (s : Service T) :
  hasSink s = true ->
  exists ctx gain, audioContext s = Some ctx /\ outputGain s = Some gain.
Proof.
  unfold hasSink. destruct (audioContext s) as [ctx|], (outputGain s) as [g|];
    simpl; try discriminate. intros _. eauto.
Qed.

Lemma queue_without_sink (base64Audio : string) (w : World T) :
  hasSink (svc w) = false -> queueAudioOutput base64Audio w = (Normal tt, w).
Proof.
  unfold hasSink, queueAudioOutput. unfold_monad.
  destruct (audioContext (svc w)), (outputGain (svc w)); simpl;
    try discriminate; reflexivity.
Qed.

Lemma queue_decoded (base64Audio : string) (w : World T)
  (ctx : AudioContext T) (gain : nat) (b : AudioBuffer T) :
  audioContext (svc w) = Some ctx ->
  outputGain (svc w) = Some gain ->
  decodeAudio base64Audio = Some b ->
  queueAudioOutput base64Audio w =
    (Normal tt,
     {| svc :=
          set_scheduledSources
            (setAdd {| srcId := fresh w; srcBuffer := b |}
               (scheduledSources (svc w)))
            (set_nextStartTime (tadd (snapped (svc w) ctx) (duration b))
               (svc w));
        trace :=
          trace w ++ [Connect (fresh w) (ToNode gain);
                      SourceStart (fresh w) (snapped (svc w) ctx) b];
        fresh := S (fresh w) |}).
Proof.
  intros Hc Hg Hd.
  unfold queueAudioOutput, decode, readCurrentTime, snapped. unfold_monad.
  rewrite Hc, Hg, Hd. cbn. rewrite Hc.
  destruct (tltb _ _); cbn; rewrite <- app_assoc; reflexivity.
Qed.

Lemma queue_undecodable (base64Audio : string) (w : World T) :
  hasSink (svc w) = true ->
  decodeAudio base64Audio = None ->
  queueAudioOutput base64Audio w =
    (Normal tt,
     {| svc := svc w;
        trace := trace w ++ [ConsoleError "Error decoding audio"];
        fresh := fresh w |}).
Proof.
  intros Hs Hd. destruct (hasSink_inv _ Hs) as (ctx & gain & Hc & Hg).
  unfold queueAudioOutput, decode. unfold_monad.
  rewrite Hc, Hg, Hd. reflexivity.
Qed.

Lemma neverThrows_queue (base64Audio : string) :
  neverThrows (queueAudioOutput base64Audio).
Proof.
  intros w. unfold queueAudioOutput.
  apply (neverThrows_this (fun s =>
    match audioContext s, outputGain s with
    | Some _, Some gain => _
    | _, _ => ret tt
    end)).
  intros s. destruct (audioContext s), (outputGain s);
    try apply neverThrows_ret.
  apply neverThrows_tryCatch, neverThrows_emit.
Qed.

Lemma neverThrows_schedulerStep (op : SchedulerOp T) :
  neverThrows (schedulerStep op).
Proof.
  destruct op; simpl.
  - apply neverThrows_assign.
  - apply neverThrows_queue.
  - apply neverThrows_assign.
Qed.

Lemma neverThrows_runScheduler (ops : list (SchedulerOp T)) :
  neverThrows (runScheduler ops).
Proof. apply neverThrows_forEach, neverThrows_schedulerStep. Qed.

Lemma runScheduler_cons (op : SchedulerOp T) (ops : list (SchedulerOp T))
  (w : World T) :
  exec (runScheduler (op :: ops)) w =
  exec (runScheduler ops) (exec (schedulerStep op) w).
Proof. apply exec_forEach_cons, neverThrows_schedulerStep. Qed.

Lemma runScheduler_app (ops1 ops2 : list (SchedulerOp T)) (w : World T) :
  exec (runScheduler (ops1 ++ ops2)) w =
  exec (runScheduler ops2) (exec (runScheduler ops1) w).
Proof. apply exec_forEach_app, neverThrows_schedulerStep. Qed.

(** The sink stays in place along a scheduler run. *)
Lemma schedulerStep_hasSink (op : SchedulerOp T) (w : World T) :
  hasSink (svc (exec (schedulerStep op) w)) = hasSink (svc w).
Proof.
  destruct op as [now|base64Audio|src]; simpl.
  - unfold advanceClock, hasSink. unfold_monad. simpl.
    destruct (audioContext (svc w)) eqn:Hc; simpl; rewrite ?Hc; reflexivity.
  - destruct (hasSink (svc w)) eqn:Hs.
    + destruct (hasSink_inv _ Hs) as (ctx & gain & Hc & Hg).
      destruct (decodeAudio base64Audio) as [b|] eqn:Hd.
      * unfold exec. rewrite (queue_decoded _ _ _ _ _ Hc Hg Hd). simpl.
        unfold hasSink. simpl. rewrite Hc, Hg. reflexivity.
      * unfold exec. rewrite (queue_undecodable _ _ Hs Hd). exact Hs.
    + unfold exec. rewrite (queue_without_sink _ _ Hs). exact Hs.
  - reflexivity.
Qed.

(** What one step does to the cursor and to the list of start times. *)
Lemma schedulerStep_smooth (op : SchedulerOp T) (w : World T) :
  hasSink (svc w) = true ->
  match op with
  | Enqueue _ => starved (svc w) = false
  | _ => True
  end ->
  let w' := exec (schedulerStep op) w in
  startTimes (trace w') =
    (startTimes (trace w)
       ++ backToBack (nextStartTime (svc w)) (decodedBuffers [op]))%list
  /\ nextStartTime (svc w') =
     cursorAfter (nextStartTime (svc w)) (decodedBuffers [op]).
Proof.
  intros Hs Hsm. destruct op as [now|base64Audio|src]; simpl.
  - unfold advanceClock. unfold_monad. simpl. rewrite app_nil_r.
    destruct (audioContext (svc w)); auto.
  - destruct (hasSink_inv _ Hs) as (ctx & gain & Hc & Hg).
    destruct (decodeAudio base64Audio) as [b|] eqn:Hd.
    + unfold exec. rewrite (queue_decoded _ _ _ _ _ Hc Hg Hd). simpl.
      assert (Hsn : snapped (svc w) ctx = nextStartTime (svc w)).
      { unfold snapped. unfold starved in Hsm. rewrite Hc in Hsm.
        rewrite Hsm. reflexivity. }
      rewrite Hsn, startTimes_app. auto.
    + unfold exec. rewrite (queue_undecodable _ _ Hs Hd). simpl.
      rewrite startTimes_app. simpl. rewrite app_nil_r. auto.
  - unfold sourceEnded. unfold_monad. simpl. rewrite app_nil_r. auto.
Qed.

Lemma decodedBuffers_cons (op : SchedulerOp T) (ops : list (SchedulerOp T)) :
  decodedBuffers (op :: ops) = (decodedBuffers [op] ++ decodedBuffers ops)%list.
Proof.
  destruct op as [now|base64Audio|src]; simpl; try reflexivity.
  destruct (decodeAudio base64Audio); reflexivity.
Qed.

Lemma backToBack_app (c : T) (l1 l2 : list (AudioBuffer T)) :
  backToBack c (l1 ++ l2) =
  (backToBack c l1 ++ backToBack (cursorAfter c l1) l2)%list.
Proof.
  revert c. induction l1 as [|b l1 IH]; intros c; simpl.
  - reflexivity.
  - rewrite IH. reflexivity.
Qed.

Lemma cursorAfter_app (c : T) (l1 l2 : list (AudioBuffer T)) :
  cursorAfter c (l1 ++ l2) = cursorAfter (cursorAfter c l1) l2.
Proof. unfold cursorAfter. apply fold_left_app. Qed.

(** Gapless scheduling along a whole run: the buffers that decode start
    back to back from the initial cursor. *)
Lemma run_back_to_back (ops : list (SchedulerOp T)) (w : World T) :
  hasSink (svc w) = true ->
  noStarvation ops w ->
  startTimes (trace (exec (runScheduler ops) w)) =
    (startTimes (trace w)
       ++ backToBack (nextStartTime (svc w)) (decodedBuffers ops))%list
  /\ nextStartTime (svc (exec (runScheduler ops) w)) =
     cursorAfter (nextStartTime (svc w)) (decodedBuffers ops).
Proof.
  revert w. induction ops as [|op ops IH]; intros w Hs Hsm.
  - simpl. rewrite app_nil_r. auto.
  - destruct Hsm as [Hop Hrest].
    rewrite runScheduler_cons, decodedBuffers_cons.
    destruct (schedulerStep_smooth op w Hs Hop) as [Ht Hc].
    destruct (IH (exec (schedulerStep op) w)) as [Ht' Hc'].
    + rewrite schedulerStep_hasSink. exact Hs.
    + exact Hrest.
    + rewrite Ht', Hc', Ht, Hc, backToBack_app, cursorAfter_app, app_assoc.
      auto.
Qed.

Lemma noStarvation_app (ops1 ops2 : list (SchedulerOp T)) (w : World T) :
  noStarvation (ops1 ++ ops2) w ->
  noStarvation ops1 w /\ noStarvation ops2 (exec (runScheduler ops1) w).
Proof.
  revert w. induction ops1 as [|op ops1 IH]; intros w; simpl.
  - auto.
  - intros [Hop Hrest]. destruct (IH _ Hrest) as [H1 H2].
    rewrite runScheduler_cons. auto.
Qed.

Lemma runScheduler_hasSink (ops : list (SchedulerOp T)) (w : World T) :
  hasSink (svc (exec (runScheduler ops) w)) = hasSink (svc w).
Proof.
  revert w. induction ops as [|op ops IH]; intros w.
  - reflexivity.
  - rewrite runScheduler_cons, IH. apply schedulerStep_hasSink.
Qed.

Lemma decodedBuffers_payloads (ops : list (SchedulerOp T)) :
  Forall decodes ops ->
  map decodeAudio (payloads ops) = map Some (decodedBuffers ops).
Proof.
  induction 1 as [|op ops Hop _ IH]; simpl; [reflexivity|].
  destruct op as [now|base64Audio|src]; simpl; try exact IH.
  simpl in Hop. destruct (decodeAudio base64Audio) eqn:Hd; [|congruence].
  simpl. rewrite ?Hd, IH. reflexivity.
Qed.

(** Claim C1.  Take any run of the playback scheduler (payloads being
    enqueued, the sink's clock advancing, sources finishing) that starts
    with the output context and gain in place, in which every payload
    decodes and no enqueue finds the cursor behind the sink's clock.
    Then the start times handed to the sink are the initial cursor, then
    the cursor plus the first duration, and so on: each buffer starts
    where the previous one ends, in arrival order; the cursor ends at
    the initial cursor plus all durations; and every single enqueue
    advances the cursor by exactly the duration of its buffer. *)
Theorem contiguous_playback (ops : list (SchedulerOp T)) (w : World T) :
  hasSink (svc w) = true ->
  Forall decodes ops ->
  noStarvation ops w ->
  let w' := exec (runScheduler ops) w in
  map decodeAudio (payloads ops) = map Some (decodedBuffers ops)
  /\ startTimes (trace w') =
     (startTimes (trace w)
        ++ backToBack (nextStartTime (svc w)) (decodedBuffers ops))%list
  /\ nextStartTime (svc w') =
     cursorAfter (nextStartTime (svc w)) (decodedBuffers ops)
  /\ forall pre base64Audio post b,
       ops = (pre ++ Enqueue base64Audio :: post)%list ->
       decodeAudio base64Audio = Some b ->
       let before := exec (runScheduler pre) w in
       let after := exec (queueAudioOutput base64Audio) before in
       startTimes (trace after) =
         (startTimes (trace before) ++ [nextStartTime (svc before)])%list
       /\ nextStartTime (svc after) =
          tadd (nextStartTime (svc before)) (duration b).
Proof.
  intros Hs Hdec Hsm. cbv zeta.
  split; [apply decodedBuffers_payloads, Hdec|].
  destruct (run_back_to_back ops w Hs Hsm) as [Ht Hc].
  split; [exact Ht|]. split; [exact Hc|].
  intros pre base64Audio post b -> Hd.
  destruct (noStarvation_app _ _ _ Hsm) as [_ [Hhere _]].
  assert (Hs' : hasSink (svc (exec (runScheduler pre) w)) = true)
    by (rewrite runScheduler_hasSink; exact Hs).
  destruct (hasSink_inv _ Hs') as (ctx & gain & Hctx & Hg).
  set (before := exec (runScheduler pre) w) in *.
  assert (Hsn : snapped (svc before) ctx = nextStartTime (svc before)).
  { unfold snapped. unfold starved in Hhere. rewrite Hctx in Hhere.
    rewrite Hhere. reflexivity. }
  unfold exec at 1 2.
  rewrite (queue_decoded _ _ _ _ _ Hctx Hg Hd). simpl.
  rewrite Hsn, startTimes_app. auto.
Qed.

(** Claim C10.  When the output audio context or the output gain is
    missing, [queueAudioOutput] completes normally and leaves the whole
    world as it was: the cursor keeps its value, the scheduled set gains
    no element, and no call is made. *)
Theorem enqueue_without_sink_changes_nothing
  (base64Audio : string) (w : World T) :
  audioContext (svc w) = None \/ outputGain (svc w) = None ->
  completion (queueAudioOutput base64Audio) w = Normal tt
  /\ exec (queueAudioOutput base64Audio) w = w
  /\ nextStartTime (svc (exec (queueAudioOutput base64Audio) w)) =
     nextStartTime (svc w)
  /\ scheduledSources (svc (exec (queueAudioOutput base64Audio) w)) =
     scheduledSources (svc w).
Proof.
  intros Hno.
  assert (Hs : hasSink (svc w) = false).
  { unfold hasSink. destruct Hno as [-> | ->]; simpl;
      [reflexivity | apply andb_false_r]. }
  unfold completion, exec. rewrite (queue_without_sink _ _ Hs). auto.
Qed.

(** ** A payload that fails to decode *)

(** A step looks at the service and at the identity supply only, and
    extends the trace by calls that do not depend on what was traced
    before. *)
Lemma schedulerStep_frame (op : SchedulerOp T) (s : Service T)
  (t1 t2 : list (Effect T)) (n : nat) :
  let r1 := exec (schedulerStep op) {| svc := s; trace := t1; fresh := n |} in
  let r2 := exec (schedulerStep op) {| svc := s; trace := t2; fresh := n |} in
  svc r1 = svc r2 /\ fresh r1 = fresh r2
  /\ exists added, trace r1 = (t1 ++ added)%list
                   /\ trace r2 = (t2 ++ added)%list.
Proof.
  destruct op as [now|base64Audio|src]; simpl.
  - repeat split. exists []. rewrite !app_nil_r. auto.
  - destruct (hasSink s) eqn:Hs.
    + destruct (hasSink_inv _ Hs) as (ctx & gain & Hc & Hg).
      destruct (decodeAudio base64Audio) as [b|] eqn:Hd.
      * unfold exec.
        rewrite (queue_decoded base64Audio {| svc := s; trace := t1 |}
                   ctx gain b Hc Hg Hd).
        rewrite (queue_decoded base64Audio {| svc := s; trace := t2 |}
                   ctx gain b Hc Hg Hd).
        simpl. repeat split. eauto.
      * unfold exec.
        rewrite (queue_undecodable base64Audio {| svc := s; trace := t1 |}
                   Hs Hd).
        rewrite (queue_undecodable base64Audio {| svc := s; trace := t2 |}
                   Hs Hd).
        simpl. repeat split. eauto.
    + unfold exec.
      rewrite (queue_without_sink base64Audio {| svc := s; trace := t1 |} Hs).
      rewrite (queue_without_sink base64Audio {| svc := s; trace := t2 |} Hs).
      simpl. repeat split. exists []. rewrite !app_nil_r. auto.
  - repeat split. exists []. rewrite !app_nil_r. auto.
Qed.

Lemma schedulerStep_sameButConsole (op : SchedulerOp T) (w1 w2 : World T) :
  sameButConsole w1 w2 ->
  sameButConsole (exec (schedulerStep op) w1) (exec (schedulerStep op) w2).
Proof.
  destruct w1 as [s1 t1 n1], w2 as [s2 t2 n2].
  intros (Hs & Hn & Hst & He & Hcl). simpl in Hs, Hn, Hst, He, Hcl. subst.
  destruct (schedulerStep_frame op s2 t1 t2 n2)
    as (Hs' & Hn' & added & H1 & H2).
  unfold sameButConsole. rewrite Hs', Hn', H1, H2.
  rewrite !started_app, !errorNotifications_app, !cleanupRuns_app.
  rewrite Hst, He, Hcl. auto.
Qed.

Lemma undecodable_sameButConsole (base64Audio : string) (w1 w2 : World T) :
  decodeAudio base64Audio = None ->
  sameButConsole w1 w2 ->
  sameButConsole (exec (queueAudioOutput base64Audio) w1) w2.
Proof.
  intros Hd HR. destruct (hasSink (svc w1)) eqn:Hs.
  - unfold exec. rewrite (queue_undecodable _ _ Hs Hd).
    destruct HR as (H1 & H2 & H3 & H4 & H5). unfold sameButConsole. simpl.
    rewrite started_app, errorNotifications_app, cleanupRuns_app. simpl.
    rewrite app_nil_r, !Nat.add_0_r. auto.
  - unfold exec. rewrite (queue_without_sink _ _ Hs). exact HR.
Qed.

Lemma runScheduler_skips_undecodable (ops : list (SchedulerOp T))
  (w1 w2 : World T) :
  sameButConsole w1 w2 ->
  sameButConsole (exec (runScheduler ops) w1)
                 (exec (runScheduler (withoutUndecodable ops)) w2).
Proof.
  revert w1 w2. induction ops as [|op ops IH]; intros w1 w2 HR.
  - exact HR.
  - rewrite runScheduler_cons.
    destruct op as [now|base64Audio|src]; simpl withoutUndecodable.
    + rewrite runScheduler_cons.
      apply IH, schedulerStep_sameButConsole, HR.
    + destruct (decodeAudio base64Audio) eqn:Hd.
      * rewrite runScheduler_cons.
        apply IH, schedulerStep_sameButConsole, HR.
      * apply IH. simpl. apply undecodable_sameButConsole; assumption.
    + rewrite runScheduler_cons.
      apply IH, schedulerStep_sameButConsole, HR.
Qed.

Lemma sameButConsole_refl (w : World T) : sameButConsole w w.
Proof. unfold sameButConsole. auto. Qed.

Lemma runScheduler_reports_no_error (ops : list (SchedulerOp T))
  (w : World T) :
  errorNotifications (trace (exec (runScheduler ops) w)) =
    errorNotifications (trace w)
  /\ cleanupRuns (trace (exec (runScheduler ops) w)) = cleanupRuns (trace w).
Proof.
  revert w. induction ops as [|op ops IH]; intros w.
  - auto.
  - rewrite runScheduler_cons.
    destruct (IH (exec (schedulerStep op) w)) as [He Hc]. rewrite He, Hc.
    destruct w as [s t n].
    destruct (schedulerStep_frame op s t [] n) as (_ & _ & added & H1 & H2).
    rewrite H1, errorNotifications_app, cleanupRuns_app.
    simpl in H2. rewrite <- H2. clear.
    destruct op as [now|base64Audio|src]; simpl.
    + auto.
    + destruct (hasSink s) eqn:Hs.
      * destruct (hasSink_inv _ Hs) as (ctx & gain & Hc & Hg).
        destruct (decodeAudio base64Audio) as [b|] eqn:Hd.
        -- unfold exec.
           rewrite (queue_decoded base64Audio {| svc := s; trace := [] |}
                      ctx gain b Hc Hg Hd). simpl. auto.
        -- unfold exec.
           rewrite (queue_undecodable base64Audio {| svc := s; trace := [] |}
                      Hs Hd). simpl. auto.
      * unfold exec.
        rewrite (queue_without_sink base64Audio {| svc := s; trace := [] |}
                   Hs). simpl. auto.
    + auto.
Qed.

Lemma decodedBuffers_withoutUndecodable (ops : list (SchedulerOp T)) :
  decodedBuffers (withoutUndecodable ops) = decodedBuffers ops.
Proof.
  induction ops as [|op ops IH]; simpl; [reflexivity|].
  destruct op as [now|base64Audio|src]; simpl; try exact IH.
  destruct (decodeAudio base64Audio) eqn:Hd; simpl; rewrite ?Hd, IH;
    reflexivity.
Qed.

(** Claim C9.  A payload that fails to decode is logged and skipped: the
    enqueue completes normally, the service state is untouched, and
    neither the error callback nor the cleanup routine runs.  Over a
    whole run, the service ends in the state, and the sink has been
    handed the sources, start times and buffers, that the same run
    without the undecodable payloads produces; and when no enqueue finds
    the cursor behind the clock, the payloads that do decode start back
    to back from the initial cursor. *)
Theorem decode_failure_is_contained (ops : list (SchedulerOp T))
  (w : World T) :
  let w' := exec (runScheduler ops) w in
  let v := exec (runScheduler (withoutUndecodable ops)) w in
  (forall base64Audio u,
      decodeAudio base64Audio = None ->
      completion (queueAudioOutput base64Audio) u = Normal tt
      /\ svc (exec (queueAudioOutput base64Audio) u) = svc u
      /\ fresh (exec (queueAudioOutput base64Audio) u) = fresh u
      /\ (trace (exec (queueAudioOutput base64Audio) u) =
            if hasSink (svc u)
            then (trace u ++ [ConsoleError "Error decoding audio"])%list
            else trace u))
  /\ completion (runScheduler ops) w = Normal tt
  /\ svc w' = svc v
  /\ started (trace w') = started (trace v)
  /\ errorNotifications (trace w') = errorNotifications (trace w)
  /\ cleanupRuns (trace w') = cleanupRuns (trace w)
  /\ (hasSink (svc w) = true ->
      noStarvation ops w ->
      startTimes (trace w') =
        (startTimes (trace w)
           ++ backToBack (nextStartTime (svc w))
                (decodedBuffers (withoutUndecodable ops)))%list).
Proof.
  cbv zeta. split.
  { intros base64Audio u Hd. split; [apply neverThrows_queue|].
    destruct (hasSink (svc u)) eqn:Hs; unfold exec.
    - rewrite (queue_undecodable _ _ Hs Hd). auto.
    - rewrite (queue_without_sink _ _ Hs). auto. }
  split; [apply neverThrows_runScheduler|].
  destruct (runScheduler_skips_undecodable ops w w (sameButConsole_refl w))
    as (Hsvc & _ & Hst & _ & _).
  destruct (runScheduler_reports_no_error ops w) as [He Hc].
  repeat (split; [assumption|]).
  intros Hs Hsm. rewrite decodedBuffers_withoutUndecodable.
  apply run_back_to_back; assumption.
Qed.

(** ** Interruption *)

Lemma stop_each (l : list (SourceNode T)) (w : World T) :
  forEach l (fun source => tryCatch (stopSource source) (ret tt)) w =
    (Normal tt,
     {| svc := svc w;
        trace := trace w ++ map (fun source => SourceStop (srcId source)) l;
        fresh := fresh w |}).
Proof.
  revert w. induction l as [|x l IH]; intros w; simpl.
  - rewrite app_nil_r. destruct w; reflexivity.
  - unfold bind at 1.
    assert (Hx : tryCatch (stopSource x) (ret tt) w =
                 (Normal tt,
                  {| svc := svc w;
                     trace := trace w ++ [SourceStop (srcId x)];
                     fresh := fresh w |})).
    { unfold stopSource. unfold_monad. simpl.
      destruct (stopThrows (srcId x)); reflexivity. }
    rewrite Hx, IH. simpl. rewrite <- app_assoc. reflexivity.
Qed.

Lemma stopAll_spec (w : World T) :
  stopAllScheduledAudio w =
    (Normal tt,
     {| svc :=
          match audioContext (svc w) with
          | Some ctx =>
              set_nextStartTime (currentTime ctx)
                (set_scheduledSources [] (svc w))
          | None => set_scheduledSources [] (svc w)
          end;
        trace :=
          trace w ++ map (fun source => SourceStop (srcId source))
                       (scheduledSources (svc w));
        fresh := fresh w |}).
Proof.
  unfold stopAllScheduledAudio. unfold bind at 1. unfold this at 1.
  unfold bind at 1. rewrite stop_each. unfold_monad. simpl.
  destruct (audioContext (svc w)); reflexivity.
Qed.

(** Claim C2.  Whatever the scheduled set holds, handling a message that
    carries the interruption signal calls [stop()] on every source of
    the set (and makes no other call, so no transcript is emitted),
    leaves the set empty, sets the cursor to the current time of the
    output context, and empties the output transcript accumulator. *)
Theorem interruption_flushes_playback (m : LiveServerMessage) (w : World T) :
  interruptedOf (serverContent m) = true ->
  let w' := exec (handleMessage m) w in
  completion (handleMessage m) w = Normal tt
  /\ trace w' =
     (trace w ++ map (fun source => SourceStop (srcId source))
                   (scheduledSources (svc w)))%list
  /\ scheduledSources (svc w') = []
  /\ (forall ctx, audioContext (svc w) = Some ctx ->
                  nextStartTime (svc w') = currentTime ctx)
  /\ currentOutputTranscription (svc w') = ""
  /\ transcripts (trace w') = transcripts (trace w).
Proof.
  intros Hi. cbv zeta. unfold completion, exec, handleMessage. rewrite Hi.
  unfold bind. rewrite stopAll_spec. unfold assign. simpl.
  split; [reflexivity|]. split; [reflexivity|].
  split; [destruct (audioContext (svc w)); reflexivity|].
  split; [intros ctx ->; reflexivity|].
  split; [destruct (audioContext (svc w)); reflexivity|].
  - rewrite transcripts_app.
    assert (Hn : transcripts
                   (map (fun source : SourceNode T =>
                           @SourceStop T (srcId source))
                      (scheduledSources (svc w))) = []).
    { induction (scheduledSources (svc w)); simpl; auto. }
    rewrite Hn. apply app_nil_r.
Qed.

(** ** The loop over the parts of a message *)

Lemma exec_tryCatch_ret (body : M T unit) (w : World T) :
  exec (tryCatch body (ret tt)) w = exec body w.
Proof.
  unfold exec, tryCatch, ret. destruct (body w) as [[[]|] u]; reflexivity.
Qed.

Lemma queue_keeps_transcripts (base64Audio : string) (w : World T) :
  let w' := exec (queueAudioOutput base64Audio) w in
  currentInputTranscription (svc w') = currentInputTranscription (svc w)
  /\ currentOutputTranscription (svc w') = currentOutputTranscription (svc w)
  /\ transcripts (trace w') = transcripts (trace w).
Proof.
  cbv zeta. destruct (hasSink (svc w)) eqn:Hs.
  - destruct (hasSink_inv _ Hs) as (ctx & gain & Hc & Hg).
    destruct (decodeAudio base64Audio) as [b|] eqn:Hd; unfold exec.
    + rewrite (queue_decoded _ _ _ _ _ Hc Hg Hd). simpl.
      rewrite transcripts_app. simpl. rewrite app_nil_r. auto.
    + rewrite (queue_undecodable _ _ Hs Hd). simpl.
      rewrite transcripts_app. simpl. rewrite app_nil_r. auto.
  - unfold exec. rewrite (queue_without_sink _ _ Hs). auto.
Qed.

(** The loop hands the scheduler the audio payloads it reaches, one
    after the other, and it gets to its end exactly when no inline data
    lacks a type. *)
Lemma queueParts_as_run (ps : list Part) (w : World T) :
  exec (forEach ps queuePart) w =
    exec (runScheduler (map Enqueue (audioPayloads ps))) w
  /\ completion (forEach ps queuePart) w =
     if forallb typedPart ps then Normal tt else Thrown.
Proof.
  revert w. induction ps as [|part ps IH]; intros w; [split; reflexivity|].
  cbn [forEach audioPayloads forallb]. unfold typedPart at 1.
  unfold queuePart at 1 3.
  destruct (inlineData part) as [blob|].
  - destruct (mimeType blob) as [type|]; [|split; reflexivity].
    destruct (startsWith "audio/pcm" type).
    + cbn [map]. rewrite runScheduler_cons. cbn [schedulerStep isNone negb andb].
      rewrite exec_seq, completion_seq by apply neverThrows_queue.
      apply IH.
    + cbn [isNone negb andb]. unfold exec, completion, bind, ret.
      apply IH.
  - cbn [andb]. unfold exec, completion, bind, ret. apply IH.
Qed.

Lemma queueParts_typed (ps : list Part) (w : World T) :
  forallb typedPart ps = true ->
  forEach ps queuePart w = (Normal tt, exec (forEach ps queuePart) w).
Proof.
  intros Ht. apply completion_exec.
  rewrite (proj2 (queueParts_as_run ps w)), Ht. reflexivity.
Qed.

Lemma queueParts_untyped (ps : list Part) (w : World T) :
  forallb typedPart ps = false ->
  forEach ps queuePart w = (Thrown, exec (forEach ps queuePart) w).
Proof.
  intros Ht. pose proof (proj2 (queueParts_as_run ps w)) as Hc.
  rewrite Ht in Hc. unfold completion, exec in *.
  destruct (forEach ps queuePart w) as [c u]. simpl in *. subst c.
  reflexivity.
Qed.

Lemma enqueues_keep_transcripts (l : list string) (w : World T) :
  let w' := exec (runScheduler (map Enqueue l)) w in
  currentInputTranscription (svc w') = currentInputTranscription (svc w)
  /\ currentOutputTranscription (svc w') = currentOutputTranscription (svc w)
  /\ transcripts (trace w') = transcripts (trace w).
Proof.
  cbv zeta. revert w. induction l as [|b l IH]; intros w; [simpl; auto|].
  cbn [map]. rewrite runScheduler_cons. cbn [schedulerStep].
  destruct (IH (exec (queueAudioOutput b) w)) as (H1 & H2 & H3).
  destruct (queue_keeps_transcripts b w) as (H4 & H5 & H6).
  cbv zeta in *. rewrite H1, H2, H3. auto.
Qed.

Lemma queueParts_keep_transcripts (ps : list Part) (w : World T) :
  let w' := exec (forEach ps queuePart) w in
  currentInputTranscription (svc w') = currentInputTranscription (svc w)
  /\ currentOutputTranscription (svc w') = currentOutputTranscription (svc w)
  /\ transcripts (trace w') = transcripts (trace w).
Proof.
  cbv zeta. rewrite (proj1 (queueParts_as_run ps w)).
  apply enqueues_keep_transcripts.
Qed.

(** A message without interruption: the loop, and then the
    transcriptions and the turn boundary if the loop got to its end. *)
Lemma handleMessage_cases (m : LiveServerMessage) (w : World T) :
  interruptedOf (serverContent m) = false ->
  handleMessage m w =
    if wellTyped m
    then handleText (serverContent m)
           (exec (forEach (partsOf (serverContent m)) queuePart) w)
    else (Thrown, exec (forEach (partsOf (serverContent m)) queuePart) w).
Proof.
  intros Hi. unfold handleMessage, wellTyped. rewrite Hi.
  destruct (forallb typedPart (partsOf (serverContent m))) eqn:Ht.
  - unfold bind at 1. rewrite (queueParts_typed _ _ Ht). reflexivity.
  - unfold bind at 1. rewrite (queueParts_untyped _ _ Ht). reflexivity.
Qed.

Lemma exec_handleMessage (m : LiveServerMessage) (w : World T) :
  interruptedOf (serverContent m) = false ->
  exec (handleMessage m) w =
    if wellTyped m
    then exec (handleText (serverContent m))
           (exec (forEach (partsOf (serverContent m)) queuePart) w)
    else exec (forEach (partsOf (serverContent m)) queuePart) w.
Proof.
  intros Hi. unfold exec at 1. rewrite (handleMessage_cases m w Hi).
  destruct (wellTyped m); reflexivity.
Qed.

(** A message with nothing but audio parts enqueues them in order. *)
Lemma audio_parts_are_enqueued (m : LiveServerMessage) (w : World T) :
  interruptedOf (serverContent m) = false ->
  inputFragmentOf (serverContent m) = None ->
  outputFragmentOf (serverContent m) = None ->
  turnCompleteOf (serverContent m) = false ->
  exec (handleMessage m) w = exec (forEach (partsOf (serverContent m)) queuePart) w.
Proof.
  intros Hi Hin Hout Ht. unfold exec at 1. rewrite (handleMessage_cases m w Hi).
  destruct (wellTyped m); [|reflexivity].
  unfold handleText. rewrite Hin, Hout, Ht. reflexivity.
Qed.

(** What the end of the handler (l.183-202) does, from whatever world it
    is reached in. *)
Lemma handleText_spec (sc : option ServerContent) (u : World T) :
  let u' := exec (handleText sc) u in
  let inputText :=
    accumulate (currentInputTranscription (svc u)) (inputFragmentOf sc) in
  let outputText :=
    accumulate (currentOutputTranscription (svc u)) (outputFragmentOf sc) in
  completion (handleText sc) u = Normal tt
  /\ (if turnCompleteOf sc then
        transcripts (trace u') =
          (transcripts (trace u) ++ flushed inputText user
             ++ flushed outputText model)%list
        /\ currentInputTranscription (svc u') = afterFlush inputText
        /\ currentOutputTranscription (svc u') = afterFlush outputText
      else
        transcripts (trace u') = transcripts (trace u)
        /\ currentInputTranscription (svc u') = inputText
        /\ currentOutputTranscription (svc u') = outputText).
Proof.
  cbv zeta.
  unfold handleText, flushed, afterFlush, accumulate, appendInput,
    appendOutput, dispatchTurns.
  destruct (inputFragmentOf sc) as [i|], (outputFragmentOf sc) as [o|],
           (turnCompleteOf sc);
    unfold_monad; simpl;
    repeat match goal with
      | |- context [if truthy (trim ?x) then _ else _] =>
          destruct (truthy (trim x)); simpl
      end;
    rewrite ?transcripts_app; simpl;
    rewrite ?app_nil_r, <- ?app_assoc; auto.
Qed.

Lemma handleText_keeps_playback (sc : option ServerContent) (u : World T) :
  let u' := exec (handleText sc) u in
  started (trace u') = started (trace u)
  /\ nextStartTime (svc u') = nextStartTime (svc u)
  /\ scheduledSources (svc u') = scheduledSources (svc u)
  /\ fresh u' = fresh u.
Proof.
  cbv zeta. unfold handleText, appendInput, appendOutput, dispatchTurns.
  destruct (inputFragmentOf sc), (outputFragmentOf sc), (turnCompleteOf sc);
    unfold_monad; simpl;
    repeat match goal with
      | |- context [if truthy (trim ?x) then _ else _] =>
          destruct (truthy (trim x)); simpl
      end;
    rewrite ?started_app; simpl; rewrite ?app_nil_r; auto.
Qed.

(** The text side of a message that is handled to its end. *)
Lemma text_after_message (m : LiveServerMessage) (w : World T) :
  interruptedOf (serverContent m) = false ->
  wellTyped m = true ->
  let w' := exec (handleMessage m) w in
  let inputText :=
    accumulate (currentInputTranscription (svc w))
      (inputFragmentOf (serverContent m)) in
  let outputText :=
    accumulate (currentOutputTranscription (svc w))
      (outputFragmentOf (serverContent m)) in
  completion (handleMessage m) w = Normal tt
  /\ if turnCompleteOf (serverContent m) then
       transcripts (trace w') =
         (transcripts (trace w) ++ flushed inputText user
            ++ flushed outputText model)%list
       /\ currentInputTranscription (svc w') = afterFlush inputText
       /\ currentOutputTranscription (svc w') = afterFlush outputText
     else
       transcripts (trace w') = transcripts (trace w)
       /\ currentInputTranscription (svc w') = inputText
       /\ currentOutputTranscription (svc w') = outputText.
Proof.
  intros Hi Ht. cbv zeta. unfold completion, exec.
  rewrite (handleMessage_cases m w Hi), Ht.
  destruct (queueParts_keep_transcripts (partsOf (serverContent m)) w)
    as (H1 & H2 & H3). cbv zeta in H1, H2, H3.
  rewrite <- H1, <- H2, <- H3.
  apply handleText_spec.
Qed.

(** A message that is not handled to its end leaves the text as it
    was. *)
Lemma text_after_throw (m : LiveServerMessage) (w : World T) :
  interruptedOf (serverContent m) = false ->
  wellTyped m = false ->
  let w' := exec (handleMessage m) w in
  completion (handleMessage m) w = Thrown
  /\ transcripts (trace w') = transcripts (trace w)
  /\ currentInputTranscription (svc w') = currentInputTranscription (svc w)
  /\ currentOutputTranscription (svc w') = currentOutputTranscription (svc w).
Proof.
  intros Hi Ht. cbv zeta. unfold completion, exec.
  rewrite (handleMessage_cases m w Hi), Ht. simpl.
  destruct (queueParts_keep_transcripts (partsOf (serverContent m)) w)
    as (H1 & H2 & H3). auto.
Qed.

(** Claim C3, as the code has it.  Handling a message that carries the
    turn-complete signal and no interruption emits, for each role whose
    accumulated text (with the fragment of this message appended) is not
    blank, exactly one transcript callback with that role and the whole
    accumulated text, user first, and then empties that role's
    accumulator.  A role whose accumulated text is empty or white space
    only emits nothing and keeps its accumulator as it is.  The handler
    gets as far as the signal when the inline data of the message all
    carry a type; when one does not, the handler throws at that part,
    before the signal: nothing is emitted and both accumulators stay as
    they were. *)
Theorem turn_complete_flushes_nonblank_roles
  (m : LiveServerMessage) (w : World T) :
  interruptedOf (serverContent m) = false ->
  turnCompleteOf (serverContent m) = true ->
  let w' := exec (handleMessage m) w in
  let inputText :=
    accumulate (currentInputTranscription (svc w))
      (inputFragmentOf (serverContent m)) in
  let outputText :=
    accumulate (currentOutputTranscription (svc w))
      (outputFragmentOf (serverContent m)) in
  if wellTyped m then
    transcripts (trace w') =
      (transcripts (trace w) ++ flushed inputText user
         ++ flushed outputText model)%list
    /\ currentInputTranscription (svc w') = afterFlush inputText
    /\ currentOutputTranscription (svc w') = afterFlush outputText
  else
    completion (handleMessage m) w = Thrown
    /\ transcripts (trace w') = transcripts (trace w)
    /\ currentInputTranscription (svc w') = currentInputTranscription (svc w)
    /\ currentOutputTranscription (svc w') =
       currentOutputTranscription (svc w).
Proof.
  intros Hi Ht. cbv zeta. destruct (wellTyped m) eqn:Hty.
  - pose proof (text_after_message m w Hi Hty) as H. cbv zeta in H.
    rewrite Ht in H. exact (proj2 H).
  - exact (text_after_throw m w Hi Hty).
Qed.

(** ** [handleMessage], stretch by stretch *)

Lemma queueAudioOutput_split (base64Audio : string) (w : World T) :
  queueAudioOutput base64Audio w =
    if hasSink (svc w) then queueAudioOutputAfterAwait base64Audio w
    else (Normal tt, w).
Proof.
  destruct (hasSink (svc w)) eqn:Hs; [|apply queue_without_sink, Hs].
  destruct (hasSink_inv _ Hs) as (ctx & gain & Hc & Hg).
  unfold queueAudioOutput, queueAudioOutputAfterAwait, decode,
    readCurrentTime, readOutputGain.
  unfold_monad. rewrite Hc, Hg.
  destruct (decodeAudio base64Audio) as [b|]; [|reflexivity].
  cbn. rewrite Hc.
  destruct (tltb _ _); cbn; rewrite Hg; reflexivity.
Qed.

Lemma bind_assoc {A B C : Type} (m : M T A) (k : A -> M T B)
  (h : B -> M T C) (w : World T) :
  (y <- (x <- m ;; k x) ;; h y) w = (x <- m ;; y <- k x ;; h y) w.
Proof. unfold bind. destruct (m w) as [[a|] u]; reflexivity. Qed.

Lemma bind_ext {A B : Type} (m : M T A) (k k' : A -> M T B) (w : World T) :
  (forall a u, k a u = k' a u) -> (x <- m ;; k x) w = (x <- m ;; k' x) w.
Proof.
  intros H. unfold bind. destruct (m w) as [[a|] u]; [apply H | reflexivity].
Qed.

Lemma bind_head {A B : Type} (m m' : M T A) (k : A -> M T B) (w : World T) :
  m w = m' w -> (x <- m ;; k x) w = (x <- m' ;; k x) w.
Proof. intros H. unfold bind. rewrite H. reflexivity. Qed.

(** The stretches, run one after the other with nothing in between, are
    the handler with its [await]s answered at once. *)
Lemma handleParts_runToEnd (ps : list Part) (sc : option ServerContent)
  (w : World T) :
  (p <- handleParts ps sc ;; runToEnd p) w =
  (forEach ps queuePart ;; handleText sc) w.
Proof.
  revert w. induction ps as [|part ps IH]; intros w.
  - cbn [handleParts forEach]. unfold bind, ret, runToEnd.
    destruct (handleText sc w) as [[[]|] u]; reflexivity.
  - cbn [handleParts forEach]. unfold queuePart at 1.
    destruct (inlineData part) as [blob|].
    + destruct (mimeType blob) as [type|]; [|reflexivity].
      destruct (startsWith "audio/pcm" type).
      * rewrite bind_assoc. unfold bind at 1 2. unfold this at 1.
        unfold ret at 1. cbn [runToEnd decoding laterParts content].
        rewrite (bind_assoc (queueAudioOutput (data blob))).
        apply bind_head. rewrite queueAudioOutput_split.
        destruct (hasSink (svc w)); reflexivity.
      * rewrite bind_assoc. unfold bind at 2. unfold ret at 1.
        unfold bind at 2. apply IH.
    + rewrite bind_assoc. unfold bind at 2. unfold ret at 1.
      unfold bind at 2. apply IH.
Qed.

Lemma handleMessage_in_pieces (m : LiveServerMessage) (w : World T) :
  handleMessage m w = (p <- handleMessageUntilAwait m ;; runToEnd p) w.
Proof.
  unfold handleMessage, handleMessageUntilAwait.
  destruct (interruptedOf (serverContent m)).
  - unfold bind, ret, runToEnd.
    destruct (stopAllScheduledAudio w) as [[[]|] u]; [|reflexivity].
    destruct (assign _ u) as [[[]|] v]; reflexivity.
  - symmetry. apply handleParts_runToEnd.
Qed.

Lemma resumeMessage_runToEnd (k : Waiting) (w : World T) :
  (p <- resumeMessage k ;; runToEnd p) w = runToEnd (Awaits k) w.
Proof.
  unfold resumeMessage. rewrite bind_assoc. cbn [runToEnd].
  apply bind_ext. intros [] u. apply handleParts_runToEnd.
Qed.

(** The first stretch of a message with an audio part that the loop
    reaches ends at that part, and nothing has been done by then. *)
Lemma handleParts_first_audio (ps : list Part) (sc : option ServerContent)
  (b : string) (l : list string) :
  audioPayloads ps = b :: l ->
  exists rest,
    audioPayloads rest = l
    /\ forall w : World T,
         handleParts ps sc w =
           (Normal (Awaits {| decoding :=
                                if hasSink (svc w) then Some b else None;
                              laterParts := rest;
                              content := sc |}), w).
Proof.
  induction ps as [|part ps IH]; [discriminate|].
  cbn [audioPayloads handleParts].
  destruct (inlineData part) as [blob|]; [|exact IH].
  destruct (mimeType blob) as [type|]; [|discriminate].
  destruct (startsWith "audio/pcm" type); [|exact IH].
  intros H. injection H as <- <-. exists ps. split; reflexivity.
Qed.

(** A message without an audio part is handled in one stretch. *)
Lemma handleParts_no_audio (ps : list Part) (sc : option ServerContent)
  (w : World T) :
  audioPayloads ps = [] ->
  forallb typedPart ps = true ->
  handleParts ps sc w = (handleText sc ;; ret Finished) w
  /\ forEach ps queuePart w = (Normal tt, w).
Proof.
  induction ps as [|part ps IH]; [split; reflexivity|].
  cbn [audioPayloads handleParts forallb forEach].
  unfold typedPart at 1. unfold queuePart at 1.
  destruct (inlineData part) as [blob|]; [|exact IH].
  destruct (mimeType blob) as [type|]; [|discriminate].
  destruct (startsWith "audio/pcm" type); [discriminate|exact IH].
Qed.

(** ** The cursor while the session is active *)

Lemma tail_keeps_cursor (i o : option string) (t : bool) (u : World T) :
  let rest := appendInput i ;; appendOutput o ;; when_ t dispatchTurns in
  completion rest u = Normal tt
  /\ nextStartTime (svc (exec rest u)) = nextStartTime (svc u).
Proof.
  cbv zeta. unfold appendInput, appendOutput, dispatchTurns.
  destruct i, o, t; unfold_monad; simpl;
    repeat match goal with
      | |- context [if truthy (trim ?x) then _ else _] =>
          destruct (truthy (trim x)); simpl
      end; auto.
Qed.

(** A message leaves the playback state as the loop over its parts has
    left it, whether the handler gets to its end or throws. *)
Lemma message_playback (m : LiveServerMessage) (w : World T) :
  interruptedOf (serverContent m) = false ->
  let w' := exec (handleMessage m) w in
  let v :=
    exec (runScheduler
            (map Enqueue (audioPayloads (partsOf (serverContent m))))) w in
  started (trace w') = started (trace v)
  /\ nextStartTime (svc w') = nextStartTime (svc v)
  /\ scheduledSources (svc w') = scheduledSources (svc v)
  /\ fresh w' = fresh v.
Proof.
  intros Hi. cbv zeta. unfold exec at 1 3 5 7.
  rewrite (handleMessage_cases m w Hi).
  rewrite <- (proj1 (queueParts_as_run (partsOf (serverContent m)) w)).
  destruct (wellTyped m); [|simpl; auto].
  apply handleText_keeps_playback.
Qed.

Lemma neverThrows_message (m : LiveServerMessage) :
  neverThrows (tryCatch (handleMessage m) (ret tt)).
Proof. apply neverThrows_tryCatch, neverThrows_ret. Qed.

Section Monotone.

Context {TO : TimelineOrder T}.

Hypothesis durations_nonneg :
  forall base64Audio b,
    decodeAudio base64Audio = Some b -> tle tzero (duration b).

Lemma snapped_forward (s : Service T) (ctx : AudioContext T) :
  tle (nextStartTime s) (snapped s ctx).
Proof.
  unfold snapped. destruct (tltb _ _) eqn:Hlt.
  - apply tltb_tle, Hlt.
  - apply tle_refl.
Qed.

Lemma queue_monotone (base64Audio : string) (w : World T) :
  tle (nextStartTime (svc w))
      (nextStartTime (svc (exec (queueAudioOutput base64Audio) w))).
Proof.
  destruct (hasSink (svc w)) eqn:Hs.
  - destruct (hasSink_inv _ Hs) as (ctx & gain & Hc & Hg).
    destruct (decodeAudio base64Audio) as [b|] eqn:Hd; unfold exec.
    + rewrite (queue_decoded _ _ _ _ _ Hc Hg Hd). simpl.
      eapply tle_trans; [apply (snapped_forward _ ctx)|].
      apply tadd_nonneg, (durations_nonneg _ _ Hd).
    + rewrite (queue_undecodable _ _ Hs Hd). apply tle_refl.
  - unfold exec. rewrite (queue_without_sink _ _ Hs). apply tle_refl.
Qed.

Lemma enqueues_monotone (l : list string) (w : World T) :
  tle (nextStartTime (svc w))
      (nextStartTime (svc (exec (runScheduler (map Enqueue l)) w))).
Proof.
  revert w. induction l as [|b l IH]; intros w.
  - apply tle_refl.
  - cbn [map]. rewrite runScheduler_cons. cbn [schedulerStep].
    eapply tle_trans; [apply queue_monotone | apply IH].
Qed.

(** Claim C7, as the code has it.  With buffer durations that are not
    negative, no operation of an active session other than an
    interruption moves the cursor backward: an enqueue leaves it in
    place or snaps it forward to the sink's clock and then advances it
    by the duration of the buffer, and opening the session, clock
    advances, finished sources, capture frames and the other events of a
    message do not lower it.  An interruption sets the cursor to the
    sink's current time, whatever the cursor was. *)
Theorem cursor_monotone_except_interruption (op : ActiveOp T) (w : World T) :
  (isInterruption op = false ->
   tle (nextStartTime (svc w)) (nextStartTime (svc (exec (activeStep op) w))))
  /\ (forall base64Audio ctx gain b,
        audioContext (svc w) = Some ctx ->
        outputGain (svc w) = Some gain ->
        decodeAudio base64Audio = Some b ->
        tle (nextStartTime (svc w)) (snapped (svc w) ctx)
        /\ nextStartTime (svc (exec (queueAudioOutput base64Audio) w)) =
           tadd (snapped (svc w) ctx) (duration b))
  /\ (isInterruption op = true ->
      forall ctx, audioContext (svc w) = Some ctx ->
                  nextStartTime (svc (exec (activeStep op) w)) =
                  currentTime ctx).
Proof.
  split; [|split].
  - intros Hni. destruct op as [|m|now|src|inputData|base64Data session];
      simpl in *.
    + unfold onopen, startAudioInput, resumeFailed. unfold_monad. simpl.
      destruct (inputAudioContext (svc w)) as [ic|], (stream (svc w)),
               (sessionPromise (svc w)); simpl; try apply tle_refl.
      destruct (isSuspended (ctxState ic)); simpl; try apply tle_refl.
      destruct (resumeRejects (ctxId ic)); simpl; apply tle_refl.
    + rewrite exec_tryCatch_ret.
      destruct (message_playback m w Hni) as (_ & Hc & _).
      cbv zeta in Hc. rewrite Hc. apply enqueues_monotone.
    + unfold advanceClock. unfold_monad. simpl.
      destruct (audioContext (svc w)); apply tle_refl.
    + apply tle_refl.
    + unfold onaudioprocess. unfold_monad. simpl.
      destruct (negb (isConnected (svc w)) || isNone (sessionPromise (svc w)));
        apply tle_refl.
    + unfold sendChunk. unfold_monad. simpl.
      destruct (isConnected (svc w)); simpl; [|apply tle_refl].
      destruct (sendThrows (sessionId session)); apply tle_refl.
  - intros base64Audio ctx gain b Hc Hg Hd.
    split; [apply snapped_forward|].
    unfold exec. rewrite (queue_decoded _ _ _ _ _ Hc Hg Hd). reflexivity.
  - intros Hi ctx Hc. destruct op; simpl in Hi; try discriminate.
    simpl. rewrite exec_tryCatch_ret. unfold handleMessage. rewrite Hi.
    unfold exec, bind. rewrite stopAll_spec. unfold assign. simpl.
    rewrite Hc. reflexivity.
Qed.

End Monotone.

(** ** Teardown *)

Lemma forEach_calls {A : Type} (g : A -> Effect T) (f : A -> M T unit)
  (l : list A) (w : World T) :
  (forall x u,
      f x u = (Normal tt,
               {| svc := svc u; trace := trace u ++ [g x];
                  fresh := fresh u |})) ->
  forEach l f w =
    (Normal tt,
     {| svc := svc w; trace := trace w ++ map g l; fresh := fresh w |}).
Proof.
  intros Hf. revert w. induction l as [|x l IH]; intros w; simpl.
  - rewrite app_nil_r. destruct w; reflexivity.
  - unfold bind. rewrite Hf, IH. simpl. rewrite <- app_assoc. reflexivity.
Qed.

Ltac close_cases :=
  repeat match goal with
    | |- context [closeRejects ?x] => destruct (closeRejects x); simpl
    end;
  rewrite <- ?app_assoc; simpl; rewrite ?app_nil_r; reflexivity.

Lemma cleanup_spec (w : World T) :
  cleanup w =
    (Normal tt,
     {| svc := released (svc w);
        trace := trace w ++ cleanupCalls (svc w);
        fresh := fresh w |}).
Proof.
  unfold cleanup, closeContext, cleanupCalls, closeCalls, released.
  destruct w as [s t n].
  destruct s as [sp ac iac isrc pr st nst ss og oa cit cot ic].
  unfold_monad. simpl.
  destruct st as [st|]; simpl.
  - rewrite (forEach_calls (@TrackStop T)) by reflexivity. simpl.
    destruct pr, isrc, iac as [[i1 [] c1]|], ac as [[i2 [] c2]|]; simpl;
      close_cases.
  - destruct pr, isrc, iac as [[i1 [] c1]|], ac as [[i2 [] c2]|]; simpl;
      close_cases.
Qed.

Lemma cleanupCalls_released (s : Service T) :
  cleanupCalls (released s) = [CleanupEntered].
Proof. reflexivity. Qed.

Lemma errorNotifications_cleanupCalls (s : Service T) :
  errorNotifications (cleanupCalls s) = 0.
Proof.
  unfold cleanupCalls, closeCalls. simpl.
  rewrite !errorNotifications_app.
  destruct (stream s) as [st|], (processor s), (inputSource s),
    (inputAudioContext s) as [[i1 [] c1]|], (audioContext s) as [[i2 [] c2]|];
    simpl; try reflexivity;
    induction (tracks st); simpl; auto.
Qed.

Lemma cleanupRuns_cleanupCalls (s : Service T) :
  cleanupRuns (cleanupCalls s) = 1.
Proof.
  unfold cleanupCalls, closeCalls. simpl.
  rewrite !cleanupRuns_app.
  destruct (stream s) as [st|], (processor s), (inputSource s),
    (inputAudioContext s) as [[i1 [] c1]|], (audioContext s) as [[i2 [] c2]|];
    simpl; try reflexivity;
    induction (tracks st); simpl; auto.
Qed.

Lemma sent_app (t1 t2 : list (Effect T)) :
  sent (t1 ++ t2) = (sent t1 ++ sent t2)%list.
Proof.
  induction t1 as [|e t1 IH]; simpl; [reflexivity|].
  destruct e; simpl; rewrite ?IH; reflexivity.
Qed.

Lemma quiet_cleanupCalls (s : Service T) :
  transcripts (cleanupCalls s) = [] /\ sent (cleanupCalls s) = [].
Proof.
  unfold cleanupCalls, closeCalls. simpl.
  rewrite !transcripts_app, !sent_app.
  assert (Ht : forall l : list nat, transcripts (map (@TrackStop T) l) = [])
    by (induction l; simpl; auto).
  assert (Hs : forall l : list nat, sent (map (@TrackStop T) l) = [])
    by (induction l; simpl; auto).
  destruct (stream s) as [st|], (processor s), (inputSource s),
    (inputAudioContext s) as [[i1 [] c1]|], (audioContext s) as [[i2 [] c2]|];
    simpl; rewrite ?Ht, ?Hs; auto.
Qed.

(** The state [cleanupUntilAwait] leaves: the stream and the capture
    nodes are gone, the contexts and the rest are still there. *)
Lemma cleanupUntilAwait_calls (w : World T) :
  exists added,
    cleanupUntilAwait w =
      (Normal tt,
       {| svc := set_inputSource None
                   (set_processor None
                      (set_stream None (set_isConnected false (svc w))));
          trace := (trace w ++ [CleanupEntered]) ++ added;
          fresh := fresh w |})
    /\ errorNotifications added = 0 /\ cleanupRuns added = 0
    /\ transcripts added = [] /\ sent added = []
    /\ closeNotifications added = 0.
Proof.
  unfold cleanupUntilAwait.
  destruct w as [s t n].
  destruct s as [sp ac iac isrc pr st nst ss og oa cit cot ic].
  unfold_monad. simpl.
  assert (He : forall l : list nat,
             errorNotifications (map (@TrackStop T) l) = 0)
    by (induction l; simpl; auto).
  assert (Hc : forall l : list nat, cleanupRuns (map (@TrackStop T) l) = 0)
    by (induction l; simpl; auto).
  assert (Ht : forall l : list nat, transcripts (map (@TrackStop T) l) = [])
    by (induction l; simpl; auto).
  assert (Hs : forall l : list nat, sent (map (@TrackStop T) l) = [])
    by (induction l; simpl; auto).
  assert (Hn : forall l : list nat,
             closeNotifications (map (@TrackStop T) l) = 0)
    by (induction l; simpl; auto).
  assert (Happ : forall t1 t2 : list (Effect T),
             closeNotifications (t1 ++ t2) =
             closeNotifications t1 + closeNotifications t2).
  { intros t1 t2. induction t1 as [|e t1 IH]; simpl; [reflexivity|].
    destruct e; simpl; rewrite ?IH; reflexivity. }
  destruct st as [st|]; simpl.
  - rewrite (forEach_calls (@TrackStop T)) by reflexivity. simpl.
    exists (map (@TrackStop T) (tracks st)
            ++ match pr with
               | Some p => [ProcessorDisconnect p; ProcessorUnhook p]
               | None => []
               end
            ++ match isrc with
               | Some n => [InputSourceDisconnect n]
               | None => []
               end
            ++ closeCalls iac)%list.
    rewrite !errorNotifications_app, !cleanupRuns_app, !transcripts_app,
      !sent_app, !Happ, He, Hc, Ht, Hs, Hn.
    destruct pr, isrc, iac as [[i1 [] c1]|]; simpl;
      rewrite <- ?app_assoc; simpl; rewrite ?app_nil_r; auto 10.
  - exists (match pr with
            | Some p => [ProcessorDisconnect p; ProcessorUnhook p]
            | None => []
            end
            ++ match isrc with
               | Some n => [InputSourceDisconnect n]
               | None => []
               end
            ++ closeCalls iac)%list.
    destruct pr, isrc, iac as [[i1 [] c1]|]; simpl;
      rewrite <- ?app_assoc; simpl; rewrite ?app_nil_r; auto 10.
Qed.

Lemma cleanupUntilAwait_spec (w : World T) :
  exists added,
    cleanupUntilAwait w =
      (Normal tt,
       {| svc := set_inputSource None
                   (set_processor None
                      (set_stream None (set_isConnected false (svc w))));
          trace := (trace w ++ [CleanupEntered]) ++ added;
          fresh := fresh w |})
    /\ errorNotifications added = 0 /\ cleanupRuns added = 0.
Proof.
  destruct (cleanupUntilAwait_calls w) as (added & H & He & Hc & _).
  exists added. auto.
Qed.

(** The two segments, run without anything in between, are [cleanup]. *)
Lemma cleanup_split (w : World T) :
  inputContextOpen (svc w) = true ->
  cleanup w = (cleanupUntilAwait ;; cleanupAfterAwait) w.
Proof.
  unfold inputContextOpen. intros Hopen.
  rewrite cleanup_spec.
  unfold cleanupUntilAwait, cleanupAfterAwait, closeContext, cleanupCalls,
    closeCalls, released.
  destruct w as [s t n].
  destruct s as [sp ac iac isrc pr st nst ss og oa cit cot ic].
  simpl in Hopen. destruct iac as [[i1 [] c1]|]; try discriminate Hopen;
    unfold_monad; simpl.
  all: destruct st as [st|]; simpl;
    rewrite ?(forEach_calls (@TrackStop T)) by reflexivity; simpl;
    destruct pr, isrc, ac as [[i2 [] c2]|]; simpl; close_cases.
Qed.

(** [cleanup] up to its first [await], whichever it is: the
    accumulators are untouched, and what is left to release is released
    by a [cleanup] that starts from there. *)
Lemma cleanupUntilFirstAwait_spec (w : World T) :
  exists added s1,
    cleanupUntilFirstAwait w =
      (Normal tt,
       {| svc := s1; trace := (trace w ++ [CleanupEntered]) ++ added;
          fresh := fresh w |})
    /\ released s1 = released (svc w)
    /\ stream s1 = None /\ processor s1 = None /\ inputSource s1 = None
    /\ isConnected s1 = false
    /\ errorNotifications added = 0 /\ cleanupRuns added = 0
    /\ transcripts added = [] /\ sent added = []
    /\ closeNotifications added = 0.
Proof.
  unfold cleanupUntilFirstAwait. unfold bind at 1. unfold this at 1.
  unfold bind at 1.
  destruct (cleanupUntilAwait_calls w)
    as (added & Hrun & He & Hc & Ht & Hs & Hn).
  rewrite Hrun. unfold inputContextOpen, outputContextOpen.
  assert (Happ : forall t1 t2 : list (Effect T),
             closeNotifications (t1 ++ t2) =
             closeNotifications t1 + closeNotifications t2).
  { intros t1 t2. induction t1 as [|e t1 IH]; simpl; [reflexivity|].
    destruct e; simpl; rewrite ?IH; reflexivity. }
  destruct (inputAudioContext (svc w)) as [[i1 [] c1]|] eqn:Hin; simpl;
    try (exists added; eexists; split; [reflexivity|];
         repeat split; assumption).
  all: unfold cleanupOutput, cleanupEnd; unfold_monad; simpl;
    destruct (audioContext (svc w)) as [[i2 [] c2]|] eqn:Hout; simpl;
    first
      [ exists added; eexists; split; [reflexivity|];
        unfold released; simpl; repeat split; assumption
      | exists (added ++ [ContextClose i2])%list; eexists;
        split; [rewrite <- !app_assoc; reflexivity|];
        rewrite errorNotifications_app, cleanupRuns_app, transcripts_app,
          sent_app, Happ, He, Hc, Ht, Hs, Hn;
        unfold released; simpl; repeat split; reflexivity ].
Qed.

(** A [cleanup] whose stream and capture nodes are already gone only
    closes the contexts that are left. *)
Lemma cleanupCalls_after_release (s : Service T) :
  stream s = None -> processor s = None -> inputSource s = None ->
  cleanupCalls s =
    ([CleanupEntered] ++ closeCalls (inputAudioContext s)
       ++ closeCalls (audioContext s))%list.
Proof. intros H1 H2 H3. unfold cleanupCalls. rewrite H1, H2, H3. reflexivity. Qed.

Lemma closeNotifications_app (t1 t2 : list (Effect T)) :
  closeNotifications (t1 ++ t2) =
  closeNotifications t1 + closeNotifications t2.
Proof.
  induction t1 as [|e t1 IH]; simpl; [reflexivity|].
  destruct e; simpl; rewrite ?IH; reflexivity.
Qed.

Lemma closeNotifications_cleanupCalls (s : Service T) :
  closeNotifications (cleanupCalls s) = 0.
Proof.
  unfold cleanupCalls, closeCalls. simpl. rewrite !closeNotifications_app.
  assert (Ht : forall l : list nat,
             closeNotifications (map (@TrackStop T) l) = 0)
    by (induction l; simpl; auto).
  destruct (stream s) as [st|], (processor s), (inputSource s),
    (inputAudioContext s) as [[i1 [] c1]|], (audioContext s) as [[i2 [] c2]|];
    simpl; rewrite ?Ht; auto.
Qed.

(** [disconnect] when no rejection is reported on the way: the session
    promise is not set, or it is fulfilled, or it rejects when the input
    context is gone already. *)
Lemma disconnect_spec (settle : Settlement) (w : World T) :
  rejectionReported settle (svc w) = false ->
  disconnect settle w =
    (Normal tt,
     {| svc := released (svc w);
        trace := (trace w ++ sessionCalls settle (svc w))
                   ++ cleanupCalls (svc w);
        fresh := fresh w |}).
Proof.
  unfold rejectionReported, disconnect, sessionCalls, await, closeSession,
    connectRejectedUntilAwait.
  unfold bind at 1. unfold assign at 1. unfold bind at 1. unfold this at 1.
  simpl. unfold bind at 1.
  destruct (sessionPromise (svc w)).
  - destruct settle as [session|].
    + intros _. destruct (hasClose session) eqn:Hcl.
      * destruct (sessionCloseThrows (sessionId session)) eqn:Hth;
          unfold_monad; simpl; rewrite Hcl; simpl; rewrite Hth;
          rewrite cleanup_spec; simpl; rewrite <- ?app_assoc; reflexivity.
      * unfold_monad; simpl; rewrite Hcl; simpl.
        rewrite cleanup_spec. simpl. rewrite app_nil_r. reflexivity.
    + destruct (inputAudioContext (svc w)) eqn:Hin; [discriminate|].
      intros _. unfold_monad. simpl. rewrite Hin. simpl.
      rewrite cleanup_spec. reflexivity.
  - intros _. unfold_monad. simpl. rewrite cleanup_spec. simpl.
    rewrite app_nil_r. reflexivity.
Qed.

(** [disconnect] when the promise it awaits rejects and the input
    context is still set: the handler of l.110-116 reports the failure
    and starts a [cleanup] before [disconnect] gets to its own. *)
Lemma disconnect_reported (w : World T) :
  rejectionReported Rejects (svc w) = true ->
  exists first second,
    disconnect Rejects w =
      (Normal tt,
       {| svc := released (svc w);
          trace := (trace w
                      ++ [ConsoleError "Connection failed"; OnError;
                          CleanupEntered])
                     ++ first
                     ++ [ConsoleLog "Error closing session"; CleanupEntered]
                     ++ second;
          fresh := fresh w |})
    /\ errorNotifications (first ++ second) = 0
    /\ cleanupRuns (first ++ second) = 0
    /\ transcripts (first ++ second) = []
    /\ sent (first ++ second) = []
    /\ closeNotifications (first ++ second) = 0.
Proof.
  unfold rejectionReported. intros Hrep.
  destruct (sessionPromise (svc w)) as [p|] eqn:Hp; [|discriminate].
  destruct (inputAudioContext (svc w)) as [ctx|] eqn:Hin; [|discriminate].
  unfold disconnect, await, connectRejectedUntilAwait.
  unfold bind at 1. unfold assign at 1. unfold bind at 1. unfold this at 1.
  cbn [svc]. unfold bind at 1.
  change (sessionPromise (set_isConnected false (svc w)))
    with (sessionPromise (svc w)). rewrite Hp.
  unfold tryCatch. unfold bind at 1. unfold bind at 1. unfold bind at 1.
  unfold this at 1. cbn [svc].
  change (inputAudioContext (set_isConnected false (svc w)))
    with (inputAudioContext (svc w)). rewrite Hin.
  unfold bind at 1. unfold emit at 1. unfold bind at 1. unfold emit at 1.
  cbn [svc trace fresh].
  match goal with
  | |- context [cleanupUntilFirstAwait ?u] =>
      destruct (cleanupUntilFirstAwait_spec u)
        as (first & s1 & Hrun & Hrel & H1 & H2 & H3 & _ & He & Hc & Ht & Hs
            & Hn)
  end.
  rewrite Hrun. unfold throw. unfold emit at 1. cbn [svc trace fresh].
  rewrite cleanup_spec. cbn [svc trace fresh].
  rewrite (cleanupCalls_after_release s1 H1 H2 H3).
  exists first,
    (closeCalls (inputAudioContext s1) ++ closeCalls (audioContext s1))%list.
  split.
  - rewrite Hrel. cbn [svc]. rewrite <- !app_assoc. reflexivity.
  - assert (Hq : forall o : option (AudioContext T),
               errorNotifications (closeCalls o) = 0
               /\ cleanupRuns (closeCalls o) = 0
               /\ transcripts (closeCalls o) = []
               /\ sent (closeCalls o) = []
               /\ closeNotifications (closeCalls o) = 0).
    { intros [[i [] c]|]; simpl; auto. }
    destruct (Hq (inputAudioContext s1)) as (A1 & A2 & A3 & A4 & A5).
    destruct (Hq (audioContext s1)) as (B1 & B2 & B3 & B4 & B5).
    rewrite !errorNotifications_app, !cleanupRuns_app, !transcripts_app,
      !sent_app, !closeNotifications_app.
    rewrite He, Hc, Ht, Hs, Hn, A1, A2, A3, A4, A5, B1, B2, B3, B4, B5.
    auto.
Qed.

Lemma quiet_sessionCalls (settle : Settlement) (s : Service T) :
  transcripts (sessionCalls settle s) = []
  /\ sent (sessionCalls settle s) = []
  /\ errorNotifications (sessionCalls settle s) = 0
  /\ cleanupRuns (sessionCalls settle s) = 0.
Proof.
  unfold sessionCalls. destruct (sessionPromise s); [|auto].
  destruct settle as [session|]; [|auto].
  destruct (hasClose session); [|auto].
  destruct (sessionCloseThrows (sessionId session)); auto.
Qed.

(** Whatever the state and however the promise settles, [disconnect]
    completes normally and leaves the service released; it calls neither
    the transcript callback nor the transport's send; and it reports an
    error exactly when the promise it awaits rejects while the input
    context is still set. *)
Lemma disconnect_general (settle : Settlement) (w : World T) :
  exists added,
    disconnect settle w =
      (Normal tt,
       {| svc := released (svc w); trace := trace w ++ added;
          fresh := fresh w |})
    /\ transcripts added = [] /\ sent added = []
    /\ errorNotifications added =
       (if rejectionReported settle (svc w) then 1 else 0)
    /\ cleanupRuns added =
       (if rejectionReported settle (svc w) then 2 else 1).
Proof.
  destruct (rejectionReported settle (svc w)) eqn:Hrep.
  - assert (Hs : settle = Rejects).
    { unfold rejectionReported in Hrep.
      destruct (sessionPromise (svc w)), settle; try discriminate.
      reflexivity. }
    subst settle.
    destruct (disconnect_reported w Hrep)
      as (first & second & Hrun & He & Hc & Ht & Hs & _).
    rewrite errorNotifications_app in He. rewrite cleanupRuns_app in Hc.
    rewrite transcripts_app in Ht. rewrite sent_app in Hs.
    apply app_eq_nil in Ht. apply app_eq_nil in Hs.
    destruct Ht as [Ht1 Ht2], Hs as [Hs1 Hs2].
    eexists. split.
    + rewrite Hrun. rewrite <- app_assoc. reflexivity.
    + rewrite !transcripts_app, !sent_app, !errorNotifications_app,
        !cleanupRuns_app, Ht1, Ht2, Hs1, Hs2. simpl.
      repeat split; lia.
  - rewrite (disconnect_spec settle w Hrep).
    exists (sessionCalls settle (svc w) ++ cleanupCalls (svc w))%list.
    rewrite app_assoc. split; [reflexivity|].
    destruct (quiet_sessionCalls settle (svc w)) as (Q1 & Q2 & Q3 & Q4).
    destruct (quiet_cleanupCalls (svc w)) as (Q5 & Q6).
    rewrite transcripts_app, sent_app, errorNotifications_app,
      cleanupRuns_app, Q1, Q2, Q3, Q4, Q5, Q6,
      errorNotifications_cleanupCalls, cleanupRuns_cleanupCalls.
    auto.
Qed.


(** The part of claim C6 that holds: a [disconnect] that no other
    handler overtakes, from whatever state and with a session promise
    that settles, releases every resource, and a second [disconnect]
    finds nothing left to do. *)
Lemma disconnect_twice_releases
  (settle1 settle2 : Settlement) (w : World T) :
  rejectionReported settle1 (svc w) = false ->
  let w1 := exec (disconnect settle1) w in
  let w2 := exec (disconnect settle2) w1 in
  completion (disconnect settle1) w = Normal tt
  /\ completion (disconnect settle2) w1 = Normal tt
  /\ svc w1 = released (svc w)
  /\ (stream (svc w1) = None /\ inputAudioContext (svc w1) = None
      /\ audioContext (svc w1) = None /\ scheduledSources (svc w1) = []
      /\ nextStartTime (svc w1) = tzero /\ getOutputAnalyser (svc w1) = None
      /\ isConnected (svc w1) = false)
  /\ (forall st track,
        stream (svc w) = Some st -> In track (tracks st) ->
        In (TrackStop track) (trace w1))
  /\ (forall ctx,
        inputAudioContext (svc w) = Some ctx -> isClosed (ctxState ctx) = false ->
        In (ContextClose (ctxId ctx)) (trace w1))
  /\ (forall ctx,
        audioContext (svc w) = Some ctx -> isClosed (ctxState ctx) = false ->
        In (ContextClose (ctxId ctx)) (trace w1))
  /\ svc w2 = svc w1
  /\ trace w2 = (trace w1 ++ [CleanupEntered])%list.
Proof.
  intros Hq. cbv zeta. unfold completion, exec.
  rewrite (disconnect_spec settle1 w Hq).
  rewrite disconnect_spec by reflexivity. simpl.
  split; [reflexivity|]. split; [reflexivity|]. split; [reflexivity|].
  split; [repeat split|].
  split; [|split; [|split; [|split]]].
  - intros st track Hst Hin. apply in_or_app. right.
    unfold cleanupCalls. rewrite Hst. simpl. right.
    apply in_or_app. left. apply in_map, Hin.
  - intros ctx Hctx Hopen. apply in_or_app. right.
    unfold cleanupCalls. rewrite Hctx. simpl. right.
    do 3 (apply in_or_app; right). apply in_or_app. left.
    rewrite Hopen. left. reflexivity.
  - intros ctx Hctx Hopen. apply in_or_app. right.
    unfold cleanupCalls. rewrite Hctx. simpl. right.
    do 4 (apply in_or_app; right).
    rewrite Hopen. left. reflexivity.
  - reflexivity.
  - rewrite app_nil_r. reflexivity.
Qed.

Lemma onopen_spec (w : World T) :
  onopen w =
    (Normal tt,
     match inputAudioContext (svc w), stream (svc w), sessionPromise (svc w)
     with
     | Some ctx, Some _, Some _ =>
         {| svc := set_processor (Some (S (fresh w)))
                     (set_inputSource (Some (fresh w))
                        (set_isConnected true (svc w)));
            trace := trace w
                       ++ OnOpen :: captureWiring ctx (fresh w) (S (fresh w));
            fresh := S (S (fresh w)) |}
     | _, _, _ =>
         {| svc := set_isConnected true (svc w);
            trace := trace w ++ [OnOpen];
            fresh := fresh w |}
     end).
Proof.
  unfold onopen, startAudioInput, resumeFailed, captureWiring.
  unfold_monad. simpl.
  destruct (inputAudioContext (svc w)) as [ctx|], (stream (svc w)),
    (sessionPromise (svc w)); simpl; try reflexivity.
  destruct (isSuspended (ctxState ctx)); simpl;
    [destruct (resumeRejects (ctxId ctx)); simpl|];
    rewrite <- !app_assoc; reflexivity.
Qed.

(** Claim C6, where the code departs from it.  [disconnect] does not
    cancel a [connect] that is still pending, and [connect] never checks
    that it has been superseded.  When [disconnect] is called while
    [connect] waits for the microphone, it completes normally and
    releases everything the service holds; then the microphone is
    granted and [connect] goes on: it stores the stream and opens the
    session.  No track of that stream is stopped, and when the transport
    reports the session open the service is marked connected while both
    audio contexts and the analyser are null.  And as long as a session
    promise stays pending, [disconnect] waits for it and releases
    nothing. *)
Theorem disconnect_does_not_cancel_pending_connect
  (settle : Settlement) (mic : MediaStream) (w : World T) :
  let w1 := exec (disconnect settle) w in
  let w2 := exec (connectResume (Some mic)) w1 in
  let w3 := exec onopen w2 in
  completion (disconnect settle) w = Normal tt
  /\ svc w1 = released (svc w)
  /\ completion (connectResume (Some mic)) w1 = Normal tt
  /\ svc w2 =
     set_sessionPromise (Some (fresh w))
       (set_stream (Some mic) (released (svc w)))
  /\ trace w2 = trace w1
  /\ svc w3 = set_isConnected true (svc w2)
  /\ trace w3 = (trace w1 ++ [OnOpen])%list
  /\ (stream (svc w3) = Some mic
      /\ sessionPromise (svc w3) = Some (fresh w)
      /\ isConnected (svc w3) = true
      /\ audioContext (svc w3) = None
      /\ inputAudioContext (svc w3) = None
      /\ getOutputAnalyser (svc w3) = None)
  /\ svc (exec disconnectPending w) = set_isConnected false (svc w)
  /\ trace (exec disconnectPending w) = trace w.
Proof.
  cbv zeta.
  destruct (disconnect_general settle w) as (added & Hrun & _).
  unfold completion, exec. rewrite Hrun. cbn [fst snd].
  unfold connectResume, connectOpen, tryCatch, bind, assign, newObject.
  cbn [fst snd svc trace fresh].
  rewrite onopen_spec.
  cbn [fst snd svc trace fresh inputAudioContext set_sessionPromise
       set_stream released].
  unfold disconnectPending, assign. cbn [snd svc trace].
  repeat split.
Qed.

(** ** A connection attempt that fails *)

Lemma onerror_spec (w : World T) :
  onerror w =
    (Normal tt,
     {| svc := released (svc w);
        trace := (trace w ++ [ConsoleError "Session error"; OnError])
                   ++ cleanupCalls (svc w);
        fresh := fresh w |}).
Proof.
  unfold onerror. unfold bind, emit, assign. rewrite cleanup_spec. simpl.
  rewrite <- !app_assoc. reflexivity.
Qed.

Lemma connectRejected_spec (w : World T) :
  connectRejected w =
    match inputAudioContext (svc w) with
    | Some _ =>
        (Normal tt,
         {| svc := released (svc w);
            trace := (trace w ++ [ConsoleError "Connection failed"; OnError])
                       ++ cleanupCalls (svc w);
            fresh := fresh w |})
    | None => (Normal tt, w)
    end.
Proof.
  unfold connectRejected. unfold bind at 1. unfold this at 1.
  destruct (inputAudioContext (svc w)); [|reflexivity].
  unfold bind, emit. rewrite cleanup_spec. simpl.
  rewrite <- !app_assoc. reflexivity.
Qed.

(** Each way of reporting the failure, taken alone, notifies once and
    cleans up once; so does the error callback followed by the rejected
    promise, once [cleanup] has run to its end in between. *)
Lemma error_event_alone_notifies_once (w : World T) :
  let w' := exec onerror w in
  errorNotifications (trace w') = errorNotifications (trace w) + 1
  /\ cleanupRuns (trace w') = cleanupRuns (trace w) + 1.
Proof.
  cbv zeta. unfold exec. rewrite onerror_spec. simpl.
  rewrite !errorNotifications_app, !cleanupRuns_app,
    errorNotifications_cleanupCalls, cleanupRuns_cleanupCalls. simpl.
  split; lia.
Qed.

Lemma rejection_alone_notifies_once (w : World T) :
  inputAudioContext (svc w) <> None ->
  let w' := exec connectRejected w in
  errorNotifications (trace w') = errorNotifications (trace w) + 1
  /\ cleanupRuns (trace w') = cleanupRuns (trace w) + 1.
Proof.
  intros Hin. cbv zeta. unfold exec. rewrite connectRejected_spec.
  destruct (inputAudioContext (svc w)); [|congruence]. simpl.
  rewrite !errorNotifications_app, !cleanupRuns_app,
    errorNotifications_cleanupCalls, cleanupRuns_cleanupCalls. simpl.
  split; lia.
Qed.

Lemma error_event_then_rejection_notifies_once (w : World T) :
  let w' := exec (onerror ;; connectRejected) w in
  errorNotifications (trace w') = errorNotifications (trace w) + 1
  /\ cleanupRuns (trace w') = cleanupRuns (trace w) + 1.
Proof.
  cbv zeta. unfold exec, bind. rewrite onerror_spec, connectRejected_spec.
  simpl.
  rewrite !errorNotifications_app, !cleanupRuns_app,
    errorNotifications_cleanupCalls, cleanupRuns_cleanupCalls. simpl.
  split; lia.
Qed.

Lemma onerrorUntilAwait_counts (w : World T) :
  let u := exec onerrorUntilAwait w in
  completion onerrorUntilAwait w = Normal tt
  /\ inputAudioContext (svc u) = inputAudioContext (svc w)
  /\ errorNotifications (trace u) = errorNotifications (trace w) + 1
  /\ cleanupRuns (trace u) = cleanupRuns (trace w) + 1.
Proof.
  cbv zeta. unfold completion, exec, onerrorUntilAwait, bind, emit, assign.
  simpl.
  match goal with
  | |- context [cleanupUntilAwait ?x] =>
      destruct (cleanupUntilAwait_spec x) as (added & Hspec & He & Hc)
  end.
  rewrite Hspec. simpl.
  rewrite !errorNotifications_app, !cleanupRuns_app, He, Hc. simpl.
  repeat split; lia.
Qed.

(** Claim C4, where the code departs from it.  When the connection
    promise rejects and the transport then calls its error callback for
    the same failure, the error notification and the cleanup routine
    both run twice: only the promise handler checks whether a cleanup
    has happened, the error callback does not.  The same double
    notification happens in the other order when the promise handler
    runs while the cleanup started by the error callback is still
    waiting for the input context to close, because the field it checks
    is cleared only after that wait. *)
Theorem failure_reported_both_ways_notifies_twice (w : World T) :
  inputAudioContext (svc w) <> None ->
  let w' := exec (connectRejected ;; onerror) w in
  let v := exec (onerrorUntilAwait ;; connectRejected) w in
  errorNotifications (trace w') = errorNotifications (trace w) + 2
  /\ cleanupRuns (trace w') = cleanupRuns (trace w) + 2
  /\ errorNotifications (trace v) = errorNotifications (trace w) + 2
  /\ cleanupRuns (trace v) = cleanupRuns (trace w) + 2.
Proof.
  intros Hin. cbv zeta. split; [|split].
  - unfold exec, bind. rewrite connectRejected_spec.
    destruct (inputAudioContext (svc w)); [|congruence].
    rewrite onerror_spec. simpl.
    rewrite !errorNotifications_app, !errorNotifications_cleanupCalls.
    simpl. lia.
  - unfold exec, bind. rewrite connectRejected_spec.
    destruct (inputAudioContext (svc w)); [|congruence].
    rewrite onerror_spec. simpl.
    rewrite !cleanupRuns_app, !cleanupRuns_cleanupCalls.
    simpl. lia.
  - destruct (onerrorUntilAwait_counts w) as (Hn & Hctx & He & Hc).
    cbv zeta in Hctx, He, Hc.
    rewrite exec_seq by (intros u; apply onerrorUntilAwait_counts).
    set (u := exec onerrorUntilAwait w) in *.
    unfold exec. rewrite connectRejected_spec, Hctx.
    destruct (inputAudioContext (svc w)); [|congruence]. simpl.
    rewrite !errorNotifications_app, !cleanupRuns_app,
      errorNotifications_cleanupCalls, cleanupRuns_cleanupCalls, He, Hc.
    simpl. split; lia.
Qed.

(** ** Capture frames of an inactive session *)

Lemma frame_when_inactive (inputData : list T) (w : World T) :
  isConnected (svc w) = false ->
  onaudioprocess inputData w = (Normal None, w).
Proof.
  intros Hi. unfold onaudioprocess. unfold_monad. rewrite Hi. reflexivity.
Qed.

Lemma chunk_when_inactive (base64Data : string) (session : Session)
  (w : World T) :
  isConnected (svc w) = false ->
  sendChunk base64Data session w = (Normal tt, w).
Proof.
  intros Hi. unfold sendChunk. unfold_monad. rewrite Hi. reflexivity.
Qed.

(** While the session is active the same frame is encoded and sent. *)
Lemma frame_when_active (inputData : list T) (session : Session)
  (w : World T) :
  isConnected (svc w) = true ->
  sessionPromise (svc w) <> None ->
  onaudioprocess inputData w = (Normal (Some (encodeFrame inputData)), w)
  /\ sent (trace (exec (sendChunk (encodeFrame inputData) session) w)) =
     (sent (trace w) ++ [encodeFrame inputData])%list.
Proof.
  intros Hi Hp. unfold onaudioprocess, sendChunk. unfold_monad.
  rewrite Hi. destruct (sessionPromise (svc w)); [|congruence]. simpl.
  split; [reflexivity|].
  assert (Happ : forall t1 t2 : list (Effect T),
             sent (t1 ++ t2) = (sent t1 ++ sent t2)%list).
  { intros t1 t2. induction t1 as [|e t1 IH]; simpl; [reflexivity|].
    destruct e; simpl; rewrite ?IH; reflexivity. }
  destruct (sendThrows (sessionId session)); simpl; rewrite Happ;
    reflexivity.
Qed.

(** Claim C8.  Once [isConnected] is false, which is what the close and
    error callbacks, [disconnect] and [cleanup] all establish, a capture
    frame is dropped at the guard of the handler: nothing is encoded and
    no continuation is registered; a continuation that was registered
    while the session was active and runs now sends nothing; and any
    sequence of frames and pending continuations leaves the world, hence
    the list of transmitted chunks, exactly as it was. *)
Theorem inactive_session_drops_frames (w : World T) :
  isConnected (svc w) = false ->
  (forall inputData, onaudioprocess inputData w = (Normal None, w))
  /\ (forall base64Data session,
        sendChunk base64Data session w = (Normal tt, w))
  /\ (forall ops,
        forallb isCapture ops = true ->
        exec (forEach ops activeStep) w = w
        /\ sent (trace (exec (forEach ops activeStep) w)) = sent (trace w))
  /\ (forall u settle,
        isConnected (svc (exec onclose u)) = false
        /\ isConnected (svc (exec onerror u)) = false
        /\ isConnected (svc (exec (disconnect settle) u)) = false
        /\ isConnected (svc (exec cleanup u)) = false).
Proof.
  intros Hi. split; [|split; [|split]].
  - intros inputData. apply frame_when_inactive, Hi.
  - intros base64Data session. apply chunk_when_inactive, Hi.
  - intros ops Hops.
    assert (He : exec (forEach ops activeStep) w = w).
    { induction ops as [|op ops IH]; [reflexivity|].
      simpl in Hops. apply andb_true_iff in Hops. destruct Hops as [Hop Hops].
      simpl. unfold exec, bind.
      destruct op as [|m|now|src|inputData|base64Data session];
        simpl in Hop; try discriminate; simpl.
      - unfold bind. rewrite (frame_when_inactive _ _ Hi). simpl.
        apply IH, Hops.
      - rewrite (chunk_when_inactive _ _ _ Hi). apply IH, Hops. }
    rewrite He. auto.
  - intros u settle. unfold exec.
    destruct (disconnect_general settle u) as (added & Hd & _).
    rewrite onerror_spec, Hd, cleanup_spec.
    unfold onclose, bind, emit, assign. rewrite cleanup_spec. auto.
Qed.


End Properties.

(** * The model at work

    The statements above, applied to the host of the examples. *)

Example trim_inner_space : trim "  a b  " = "a b".
Proof. reflexivity. Qed.

Example trim_blank : trim (String "009" (String "010" "   ")) = "".
Proof. reflexivity. Qed.

Example connected_world_is_active :
  isConnected (svc connectedWorld) = true
  /\ hasSink (svc connectedWorld) = true
  /\ nextStartTime (svc connectedWorld) = 0%Z.
Proof. repeat split. Qed.

Example bad_chunk_only_logs :
  trace (exec (queueAudioOutput "!bad") connectedWorld) =
  (trace connectedWorld ++ [ConsoleError "Error decoding audio"])%list.
Proof. reflexivity. Qed.

Lemma demo_durations_nonneg (base64Audio : string) (b : AudioBuffer Z) :
  decodeAudio base64Audio = Some b -> tle tzero (duration b).
Proof.
  simpl. unfold demoDecode. destruct (startsWith "!" base64Audio);
    [discriminate|].
  intros H. injection H as <-. simpl. apply Nat2Z.is_nonneg.
Qed.

Lemma contiguous_playback_witness :
  hasSink (svc connectedWorld) = true
  /\ Forall decodes demoRun
  /\ noStarvation demoRun connectedWorld
  /\ startTimes (trace (exec (runScheduler demoRun) connectedWorld)) =
     [0; 4; 6]%Z
  /\ nextStartTime (svc (exec (runScheduler demoRun) connectedWorld)) = 7%Z.
Proof.
  assert (H1 : hasSink (svc connectedWorld) = true) by reflexivity.
  assert (H2 : Forall decodes demoRun)
    by (repeat constructor; vm_compute; discriminate).
  assert (H3 : noStarvation demoRun connectedWorld)
    by (vm_compute; repeat split).
  destruct (contiguous_playback demoRun connectedWorld H1 H2 H3)
    as (_ & Ht & Hc & _).
  split; [exact H1|]. split; [exact H2|]. split; [exact H3|].
  split; [exact Ht | exact Hc].
Defined.

Lemma interruption_flushes_playback_witness :
  interruptedOf (serverContent demoInterruption) = true
  /\ trace (exec (handleMessage demoInterruption) playingWorld) =
     (trace playingWorld ++ [SourceStop 7])%list
  /\ scheduledSources (svc (exec (handleMessage demoInterruption) playingWorld))
     = []
  /\ nextStartTime (svc (exec (handleMessage demoInterruption) playingWorld))
     = 2%Z.
Proof.
  assert (H1 : interruptedOf (serverContent demoInterruption) = true)
    by reflexivity.
  destruct (interruption_flushes_playback demoInterruption playingWorld H1)
    as (_ & Ht & Hs & Hc & _).
  split; [exact H1|]. split; [exact Ht|]. split; [exact Hs|].
  exact (Hc {| ctxId := 0; ctxState := Running; currentTime := 2%Z |}
            eq_refl).
Defined.

Lemma turn_complete_flushes_nonblank_roles_witness :
  interruptedOf (serverContent demoTurnComplete) = false
  /\ turnCompleteOf (serverContent demoTurnComplete) = true
  /\ (let w := exec (handleMessage (demoInputFragment "Hello")) connectedWorld in
      transcripts (trace (exec (handleMessage demoTurnComplete) w)) =
        [("Hello", user)]
      /\ currentInputTranscription
           (svc (exec (handleMessage demoTurnComplete) w)) = "")
  /\ interruptedOf (serverContent demoUntypedTurn) = false
  /\ turnCompleteOf (serverContent demoUntypedTurn) = true
  /\ completion (handleMessage demoUntypedTurn) connectedWorld = Thrown
  /\ transcripts (trace (exec (handleMessage demoUntypedTurn) connectedWorld))
     = [].
Proof.
  assert (H1 : interruptedOf (serverContent demoTurnComplete) = false)
    by reflexivity.
  assert (H2 : turnCompleteOf (serverContent demoTurnComplete) = true)
    by reflexivity.
  assert (H3 : interruptedOf (serverContent demoUntypedTurn) = false)
    by reflexivity.
  assert (H4 : turnCompleteOf (serverContent demoUntypedTurn) = true)
    by reflexivity.
  pose proof (turn_complete_flushes_nonblank_roles demoTurnComplete
                (exec (handleMessage (demoInputFragment "Hello"))
                   connectedWorld) H1 H2) as Ha.
  pose proof (turn_complete_flushes_nonblank_roles demoUntypedTurn
                connectedWorld H3 H4) as Hb.
  cbv zeta in Ha, Hb.
  change (wellTyped demoTurnComplete) with true in Ha.
  change (wellTyped demoUntypedTurn) with false in Hb.
  cbv iota in Ha, Hb.
  destruct Ha as (Ht & Hi & _). destruct Hb as (Hc & Hn & _).
  split; [exact H1|]. split; [exact H2|]. cbv zeta.
  split; [split; [exact Ht | exact Hi]|].
  split; [exact H3|]. split; [exact H4|]. split; [exact Hc | exact Hn].
Defined.

(** The part of claim C3 that the code does not do: after a turn
    boundary, an accumulator holding only white space still holds it,
    and the next fragment is appended to it. *)
Lemma blank_accumulator_survives_turn_complete :
  trim (currentInputTranscription (svc blankWorld)) = ""
  /\ transcripts (trace (exec (handleMessage demoTurnComplete) blankWorld))
     = []
  /\ currentInputTranscription
       (svc (exec (handleMessage demoTurnComplete) blankWorld)) = "   "
  /\ currentInputTranscription
       (svc (exec (handleMessage demoTurnComplete) blankWorld)) <> ""
  /\ currentInputTranscription
       (svc (exec (handleMessage demoTurnComplete ;;
                   handleMessage (demoInputFragment "Hi")) blankWorld))
     = "   Hi".
Proof.
  repeat split; try reflexivity. vm_compute. discriminate.
Qed.

Lemma failure_reported_both_ways_notifies_twice_witness :
  inputAudioContext (svc connectingWorld) <> None
  /\ errorNotifications (trace connectingWorld) = 0
  /\ errorNotifications
       (trace (exec (connectRejected ;; onerror) connectingWorld)) = 2
  /\ cleanupRuns (trace (exec (connectRejected ;; onerror) connectingWorld)) =
     cleanupRuns (trace connectingWorld) + 2.
Proof.
  assert (H1 : inputAudioContext (svc connectingWorld) <> None)
    by (vm_compute; discriminate).
  destruct (failure_reported_both_ways_notifies_twice connectingWorld H1)
    as (He & Hc & _).
  split; [exact H1|]. split; [reflexivity|].
  split; [exact He | exact Hc].
Defined.

(** Claim C5 as the specification words it fails: in a message that
    carries the interruption signal, the audio payload is not scheduled,
    the two fragments are not accumulated and no turn is dispatched,
    whereas the same events delivered one by one are all handled. *)
Lemma interruption_suppresses_other_events :
  let together := exec (handleMessage demoEverything) connectedWorld in
  let apart :=
    exec (handleMessage (onlyInterrupted demoEverything) ;;
          oneByOne demoEverything) connectedWorld in
  startTimes (trace together) = []
  /\ currentInputTranscription (svc together) = ""
  /\ transcripts (trace together) = []
  /\ startTimes (trace apart) = [0%Z]
  /\ transcripts (trace apart) = [("hi", user); ("yo", model)]
  /\ together <> apart.
Proof.
  cbv zeta. repeat split; try reflexivity.
  intros H. apply (f_equal (fun w => startTimes (trace w))) in H.
  vm_compute in H. discriminate H.
Qed.

Example disconnect_twice_on_a_pending_session :
  let w1 := exec (disconnect (Resolves demoSession)) connectingWorld in
  let w2 := exec (disconnect Rejects) w1 in
  completion (disconnect (Resolves demoSession)) connectingWorld = Normal tt
  /\ completion (disconnect Rejects) w1 = Normal tt
  /\ In (SessionClose 7) (trace w1)
  /\ In (TrackStop 11) (trace w1)
  /\ svc w1 = released (svc connectingWorld)
  /\ svc w2 = svc w1.
Proof.
  cbv zeta.
  destruct (disconnect_twice_releases (Resolves demoSession) Rejects
              connectingWorld eq_refl)
    as (H1 & H2 & H3 & _ & H5 & _ & _ & H8 & _).
  split; [exact H1|]. split; [exact H2|].
  split; [vm_compute; tauto|].
  split; [exact (H5 demoMic 11 eq_refl (or_introl eq_refl))|].
  split; [exact H3 | exact H8].
Qed.

(** A rejection of the promise that [disconnect] awaits is reported by
    the handler that [connect] has left on the promise: the error
    callback runs once and the cleanup routine is entered twice. *)
Example disconnect_of_a_failing_session :
  let w1 := exec (disconnect Rejects) connectingWorld in
  errorNotifications (trace w1) = 1
  /\ cleanupRuns (trace w1) = cleanupRuns (trace connectingWorld) + 2
  /\ svc w1 = released (svc connectingWorld).
Proof.
  cbv zeta. split; [vm_compute; reflexivity|].
  split; vm_compute; reflexivity.
Qed.

Lemma disconnect_does_not_cancel_pending_connect_witness :
  let w1 := exec (disconnect Rejects) awaitingMicWorld in
  let w2 := exec (connectResume (Some demoMic)) w1 in
  let w3 := exec onopen w2 in
  sessionPromise (svc awaitingMicWorld) = None
  /\ svc w1 = released (svc awaitingMicWorld)
  /\ stream (svc w3) = Some demoMic
  /\ trace w3 = (trace w1 ++ [OnOpen])%list
  /\ ~ In (TrackStop 11) (trace w3)
  /\ isConnected (svc w3) = true
  /\ audioContext (svc w3) = None
  /\ inputAudioContext (svc w3) = None.
Proof.
  cbv zeta.
  destruct (disconnect_does_not_cancel_pending_connect Rejects demoMic
              awaitingMicWorld)
    as (_ & H1 & _ & _ & _ & _ & Ht & (Hs & _ & Hc & Ho & Hi & _) & _).
  split; [reflexivity|]. split; [exact H1|]. split; [exact Hs|].
  split; [exact Ht|]. split.
  - rewrite Ht. vm_compute.
    intros H. repeat (destruct H as [H|H]; [discriminate H|]). exact H.
  - split; [exact Hc|]. split; [exact Ho | exact Hi].
Defined.

(** The same when the microphone is granted earlier, while the [cleanup]
    of [disconnect] waits for the input context to close: [disconnect]
    completes normally, and the stream that [connect] has just stored is
    neither stopped nor cleared.  Without the grant in between, the two
    segments are the [disconnect] of the model. *)
Lemma overtaken_disconnect_keeps_microphone :
  let w' := exec overtakenDisconnect awaitingMicWorld in
  sessionPromise (svc awaitingMicWorld) = None
  /\ inputContextOpen (svc awaitingMicWorld) = true
  /\ (disconnectUntilAwait ;; cleanupAfterAwait) awaitingMicWorld =
     disconnect Rejects awaitingMicWorld
  /\ completion overtakenDisconnect awaitingMicWorld = Normal tt
  /\ stream (svc w') = Some demoMic
  /\ ~ In (TrackStop 11) (trace w')
  /\ svc w' <> released (svc awaitingMicWorld).
Proof.
  cbv zeta.
  split; [vm_compute; reflexivity|]. split; [vm_compute; reflexivity|].
  split; [vm_compute; reflexivity|]. split; [vm_compute; reflexivity|].
  split; [vm_compute; reflexivity|]. split.
  - vm_compute. intros H. repeat (destruct H as [H|H]; [discriminate H|]).
    exact H.
  - intros H. apply (f_equal stream) in H. vm_compute in H. discriminate H.
Qed.

Lemma cursor_monotone_except_interruption_witness :
  (forall base64Audio b,
      decodeAudio base64Audio = Some b -> tle tzero (duration b))
  /\ isInterruption (Message (T := Z) (demoAudio "aaaa")) = false
  /\ tle (nextStartTime (svc playingWorld))
         (nextStartTime
            (svc (exec (activeStep (Message (demoAudio "aaaa"))) playingWorld))).
Proof.
  assert (H1 : isInterruption (Message (T := Z) (demoAudio "aaaa")) = false)
    by reflexivity.
  split; [exact demo_durations_nonneg|]. split; [exact H1|].
  exact (proj1 (cursor_monotone_except_interruption demo_durations_nonneg
                  (Message (demoAudio "aaaa")) playingWorld) H1).
Defined.

(** Claim C7 as the specification words it fails: the session is active,
    five frames are scheduled ahead, the sink's clock stands at two, and
    the interruption moves the cursor from five back to two. *)
Lemma interruption_moves_cursor_back :
  let w' := exec (activeStep (Message demoInterruption)) playingWorld in
  isConnected (svc playingWorld) = true
  /\ isConnected (svc w') = true
  /\ nextStartTime (svc playingWorld) = 5%Z
  /\ nextStartTime (svc w') = 2%Z
  /\ ~ tle (nextStartTime (svc playingWorld)) (nextStartTime (svc w')).
Proof.
  cbv zeta. repeat split; try reflexivity. vm_compute. intros H. apply H.
  reflexivity.
Qed.

Lemma inactive_session_drops_frames_witness :
  isConnected (svc (exec onclose connectedWorld)) = false
  /\ onaudioprocess [1; 2; 3]%Z (exec onclose connectedWorld) =
     (Normal None, exec onclose connectedWorld)
  /\ sendChunk "AAA" demoSession (exec onclose connectedWorld) =
     (Normal tt, exec onclose connectedWorld).
Proof.
  assert (H1 : isConnected (svc (exec onclose connectedWorld)) = false)
    by reflexivity.
  destruct (inactive_session_drops_frames (exec onclose connectedWorld) H1)
    as (Hf & Hc & _).
  split; [exact H1|].
  split; [exact (Hf [1; 2; 3]%Z) | exact (Hc "AAA" demoSession)].
Defined.

Lemma decode_failure_is_contained_witness :
  decodeAudio (T := Z) "!bad" = None
  /\ hasSink (svc connectedWorld) = true
  /\ noStarvation demoRunWithBadChunk connectedWorld
  /\ withoutUndecodable demoRunWithBadChunk = demoRun
  /\ svc (exec (runScheduler demoRunWithBadChunk) connectedWorld) =
     svc (exec (runScheduler demoRun) connectedWorld)
  /\ startTimes (trace (exec (runScheduler demoRunWithBadChunk) connectedWorld))
     = [0; 4; 6]%Z
  /\ errorNotifications
       (trace (exec (runScheduler demoRunWithBadChunk) connectedWorld)) = 0.
Proof.
  assert (H1 : hasSink (svc connectedWorld) = true) by reflexivity.
  assert (H2 : noStarvation demoRunWithBadChunk connectedWorld)
    by (vm_compute; repeat split).
  destruct (decode_failure_is_contained demoRunWithBadChunk connectedWorld)
    as (_ & _ & Hs & _ & He & _ & Hb).
  split; [reflexivity|]. split; [exact H1|]. split; [exact H2|].
  split; [reflexivity|]. split; [exact Hs|].
  split; [exact (Hb H1 H2) | exact He].
Defined.

Lemma enqueue_without_sink_changes_nothing_witness :
  (audioContext (svc (newWorld (T := Z))) = None
   \/ outputGain (svc (newWorld (T := Z))) = None)
  /\ exec (queueAudioOutput "aaaa") (newWorld (T := Z)) = newWorld.
Proof.
  assert (H1 : audioContext (svc (newWorld (T := Z))) = None
               \/ outputGain (svc (newWorld (T := Z))) = None)
    by (left; reflexivity).
  split; [exact H1|].
  exact (proj1 (proj2 (enqueue_without_sink_changes_nothing "aaaa"
                         newWorld H1))).
Defined.

(** * Further properties of the service *)

Section Further.

Context {T : Type} {TL : Timeline T} {HO : Host T}.

Ltac unfold_monad :=
  cbv [bind ret this assign emit newObject throw tryCatch when_ exec
       completion].

(** ** Playback without overlap *)

Section OrderedPlayback.
Context {TO : TimelineOrder T}.

Lemma chained_weaken (c c' : T) (l : list (nat * T * AudioBuffer T)) (e : T) :
  tle c' c -> chained c l e -> chained c' l e.
Proof.
  intros Hc. destruct l as [|[[id when] b] rest]; simpl.
  - intros He. eapply tle_trans; eassumption.
  - intros [Hw Hrest]. split; [eapply tle_trans; eassumption | exact Hrest].
Qed.

Lemma chained_app (c m e : T) (l1 l2 : list (nat * T * AudioBuffer T)) :
  chained c l1 m -> chained m l2 e -> chained c (l1 ++ l2) e.
Proof.
  revert c. induction l1 as [|[[id when] b] l1 IH]; intros c; simpl.
  - intros Hc H2. eapply chained_weaken; eassumption.
  - intros [Hw H1] H2. split; [exact Hw | apply IH; assumption].
Qed.

Lemma schedulerStep_chained (op : SchedulerOp T) (w : World T) :
  let w' := exec (schedulerStep op) w in
  exists new,
    started (trace w') = (started (trace w) ++ new)%list
    /\ chained (nextStartTime (svc w)) new (nextStartTime (svc w'))
    /\ (hasSink (svc w) = true -> map snd new = decodedBuffers [op]).
Proof.
  cbv zeta. destruct op as [now|base64Audio|src]; simpl.
  - exists []. rewrite app_nil_r. unfold advanceClock. unfold_monad. simpl.
    destruct (audioContext (svc w)); simpl; repeat split; apply tle_refl.
  - destruct (hasSink (svc w)) eqn:Hs.
    + destruct (hasSink_inv _ Hs) as (ctx & gain & Hc & Hg).
      destruct (decodeAudio base64Audio) as [b|] eqn:Hd; unfold exec.
      * rewrite (queue_decoded _ _ _ _ _ Hc Hg Hd). simpl.
        exists [(fresh w, snapped (svc w) ctx, b)].
        rewrite started_app. simpl. repeat split.
        -- unfold snapped. destruct (tltb _ _) eqn:Hlt;
             [apply tltb_tle, Hlt | apply tle_refl].
        -- apply tle_refl.
      * rewrite (queue_undecodable _ _ Hs Hd). simpl. exists [].
        rewrite started_app. simpl. repeat split. apply tle_refl.
    + unfold exec. rewrite (queue_without_sink _ _ Hs). exists [].
      rewrite app_nil_r. repeat split; [apply tle_refl | discriminate].
  - exists []. rewrite app_nil_r. repeat split. apply tle_refl.
Qed.

(** Property X1.  Over any run of the playback scheduler, starved or
    not, the buffers handed to the sink never overlap: the first starts
    no earlier than the initial cursor, each next one no earlier than
    the end of the one before, and the cursor ends no earlier than the
    end of the last.  With the sink in place, the buffers started are
    the payloads that decode, each once and in arrival order. *)
Theorem playback_never_overlaps (ops : list (SchedulerOp T)) (w : World T) :
  let w' := exec (runScheduler ops) w in
  exists new,
    started (trace w') = (started (trace w) ++ new)%list
    /\ chained (nextStartTime (svc w)) new (nextStartTime (svc w'))
    /\ (hasSink (svc w) = true -> map snd new = decodedBuffers ops).
Proof.
  cbv zeta. revert w. induction ops as [|op ops IH]; intros w.
  - exists []. rewrite app_nil_r. repeat split. apply tle_refl.
  - rewrite runScheduler_cons.
    destruct (schedulerStep_chained op w) as (n1 & Hs1 & Hc1 & Hb1).
    destruct (IH (exec (schedulerStep op) w)) as (n2 & Hs2 & Hc2 & Hb2).
    exists (n1 ++ n2)%list. rewrite Hs2, Hs1, app_assoc.
    split; [reflexivity|]. split.
    + eapply chained_app; eassumption.
    + intros Hs. rewrite map_app, Hb1 by exact Hs.
      rewrite Hb2 by (rewrite schedulerStep_hasSink; exact Hs).
      symmetry. apply decodedBuffers_cons.
Qed.

(** Property X2.  When comparisons of times are total, a decoded buffer
    is never scheduled in the past: its start time is the later of the
    cursor and the sink's clock, hence neither before the one nor before
    the other, and the cursor moves to the end of the buffer. *)
Theorem buffer_starts_at_or_after_clock (base64Audio : string) (w : World T)
  (ctx : AudioContext T) (gain : nat) (b : AudioBuffer T) :
  (forall x y : T, tltb x y = false -> tle y x) ->
  audioContext (svc w) = Some ctx ->
  outputGain (svc w) = Some gain ->
  decodeAudio base64Audio = Some b ->
  let w' := exec (queueAudioOutput base64Audio) w in
  exists when,
    started (trace w') = (started (trace w) ++ [(fresh w, when, b)])%list
    /\ tle (currentTime ctx) when
    /\ tle (nextStartTime (svc w)) when
    /\ (when = currentTime ctx \/ when = nextStartTime (svc w))
    /\ nextStartTime (svc w') = tadd when (duration b).
Proof.
  intros Htot Hc Hg Hd. cbv zeta. unfold exec.
  rewrite (queue_decoded _ _ _ _ _ Hc Hg Hd). simpl.
  exists (snapped (svc w) ctx). rewrite started_app. simpl.
  split; [reflexivity|]. unfold snapped.
  destruct (tltb (nextStartTime (svc w)) (currentTime ctx)) eqn:Hlt.
  - split; [apply tle_refl|]. split; [apply tltb_tle, Hlt|]. auto.
  - split; [apply Htot, Hlt|]. split; [apply tle_refl|]. auto.
Qed.

End OrderedPlayback.

(** ** The scheduled set *)

Lemma hasSource_above (n : nat) (l : list (SourceNode T)) :
  Forall (fun id => id < n) (map srcId l) -> hasSource n l = false.
Proof.
  unfold hasSource. induction l as [|x l IH]; simpl; [reflexivity|].
  intros H. inversion H as [|? ? Hx Hl]; subst.
  rewrite IH by exact Hl. rewrite orb_false_r.
  apply Nat.eqb_neq. lia.
Qed.

Lemma setDelete_above (n : nat) (l : list (SourceNode T)) :
  Forall (fun id => id < n) (map srcId l) -> setDelete n l = l.
Proof.
  unfold setDelete. induction l as [|x l IH]; simpl; [reflexivity|].
  intros H. inversion H as [|? ? Hx Hl]; subst.
  assert (Hne : Nat.eqb (srcId x) n = false) by (apply Nat.eqb_neq; lia).
  rewrite Hne. simpl. rewrite IH by exact Hl. reflexivity.
Qed.

Lemma setDelete_ids (id : nat) (l : list (SourceNode T)) :
  map srcId (setDelete id l) = filter (fun x => negb (Nat.eqb x id)) (map srcId l).
Proof.
  unfold setDelete. induction l as [|x l IH]; simpl; [reflexivity|].
  destruct (Nat.eqb (srcId x) id); simpl; rewrite IH; reflexivity.
Qed.

Lemma filter_keeps_NoDup {A : Type} (f : A -> bool) (l : list A) :
  NoDup l -> NoDup (filter f l).
Proof.
  induction 1 as [|x l Hx _ IH]; simpl; [constructor|].
  destruct (f x); [|exact IH].
  constructor; [|exact IH]. intros Hin. apply filter_In in Hin. tauto.
Qed.

Lemma filter_keeps_Forall {A : Type} (P : A -> Prop) (f : A -> bool) (l : list A) :
  Forall P l -> Forall P (filter f l).
Proof.
  induction 1 as [|x l Hx _ IH]; simpl; [constructor|].
  destruct (f x); [constructor; assumption | exact IH].
Qed.

Lemma wellScheduled_grow (s : Service T) (t t' : list (Effect T)) (n n' : nat) :
  n <= n' ->
  wellScheduled {| svc := s; trace := t; fresh := n |} ->
  wellScheduled {| svc := s; trace := t'; fresh := n' |}.
Proof.
  intros Hn [Hb Hd]. split; [|exact Hd]. simpl in *.
  eapply Forall_impl; [|exact Hb]. simpl. intros; lia.
Qed.

Lemma queue_wellScheduled (base64Audio : string) (w : World T) :
  wellScheduled w -> wellScheduled (exec (queueAudioOutput base64Audio) w).
Proof.
  intros Hw. destruct (hasSink (svc w)) eqn:Hs.
  - destruct (hasSink_inv _ Hs) as (ctx & gain & Hc & Hg).
    destruct (decodeAudio base64Audio) as [b|] eqn:Hd; unfold exec.
    + rewrite (queue_decoded _ _ _ _ _ Hc Hg Hd). simpl.
      destruct Hw as [Hb Hn]. unfold wellScheduled, scheduledIds in *. simpl.
      unfold setAdd. simpl. rewrite (hasSource_above _ _ Hb).
      rewrite map_app. simpl. split.
      * apply Forall_app. split.
        -- eapply Forall_impl; [|exact Hb]. simpl. intros; lia.
        -- constructor; [lia | constructor].
      * apply NoDup_app; [exact Hn | repeat constructor; simpl; tauto |].
        intros x Hx [Hx'|[]]. subst x.
        rewrite Forall_forall in Hb. specialize (Hb _ Hx). lia.
    + rewrite (queue_undecodable _ _ Hs Hd). simpl.
      destruct w as [s t n]. eapply wellScheduled_grow; [|exact Hw]. simpl. lia.
  - unfold exec. rewrite (queue_without_sink _ _ Hs). exact Hw.
Qed.


Lemma queueParts_wellScheduled (ps : list Part) (w : World T) :
  wellScheduled w -> wellScheduled (exec (forEach ps queuePart) w).
Proof.
  rewrite (proj1 (queueParts_as_run ps w)).
  generalize (audioPayloads ps). intros l. revert w.
  induction l as [|b l IH]; intros w Hw; [exact Hw|].
  cbn [map]. rewrite runScheduler_cons. cbn [schedulerStep].
  apply IH, queue_wellScheduled, Hw.
Qed.

(** The part of [handleMessage] after the audio parts touches neither the
    scheduled set nor the identity supply. *)
Lemma tail_keeps_scheduled (i o : option string) (t : bool) (u : World T) :
  let rest := appendInput i ;; appendOutput o ;; when_ t dispatchTurns in
  scheduledSources (svc (exec rest u)) = scheduledSources (svc u)
  /\ fresh (exec rest u) = fresh u.
Proof.
  cbv zeta. unfold appendInput, appendOutput, dispatchTurns.
  destruct i, o, t; unfold_monad; simpl;
    repeat match goal with
      | |- context [if truthy (trim ?x) then _ else _] =>
          destruct (truthy (trim x)); simpl
      end; auto.
Qed.

Lemma wellScheduled_same (w u : World T) :
  scheduledSources (svc u) = scheduledSources (svc w) ->
  fresh w <= fresh u ->
  wellScheduled w -> wellScheduled u.
Proof.
  intros Hs Hf [Hb Hn]. unfold wellScheduled, scheduledIds in *.
  rewrite Hs. split; [|exact Hn].
  eapply Forall_impl; [|exact Hb]. simpl. intros; lia.
Qed.

Lemma activeStep_wellScheduled (op : ActiveOp T) (w : World T) :
  wellScheduled w -> wellScheduled (exec (activeStep op) w).
Proof.
  intros Hw. destruct op as [|m|now|src|inputData|base64Data session]; simpl.
  - apply (wellScheduled_same w); [| |exact Hw];
      unfold exec; rewrite onopen_spec;
      destruct (inputAudioContext (svc w)) as [ic|], (stream (svc w)),
               (sessionPromise (svc w)); simpl; try reflexivity; lia.
  - rewrite exec_tryCatch_ret.
    destruct (interruptedOf (serverContent m)) eqn:Hi.
    + unfold handleMessage. rewrite Hi.
      unfold exec, bind. rewrite stopAll_spec. unfold assign. simpl.
      unfold wellScheduled, scheduledIds. simpl.
      destruct (audioContext (svc w)); simpl; split; constructor.
    + pose proof (queueParts_wellScheduled (partsOf (serverContent m)) w Hw)
        as Hu.
      rewrite (exec_handleMessage m w Hi).
      destruct (wellTyped m); [|exact Hu].
      destruct (handleText_keeps_playback (serverContent m)
                  (exec (forEach (partsOf (serverContent m)) queuePart) w))
        as (_ & _ & Hs & Hf). cbv zeta in Hs, Hf.
      eapply wellScheduled_same; [exact Hs | rewrite Hf; lia | exact Hu].
  - apply (wellScheduled_same w); [| |exact Hw];
      unfold advanceClock; unfold_monad; simpl;
      destruct (audioContext (svc w)); simpl; try reflexivity; lia.
  - destruct Hw as [Hb Hn]. unfold sourceEnded. unfold_monad.
    unfold wellScheduled, scheduledIds in *. simpl.
    rewrite setDelete_ids. split;
      [apply filter_keeps_Forall, Hb | apply filter_keeps_NoDup, Hn].
  - apply (wellScheduled_same w); [| |exact Hw];
      unfold onaudioprocess; unfold_monad; simpl;
      destruct (negb (isConnected (svc w)) || isNone (sessionPromise (svc w)));
      simpl; try reflexivity; lia.
  - apply (wellScheduled_same w); [| |exact Hw];
      unfold sendChunk; unfold_monad; simpl;
      destruct (isConnected (svc w)); simpl; try reflexivity; try lia;
      destruct (sendThrows (sessionId session)); simpl; try reflexivity; lia.
Qed.

Lemma neverThrows_activeStep (op : ActiveOp T) : neverThrows (activeStep op).
Proof.
  intros w. destruct op as [|m|now|src|inputData|base64Data session]; simpl.
  - unfold completion. rewrite onopen_spec. reflexivity.
  - apply neverThrows_message.
  - reflexivity.
  - reflexivity.
  - unfold completion, onaudioprocess. unfold_monad.
    destruct (negb (isConnected (svc w)) || isNone (sessionPromise (svc w)));
      reflexivity.
  - unfold completion, sendChunk. unfold_monad.
    destruct (isConnected (svc w)); simpl; [|reflexivity].
    destruct (sendThrows (sessionId session)); reflexivity.
Qed.

(** Property X3.  The scheduled set stays well formed through every
    sequence of operations of an active session: it never holds the
    same source twice, and it only holds sources that this service has
    created. *)
Theorem scheduled_set_stays_well_formed (ops : list (ActiveOp T))
  (w : World T) :
  wellScheduled w -> wellScheduled (exec (forEach ops activeStep) w).
Proof.
  revert w. induction ops as [|op ops IH]; intros w Hw; [exact Hw|].
  rewrite exec_forEach_cons by apply neverThrows_activeStep.
  apply IH, activeStep_wellScheduled, Hw.
Qed.

(** Property X4.  On a well-formed scheduled set, an enqueue that
    decodes appends exactly one new source to the set, and the end of
    that source removes exactly it: the set is back to what it was. *)
Theorem finished_source_leaves_set_as_before
  (base64Audio : string) (w : World T) (ctx : AudioContext T) (gain : nat)
  (b : AudioBuffer T) :
  wellScheduled w ->
  audioContext (svc w) = Some ctx ->
  outputGain (svc w) = Some gain ->
  decodeAudio base64Audio = Some b ->
  let queued := exec (queueAudioOutput base64Audio) w in
  scheduledSources (svc queued) =
    (scheduledSources (svc w) ++ [{| srcId := fresh w; srcBuffer := b |}])%list
  /\ scheduledSources (svc (exec (sourceEnded (fresh w)) queued)) =
     scheduledSources (svc w).
Proof.
  intros [Hb _] Hc Hg Hd. cbv zeta. unfold scheduledIds in Hb.
  unfold exec at 1 3. rewrite (queue_decoded _ _ _ _ _ Hc Hg Hd). simpl.
  unfold setAdd. simpl. rewrite (hasSource_above _ _ Hb).
  split; [reflexivity|].
  unfold sourceEnded. unfold_monad. simpl.
  unfold setDelete. rewrite filter_app. simpl. rewrite Nat.eqb_refl. simpl.
  rewrite app_nil_r. apply (setDelete_above _ _ Hb).
Qed.

(** Property X5.  An end-of-source notification that arrives after the
    set has been flushed, by an interruption or by [cleanup], changes
    nothing at all. *)
Theorem late_ended_after_flush_changes_nothing
  (m : LiveServerMessage) (src : nat) (w : World T) :
  (interruptedOf (serverContent m) = true ->
   exec (handleMessage m ;; sourceEnded src) w = exec (handleMessage m) w)
  /\ exec (cleanup ;; sourceEnded src) w = exec cleanup w.
Proof.
  split.
  - intros Hi. unfold handleMessage. rewrite Hi.
    unfold exec, bind. rewrite stopAll_spec. unfold assign, sourceEnded.
    simpl. destruct (audioContext (svc w)); reflexivity.
  - unfold exec, bind. rewrite cleanup_spec. reflexivity.
Qed.

(** Property X6.  The first buffer enqueued after an interruption starts
    exactly at the sink's current time, wherever the cursor stood before
    the interruption, and it is then the only scheduled source. *)
Theorem audio_after_interruption_starts_at_clock
  (m : LiveServerMessage) (base64Audio : string) (w : World T)
  (ctx : AudioContext T) (gain : nat) (b : AudioBuffer T) :
  interruptedOf (serverContent m) = true ->
  audioContext (svc w) = Some ctx ->
  outputGain (svc w) = Some gain ->
  decodeAudio base64Audio = Some b ->
  let w' := exec (handleMessage m ;; queueAudioOutput base64Audio) w in
  started (trace w') =
    (started (trace w) ++ [(fresh w, currentTime ctx, b)])%list
  /\ nextStartTime (svc w') = tadd (currentTime ctx) (duration b)
  /\ scheduledSources (svc w') = [{| srcId := fresh w; srcBuffer := b |}].
Proof.
  intros Hi Hc Hg Hd. cbv zeta. unfold handleMessage. rewrite Hi.
  unfold exec, bind. rewrite stopAll_spec. unfold assign. simpl.
  rewrite Hc.
  match goal with
  | |- context [queueAudioOutput base64Audio ?u] =>
      rewrite (queue_decoded base64Audio u ctx gain b Hc Hg Hd)
  end.
  simpl. unfold snapped. simpl.
  assert (Hst : forall l : list (SourceNode T),
             started (map (fun source : SourceNode T =>
                             @SourceStop T (srcId source)) l) = []).
  { induction l; simpl; auto. }
  rewrite !started_app, Hst. simpl.
  destruct (tltb (currentTime ctx) (currentTime ctx));
    rewrite app_nil_r; auto.
Qed.

(** ** What handling a message can and cannot do *)

Lemma sameSession_trans (s1 s2 s3 : Service T) :
  sameSession s1 s2 -> sameSession s2 s3 -> sameSession s1 s3.
Proof.
  unfold sameSession.
  intros (A1 & A2 & A3 & A4 & A5 & A6 & A7 & A8 & A9)
         (B1 & B2 & B3 & B4 & B5 & B6 & B7 & B8 & B9).
  repeat split; congruence.
Qed.

Lemma contained_refl (w : World T) : contained w w.
Proof.
  split; [repeat split|]. split; [lia|]. exists []. rewrite app_nil_r. auto.
Qed.

Lemma contained_trans (w1 w2 w3 : World T) :
  contained w1 w2 -> contained w2 w3 -> contained w1 w3.
Proof.
  intros (S1 & F1 & a1 & T1 & M1) (S2 & F2 & a2 & T2 & M2).
  split; [eapply sameSession_trans; eassumption|]. split; [lia|].
  exists (a1 ++ a2)%list. rewrite T2, T1, app_assoc, forallb_app, M1, M2.
  auto.
Qed.

Lemma contained_bind {A : Type} (m : M T A) (k : A -> M T unit)
  (w : World T) :
  contained w (exec m w) ->
  (forall a u, contained u (exec (k a) u)) ->
  contained w (exec (x <- m ;; k x) w).
Proof.
  intros Hm Hk. unfold exec, bind in *.
  destruct (m w) as [[a|] u]; simpl in *; [|exact Hm].
  eapply contained_trans; [exact Hm | apply Hk].
Qed.

Lemma contained_bind_progress {A : Type} (m : M T A) (k : A -> M T Progress)
  (w : World T) :
  contained w (exec m w) ->
  (forall a u, contained u (exec (k a) u)) ->
  contained w (exec (x <- m ;; k x) w).
Proof.
  intros Hm Hk. unfold exec, bind in *.
  destruct (m w) as [[a|] u]; simpl in *; [|exact Hm].
  eapply contained_trans; [exact Hm | apply Hk].
Qed.

Lemma queue_contained (base64Audio : string) (w : World T) :
  contained w (exec (queueAudioOutput base64Audio) w).
Proof.
  destruct (hasSink (svc w)) eqn:Hs.
  - destruct (hasSink_inv _ Hs) as (ctx & gain & Hc & Hg).
    destruct (decodeAudio base64Audio) as [b|] eqn:Hd; unfold exec.
    + rewrite (queue_decoded _ _ _ _ _ Hc Hg Hd). simpl.
      split; [repeat split|]. split; [simpl; lia|]. simpl. eauto.
    + rewrite (queue_undecodable _ _ Hs Hd). simpl.
      split; [repeat split|]. split; [simpl; lia|]. simpl. eauto.
  - unfold exec. rewrite (queue_without_sink _ _ Hs). apply contained_refl.
Qed.

(** The body after the [await], in whatever state the service is by
    then. *)
Lemma queueAfterAwait_contained (base64Audio : string) (w : World T) :
  contained w (exec (queueAudioOutputAfterAwait base64Audio) w).
Proof.
  unfold queueAudioOutputAfterAwait, decode, readCurrentTime, readOutputGain.
  unfold contained. unfold_monad.
  destruct (decodeAudio base64Audio) as [b|]; simpl;
    [|split; [repeat split|]; split; [lia|]; eauto].
  destruct (audioContext (svc w)) as [ctx|]; simpl;
    [|split; [repeat split|]; split; [lia|]; eauto].
  destruct (tltb (nextStartTime (svc w)) (currentTime ctx)); simpl;
    destruct (outputGain (svc w)) as [gain|]; simpl;
    (split; [repeat split|]); (split; [lia|]);
    rewrite <- ?app_assoc; simpl; eauto.
Qed.

Lemma queueParts_contained (ps : list Part) (w : World T) :
  contained w (exec (forEach ps queuePart) w).
Proof.
  rewrite (proj1 (queueParts_as_run ps w)).
  generalize (audioPayloads ps). intros l. revert w.
  induction l as [|b l IH]; intros w; [apply contained_refl|].
  cbn [map]. rewrite runScheduler_cons. cbn [schedulerStep].
  eapply contained_trans; [apply queue_contained | apply IH].
Qed.

Lemma handleText_contained (sc : option ServerContent) (u : World T) :
  contained u (exec (handleText sc) u).
Proof.
  unfold contained, handleText, appendInput, appendOutput, dispatchTurns.
  destruct (inputFragmentOf sc), (outputFragmentOf sc), (turnCompleteOf sc);
    unfold_monad; simpl;
    repeat match goal with
      | |- context [if truthy (trim ?x) then _ else _] =>
          destruct (truthy (trim x)); simpl
      end;
    (split; [repeat split|]; split; [lia|];
     rewrite <- ?app_assoc; simpl;
     first [ exists []; rewrite app_nil_r; split; reflexivity
           | eexists; split; [reflexivity|reflexivity] ]).
Qed.

Lemma interruption_contained (w : World T) :
  contained w
    (exec (stopAllScheduledAudio ;; assign (set_currentOutputTranscription ""))
       w).
Proof.
  unfold exec, bind. rewrite stopAll_spec. unfold assign. simpl.
  split; [destruct (audioContext (svc w)); repeat split|].
  split; [simpl; lia|]. simpl. eexists. split; [reflexivity|].
  induction (scheduledSources (svc w)); simpl; auto.
Qed.

Lemma handleParts_contained (ps : list Part) (sc : option ServerContent)
  (w : World T) :
  contained w (exec (handleParts ps sc) w).
Proof.
  induction ps as [|part ps IH]; cbn [handleParts].
  - apply contained_bind_progress; [apply handleText_contained|].
    intros a u. apply contained_refl.
  - destruct (inlineData part) as [blob|]; [|exact IH].
    destruct (mimeType blob) as [type|]; [|apply contained_refl].
    destruct (startsWith "audio/pcm" type); [apply contained_refl | exact IH].
Qed.

Lemma handleMessage_contained (m : LiveServerMessage) (w : World T) :
  contained w (exec (handleMessage m) w).
Proof.
  destruct (interruptedOf (serverContent m)) eqn:Hi.
  - unfold handleMessage. rewrite Hi. apply interruption_contained.
  - rewrite (exec_handleMessage m w Hi).
    destruct (wellTyped m); [|apply queueParts_contained].
    eapply contained_trans;
      [apply queueParts_contained | apply handleText_contained].
Qed.

Lemma handleInTurn_contained (ms : list LiveServerMessage) (w : World T) :
  contained w (exec (handleInTurn ms) w).
Proof.
  unfold handleInTurn. revert w.
  induction ms as [|m ms IH]; intros w; [apply contained_refl|].
  rewrite exec_forEach_cons by apply neverThrows_message.
  eapply contained_trans; [|apply IH].
  rewrite exec_tryCatch_ret. apply handleMessage_contained.
Qed.

(** Property X7.  Handling a message, whatever it carries and whether
    the handler gets to its end or throws, cannot disturb the session:
    the session promise, both audio contexts, the capture nodes, the
    stream, the gain, the analyser and the connection flag stay as they
    are, and the only calls made are wiring, starting and stopping
    source nodes, the decode log and the transcript callback; nothing is
    transmitted, nothing is closed, and no open, close or error callback
    is made.  This holds of the handler run in one piece and of each of
    its stretches, from whatever world a stretch starts in.  The handler
    does not always complete: inline data without a type makes it
    throw. *)
Theorem message_handling_is_contained (m : LiveServerMessage) (w : World T) :
  contained w (exec (handleMessage m) w)
  /\ contained w (exec (handleMessageUntilAwait m) w)
  /\ (forall k, contained w (exec (resumeMessage k) w))
  /\ (forall p, contained w (exec (runToEnd p) w))
  /\ (interruptedOf (serverContent m) = false -> wellTyped m = false ->
      completion (handleMessage m) w = Thrown).
Proof.
  assert (Hrest : forall k u,
            contained u
              (exec (match decoding k with
                     | Some base64Audio =>
                         queueAudioOutputAfterAwait base64Audio
                     | None => ret tt
                     end) u)).
  { intros k u. destruct (decoding k);
      [apply queueAfterAwait_contained | apply contained_refl]. }
  split; [|split; [|split; [|split]]].
  - apply handleMessage_contained.
  - unfold handleMessageUntilAwait.
    destruct (interruptedOf (serverContent m)).
    + pose proof (interruption_contained w) as H.
      unfold exec, bind in *. rewrite stopAll_spec in *.
      unfold assign, ret in *. simpl in *. exact H.
    + apply handleParts_contained.
  - intros k. unfold resumeMessage.
    apply contained_bind_progress; [apply Hrest|].
    intros a u. apply handleParts_contained.
  - intros [|k]; [apply contained_refl|]. cbn [runToEnd].
    apply contained_bind; [apply Hrest|]. intros a u.
    apply contained_bind; [apply queueParts_contained|]. intros a' u'.
    apply handleText_contained.
  - intros Hi Ht. apply text_after_throw; assumption.
Qed.

(** ** Connecting *)

Lemma connectSetup_spec (settle : Settlement) (w : World T) :
  connectSetup settle w =
    (Normal tt,
     {| svc :=
          set_outputAnalyser (Some (fresh w + 3))
            (set_outputGain (Some (fresh w + 2))
               (set_inputAudioContext (Some (newContext (fresh w + 1)))
                  (set_audioContext (Some (newContext (fresh w)))
                     (set_currentOutputTranscription ""
                        (set_currentInputTranscription ""
                           (released (svc w)))))));
        trace := trace (exec (disconnect settle) w)
                   ++ [Connect (fresh w + 2) (ToNode (fresh w + 3));
                       Connect (fresh w + 3) (ToDestination (fresh w))];
        fresh := fresh w + 4 |}).
Proof.
  destruct (disconnect_general settle w) as (added & Hrun & _).
  unfold connectSetup, exec. unfold bind at 1. rewrite Hrun.
  unfold newContext.
  replace (fresh w + 4) with (S (S (S (S (fresh w))))) by lia.
  replace (fresh w + 1) with (S (fresh w)) by lia.
  replace (fresh w + 2) with (S (S (fresh w))) by lia.
  replace (fresh w + 3) with (S (S (S (fresh w)))) by lia.
  cbv [bind ret assign emit newObject svc trace fresh snd].
  rewrite <- !app_assoc. reflexivity.
Qed.

Lemma connectFailed_spec (w : World T) :
  connectFailed w =
    (Normal tt,
     {| svc := released (svc w);
        trace := (trace w ++ [ConsoleError "Setup error"; OnError])
                   ++ cleanupCalls (svc w);
        fresh := fresh w |}).
Proof.
  unfold connectFailed. unfold bind, emit. rewrite cleanup_spec. simpl.
  rewrite <- !app_assoc. reflexivity.
Qed.

Lemma connect_granted_spec (settle : Settlement) (mic : MediaStream)
  (w : World T) :
  connect settle (Some mic) w =
    (Normal tt,
     {| svc := connectingService mic (fresh w);
        trace := trace (exec (disconnect settle) w)
                   ++ [Connect (fresh w + 2) (ToNode (fresh w + 3));
                       Connect (fresh w + 3) (ToDestination (fresh w))];
        fresh := fresh w + 5 |}).
Proof.
  unfold connect, tryCatch. unfold bind at 1. rewrite connectSetup_spec.
  unfold connectOpen, bind, assign, newObject, connectingService.
  cbn [svc trace fresh fst snd].
  replace (fresh w + 4 + 1) with (fresh w + 5) by lia.
  replace (S (fresh w + 4)) with (fresh w + 5) by lia.
  reflexivity.
Qed.

Lemma connect_denied_spec (settle : Settlement) (w : World T) :
  connect settle None w =
    (Normal tt,
     {| svc := newService;
        trace := (trace (exec (disconnect settle) w)
                    ++ [Connect (fresh w + 2) (ToNode (fresh w + 3));
                        Connect (fresh w + 3) (ToDestination (fresh w));
                        ConsoleError "Setup error"; OnError; CleanupEntered])
                   ++ closeCalls (Some (newContext (fresh w + 1)))
                   ++ closeCalls (Some (newContext (fresh w)));
        fresh := fresh w + 4 |}).
Proof.
  unfold connect, tryCatch. unfold bind at 1. rewrite connectSetup_spec.
  unfold connectOpen, throw. rewrite connectFailed_spec.
  cbn [svc trace fresh].
  unfold cleanupCalls. cbn.
  rewrite <- !app_assoc. reflexivity.
Qed.

(** [connect] is its first part followed by its second. *)
Lemma connect_in_pieces (settle : Settlement) (mic : option MediaStream)
  (w : World T) :
  connect settle mic w = (connectSetup settle ;; connectResume mic) w.
Proof.
  unfold connect, connectResume, tryCatch, bind.
  rewrite connectSetup_spec. reflexivity.
Qed.



Lemma captureFrame_active (session : Session) (inputData : list T)
  (w : World T) :
  isConnected (svc w) = true ->
  sessionPromise (svc w) <> None ->
  captureFrame session inputData w =
    (Normal tt,
     {| svc := svc w;
        trace := trace w ++ [SendRealtimeInput "audio/pcm;rate=16000"
                               (encodeFrame inputData)];
        fresh := fresh w |}).
Proof.
  intros Hi Hp. unfold captureFrame, onaudioprocess, sendChunk. unfold_monad.
  rewrite Hi. destruct (sessionPromise (svc w)); [|congruence]. simpl.
  rewrite Hi. destruct (sendThrows (sessionId session)); reflexivity.
Qed.


Theorem frames_are_sent_in_order (session : Session)
  (frames : list (list T)) (w : World T) :
  isConnected (svc w) = true ->
  sessionPromise (svc w) <> None ->
  let w' := exec (forEach frames (captureFrame session)) w in
  completion (forEach frames (captureFrame session)) w = Normal tt
  /\ svc w' = svc w
  /\ trace w' =
     (trace w ++ map (fun inputData =>
                        SendRealtimeInput "audio/pcm;rate=16000"
                          (encodeFrame inputData)) frames)%list
  /\ sent (trace w') = (sent (trace w) ++ map encodeFrame frames)%list
  /\ errorNotifications (trace w') = errorNotifications (trace w).
Proof.
  intros Hi Hp. cbv zeta.
  assert (Hrun : forall u : World T,
             svc u = svc w ->
             forEach frames (captureFrame session) u =
               (Normal tt,
                {| svc := svc u;
                   trace := trace u
                     ++ map (fun inputData =>
                               SendRealtimeInput "audio/pcm;rate=16000"
                                 (encodeFrame inputData)) frames;
                   fresh := fresh u |})).
  { induction frames as [|f frames IH]; intros u Hu; simpl.
    - rewrite app_nil_r. destruct u; reflexivity.
    - unfold bind. rewrite captureFrame_active by (rewrite Hu; assumption).
      rewrite IH by exact Hu. simpl. rewrite <- app_assoc. reflexivity. }
  unfold completion, exec. rewrite (Hrun w eq_refl). simpl.
  repeat (split; [reflexivity|]).
  rewrite sent_app, errorNotifications_app.
  assert (Hs : forall l : list (list T),
             sent (map (fun inputData : list T =>
                          @SendRealtimeInput T "audio/pcm;rate=16000"
                            (encodeFrame inputData)) l)
             = map encodeFrame l)
    by (induction l; simpl; congruence).
  assert (He : forall l : list (list T),
             errorNotifications
               (map (fun inputData : list T =>
                       @SendRealtimeInput T "audio/pcm;rate=16000"
                         (encodeFrame inputData)) l) = 0)
    by (induction l; simpl; auto).
  rewrite Hs, He. split; [reflexivity | lia].
Qed.

(** Property X15.  An open event that arrives after the teardown marks
    the service connected and invokes the open callback, but it creates
    and wires no capture node; and because the session promise is gone,
    a frame captured afterwards is still dropped. *)
Theorem late_open_after_teardown (session : Session) (inputData : list T)
  (w : World T) :
  let u := exec (cleanup ;; onopen) w in
  trace u = (trace (exec cleanup w) ++ [OnOpen])%list
  /\ isConnected (svc u) = true
  /\ inputSource (svc u) = None
  /\ processor (svc u) = None
  /\ fresh u = fresh w
  /\ captureFrame session inputData u = (Normal tt, u).
Proof.
  cbv zeta. unfold exec, bind. rewrite cleanup_spec, onopen_spec. simpl.
  repeat (split; [reflexivity|]).
  unfold captureFrame, onaudioprocess. unfold_monad. reflexivity.
Qed.

(** Property X16.  A transport error followed by the close event that
    usually comes with it invokes the error callback once and the close
    callback once, each before the cleanup that follows it.  When the
    cleanup started by the error callback has run to its end before the
    close event arrives, it has released everything and the second
    cleanup makes no call.  When the close event arrives while that
    cleanup still waits for the input context to close, the callbacks
    are invoked once each all the same and the service ends released,
    but the second cleanup finds both context fields still set and calls
    [close()] on the input context again and on the output context. *)
Theorem error_then_close_notifies_each_once (w : World T) :
  let w' := exec (onerror ;; onclose) w in
  let v := exec (onerrorUntilAwait ;; onclose ;; cleanupAfterAwait) w in
  (completion (onerror ;; onclose) w = Normal tt
   /\ svc w' = released (svc w)
   /\ trace w' =
      (trace w ++ [ConsoleError "Session error"; OnError]
         ++ cleanupCalls (svc w)
         ++ [ConsoleLog "Session closed"; OnClose; CleanupEntered])%list
   /\ errorNotifications (trace w') = errorNotifications (trace w) + 1
   /\ closeNotifications (trace w') = closeNotifications (trace w) + 1)
  /\ (forall ctx,
        inputAudioContext (svc w) = Some ctx ->
        isClosed (ctxState ctx) = false ->
        svc v = released (svc w)
        /\ trace v =
           (trace (exec onerrorUntilAwait w)
              ++ [ConsoleLog "Session closed"; OnClose; CleanupEntered;
                  ContextClose (ctxId ctx)]
              ++ closeCalls (audioContext (svc w)))%list
        /\ errorNotifications (trace v) = errorNotifications (trace w) + 1
        /\ closeNotifications (trace v) = closeNotifications (trace w) + 1
        /\ cleanupRuns (trace v) = cleanupRuns (trace w) + 2).
Proof.
  cbv zeta. split.
  - assert (Hrun : (onerror ;; onclose) w =
                   (Normal tt,
                    {| svc := released (svc w);
                       trace := trace w
                                  ++ [ConsoleError "Session error"; OnError]
                                  ++ cleanupCalls (svc w)
                                  ++ [ConsoleLog "Session closed"; OnClose;
                                      CleanupEntered];
                       fresh := fresh w |})).
    { unfold bind at 1. rewrite onerror_spec.
      unfold onclose, bind, emit, assign. rewrite cleanup_spec.
      cbn [fst snd svc trace fresh].
      change (cleanupCalls (set_isConnected false (released (svc w))))
        with [@CleanupEntered T].
      rewrite <- !app_assoc. reflexivity. }
    unfold completion, exec. rewrite Hrun. cbn [fst snd svc trace].
    split; [reflexivity|]. split; [reflexivity|]. split; [reflexivity|].
    rewrite !errorNotifications_app, !closeNotifications_app,
      errorNotifications_cleanupCalls, closeNotifications_cleanupCalls.
    simpl. split; lia.
  - intros ctx Hin Hopen.
    assert (Hfirst : exists added,
              onerrorUntilAwait w =
                (Normal tt,
                 {| svc := set_inputSource None
                             (set_processor None
                                (set_stream None
                                   (set_isConnected false (svc w))));
                    trace := (trace w ++ [ConsoleError "Session error"; OnError;
                                          CleanupEntered]) ++ added;
                    fresh := fresh w |})
              /\ errorNotifications added = 0 /\ cleanupRuns added = 0
              /\ closeNotifications added = 0).
    { unfold onerrorUntilAwait, bind, emit, assign. cbn [svc trace fresh].
      match goal with
      | |- context [cleanupUntilAwait ?x] =>
          destruct (cleanupUntilAwait_calls x)
            as (added & Hspec & He & Hc & _ & _ & Hn)
      end.
      exists added. rewrite Hspec. cbn [svc trace fresh].
      rewrite <- !app_assoc. auto. }
    destruct Hfirst as (added & Hfirst & He & Hc & Hn).
    assert (Hv : exec (onerrorUntilAwait ;; onclose ;; cleanupAfterAwait) w =
                 {| svc := released (svc w);
                    trace := trace (exec onerrorUntilAwait w)
                               ++ [ConsoleLog "Session closed"; OnClose;
                                   CleanupEntered; ContextClose (ctxId ctx)]
                               ++ closeCalls (audioContext (svc w));
                    fresh := fresh w |}).
    { unfold exec. unfold bind at 1. rewrite Hfirst.
      unfold bind at 1. unfold onclose. unfold bind at 1. unfold emit at 1.
      unfold bind at 1. unfold assign at 1. unfold bind at 1.
      unfold emit at 1. cbn [svc trace fresh]. rewrite cleanup_spec.
      cbn [svc trace fresh].
      unfold cleanupAfterAwait, closeContext.
      unfold_monad. cbn [svc trace fresh snd].
      unfold cleanupCalls, closeCalls, released. cbn.
      rewrite Hin, Hopen. cbn.
      destruct (audioContext (svc w)) as [[i2 [] c2]|]; cbn;
        rewrite <- ?app_assoc; reflexivity. }
    rewrite Hv. cbn [svc trace]. unfold exec. rewrite Hfirst. cbn [snd trace].
    split; [reflexivity|]. split; [reflexivity|].
    assert (Hq : errorNotifications (closeCalls (audioContext (svc w))) = 0
                 /\ cleanupRuns (closeCalls (audioContext (svc w))) = 0
                 /\ closeNotifications (closeCalls (audioContext (svc w))) = 0).
    { destruct (audioContext (svc w)) as [[i [] c]|]; simpl; auto. }
    destruct Hq as (Q1 & Q2 & Q3).
    rewrite !errorNotifications_app, !closeNotifications_app,
      !cleanupRuns_app, He, Hc, Hn, Q1, Q2, Q3. simpl.
    repeat split; lia.
Qed.

(** ** The events of one message, and transcripts across several
       messages *)

Lemma text_after_interruption (m : LiveServerMessage) (w : World T) :
  interruptedOf (serverContent m) = true ->
  let w' := exec (handleMessage m) w in
  completion (handleMessage m) w = Normal tt
  /\ transcripts (trace w') = transcripts (trace w)
  /\ currentInputTranscription (svc w') = currentInputTranscription (svc w)
  /\ currentOutputTranscription (svc w') = "".
Proof.
  intros Hi. cbv zeta. unfold completion, exec, handleMessage. rewrite Hi.
  unfold bind. rewrite stopAll_spec. unfold assign. simpl.
  rewrite transcripts_app.
  assert (Hn : forall l : list (SourceNode T),
             transcripts (map (fun source : SourceNode T =>
                                 @SourceStop T (srcId source)) l) = [])
    by (induction l; simpl; auto).
  rewrite Hn, app_nil_r.
  destruct (audioContext (svc w)); auto.
Qed.

Lemma fragments_run (ms : list LiveServerMessage) (w : World T) :
  Forall betweenTurns ms ->
  let u := exec (forEach ms handleMessage) w in
  completion (forEach ms handleMessage) w = Normal tt
  /\ transcripts (trace u) = transcripts (trace w)
  /\ currentInputTranscription (svc u) =
     accumulated (currentInputTranscription (svc w))
       (map (fun m => inputFragmentOf (serverContent m)) ms)
  /\ currentOutputTranscription (svc u) =
     accumulated (currentOutputTranscription (svc w))
       (map (fun m => outputFragmentOf (serverContent m)) ms).
Proof.
  intros Hms. cbv zeta. revert w.
  induction Hms as [|m ms (Hmi & Hmt & Hmw) _ IH]; intros w.
  - simpl. auto.
  - destruct (text_after_message m w Hmi Hmw) as (Hn & Hm).
    cbv zeta in Hm. rewrite Hmt in Hm. destruct Hm as (B1 & B2 & B3).
    destruct (IH (exec (handleMessage m) w)) as (A0 & A1 & A2 & A3).
    cbn [forEach]. unfold completion, exec in *. unfold bind.
    rewrite (completion_exec _ _ Hn). unfold exec.
    rewrite A0, A1, A2, A3, B1, B2, B3. simpl. auto.
Qed.

(** A message without an audio part is handled in one stretch. *)
Lemma one_stretch (m : LiveServerMessage) (w : World T) :
  interruptedOf (serverContent m) = false ->
  wellTyped m = true ->
  hasAudio m = false ->
  handleMessageUntilAwait m w = (handleMessage m ;; ret Finished) w.
Proof.
  intros Hi Ht Ha. unfold handleMessageUntilAwait. rewrite Hi.
  assert (Hp : audioPayloads (partsOf (serverContent m)) = []).
  { unfold hasAudio in Ha.
    destruct (audioPayloads (partsOf (serverContent m)));
      [reflexivity | discriminate]. }
  destruct (handleParts_no_audio (partsOf (serverContent m))
              (serverContent m) w Hp Ht) as (Hrun & Hloop).
  rewrite Hrun. unfold bind. rewrite (handleMessage_cases m w Hi), Ht.
  unfold exec. rewrite Hloop. reflexivity.
Qed.

Lemma hasSink_contained (w u : World T) :
  contained w u -> hasSink (svc u) = hasSink (svc w).
Proof.
  intros ((_ & Ha & _ & _ & _ & _ & Hg & _) & _).
  unfold hasSink. rewrite Ha, Hg. reflexivity.
Qed.

(** A message whose handler waits for its first decode while later
    messages are handled takes effect after them, audio and text
    alike. *)
Lemma overtaken_as_later (m : LiveServerMessage)
  (laters : list LiveServerMessage) (w : World T) :
  interruptedOf (serverContent m) = false ->
  hasAudio m = true ->
  overtaken m laters w = (handleInTurn laters ;; handleMessage m) w.
Proof.
  intros Hi Ha. unfold hasAudio in Ha.
  destruct (audioPayloads (partsOf (serverContent m))) as [|b l] eqn:Hp;
    [discriminate Ha|].
  destruct (handleParts_first_audio (T:=T) _ (serverContent m) b l Hp)
    as (rest & _ & Hfirst).
  assert (Hn : neverThrows (handleInTurn laters))
    by (apply neverThrows_forEach; intros x; apply neverThrows_message).
  unfold overtaken, handleMessageUntilAwait. rewrite Hi.
  unfold bind at 1. rewrite Hfirst.
  unfold bind at 1 2. rewrite (completion_exec _ _ (Hn w)).
  rewrite handleMessage_in_pieces. unfold handleMessageUntilAwait.
  rewrite Hi. unfold bind. rewrite Hfirst.
  rewrite (hasSink_contained _ _ (handleInTurn_contained laters w)).
  reflexivity.
Qed.

(** Claim C5, as the code has it.  The events of one message are not
    handled independently of one another.  A message with the
    interruption signal is handled exactly as the interruption alone:
    everything else it carries is ignored.  In a message without the
    signal, inline data without a type makes the handler throw at that
    part, and neither fragment is accumulated and no turn is dispatched.
    Otherwise every event is handled: the audio parts are enqueued in
    order, both fragments are appended, and the turn is dispatched if
    the signal is there; but the audio comes first and the handler waits
    for it, so that the first stretch of a message with an audio part
    ends before anything has been done, with the fragments and the turn
    boundary still to come; when later messages are handled during that
    wait, the message takes effect as if it had arrived after them. *)
Theorem events_of_one_message (m : LiveServerMessage) (w : World T) :
  let sc := serverContent m in
  let w' := exec (handleMessage m) w in
  (interruptedOf sc = true ->
   handleMessage m w = handleMessage (onlyInterrupted m) w)
  /\ (interruptedOf sc = false -> wellTyped m = false ->
      completion (handleMessage m) w = Thrown
      /\ transcripts (trace w') = transcripts (trace w)
      /\ currentInputTranscription (svc w') = currentInputTranscription (svc w)
      /\ currentOutputTranscription (svc w') =
         currentOutputTranscription (svc w))
  /\ (interruptedOf sc = false -> wellTyped m = true ->
      let v := exec (runScheduler (map Enqueue (audioPayloads (partsOf sc)))) w in
      let inputText :=
        accumulate (currentInputTranscription (svc w)) (inputFragmentOf sc) in
      let outputText :=
        accumulate (currentOutputTranscription (svc w)) (outputFragmentOf sc) in
      completion (handleMessage m) w = Normal tt
      /\ started (trace w') = started (trace v)
      /\ nextStartTime (svc w') = nextStartTime (svc v)
      /\ scheduledSources (svc w') = scheduledSources (svc v)
      /\ if turnCompleteOf sc then
           transcripts (trace w') =
             (transcripts (trace w) ++ flushed inputText user
                ++ flushed outputText model)%list
           /\ currentInputTranscription (svc w') = afterFlush inputText
           /\ currentOutputTranscription (svc w') = afterFlush outputText
         else
           transcripts (trace w') = transcripts (trace w)
           /\ currentInputTranscription (svc w') = inputText
           /\ currentOutputTranscription (svc w') = outputText)
  /\ (interruptedOf sc = false -> hasAudio m = true ->
      exists k,
        handleMessageUntilAwait m w = (Normal (Awaits k), w)
        /\ content k = sc)
  /\ handleMessage m w = (p <- handleMessageUntilAwait m ;; runToEnd p) w
  /\ (forall laters,
        interruptedOf sc = false -> hasAudio m = true ->
        overtaken m laters w = (handleInTurn laters ;; handleMessage m) w).
Proof.
  cbv zeta. split; [|split; [|split; [|split; [|split]]]].
  - intros Hi. unfold handleMessage.
    destruct m as [[c|]]; simpl in *; [|discriminate Hi].
    rewrite Hi. reflexivity.
  - intros Hi Ht. apply text_after_throw; assumption.
  - intros Hi Ht.
    destruct (text_after_message m w Hi Ht) as [Hn Htext].
    split; [exact Hn|].
    assert (Hplay :
      started (trace (exec (handleMessage m) w)) =
        started (trace (exec (runScheduler
          (map Enqueue (audioPayloads (partsOf (serverContent m))))) w))
      /\ nextStartTime (svc (exec (handleMessage m) w)) =
         nextStartTime (svc (exec (runScheduler
           (map Enqueue (audioPayloads (partsOf (serverContent m))))) w))
      /\ scheduledSources (svc (exec (handleMessage m) w)) =
         scheduledSources (svc (exec (runScheduler
           (map Enqueue (audioPayloads (partsOf (serverContent m))))) w))).
    { unfold exec at 1 3 5. rewrite (handleMessage_cases m w Hi), Ht.
      rewrite <- (proj1 (queueParts_as_run (partsOf (serverContent m)) w)).
      destruct (handleText_keeps_playback (serverContent m)
                  (exec (forEach (partsOf (serverContent m)) queuePart) w))
        as (P1 & P2 & P3 & _).
      auto. }
    destruct Hplay as (P1 & P2 & P3).
    split; [exact P1|]. split; [exact P2|]. split; [exact P3|].
    exact Htext.
  - intros Hi Ha. unfold handleMessageUntilAwait. rewrite Hi.
    unfold hasAudio in Ha.
    destruct (audioPayloads (partsOf (serverContent m))) as [|b l] eqn:Hp;
      [discriminate Ha|].
    destruct (handleParts_first_audio (T:=T) _ (serverContent m) b l Hp)
      as (rest & _ & Hrun).
    eexists. split; [apply Hrun | reflexivity].
  - apply handleMessage_in_pieces.
  - intros laters. apply overtaken_as_later.
Qed.

(** Property X8.  Between two turn boundaries the accumulators only
    grow.  Over a run of messages that carry neither an interruption nor
    a turn-complete signal, each handled to its end before the next
    arrives, each role's accumulator ends as its old text followed by
    the fragments of that role in arrival order, and no transcript
    callback is made; the turn-complete message that follows dispatches
    exactly that text (with its own fragment appended), the user's turn
    before the model's.  A message without an audio part is always
    handled this way, in one stretch.  A message with an audio part
    waits for the decode before it looks at its fragments: when later
    messages are handled in the meantime, it takes effect as if it had
    arrived after them. *)
Theorem fragments_accumulate_in_arrival_order
  (ms : list LiveServerMessage) (last : LiveServerMessage) (w : World T) :
  Forall betweenTurns ms ->
  interruptedOf (serverContent last) = false ->
  turnCompleteOf (serverContent last) = true ->
  wellTyped last = true ->
  let u := exec (forEach ms handleMessage) w in
  let w' := exec (handleMessage last) u in
  let inputs := map (fun m => inputFragmentOf (serverContent m)) ms in
  let outputs := map (fun m => outputFragmentOf (serverContent m)) ms in
  transcripts (trace u) = transcripts (trace w)
  /\ currentInputTranscription (svc u) =
     accumulated (currentInputTranscription (svc w)) inputs
  /\ currentOutputTranscription (svc u) =
     accumulated (currentOutputTranscription (svc w)) outputs
  /\ transcripts (trace w') =
     (transcripts (trace w)
        ++ flushed
             (accumulated (currentInputTranscription (svc w))
                (inputs ++ [inputFragmentOf (serverContent last)])) user
        ++ flushed
             (accumulated (currentOutputTranscription (svc w))
                (outputs ++ [outputFragmentOf (serverContent last)])) model)%list
  /\ (forall m v,
        interruptedOf (serverContent m) = false ->
        wellTyped m = true ->
        hasAudio m = false ->
        handleMessageUntilAwait m v = (handleMessage m ;; ret Finished) v)
  /\ (forall m laters v,
        interruptedOf (serverContent m) = false ->
        hasAudio m = true ->
        overtaken m laters v = (handleInTurn laters ;; handleMessage m) v).
Proof.
  intros Hms Hi Ht Hw. cbv zeta.
  destruct (fragments_run ms w Hms) as (_ & G1 & G2 & G3).
  cbv zeta in G1, G2, G3.
  repeat (split; [assumption|]).
  split; [|split].
  - destruct (text_after_message last (exec (forEach ms handleMessage) w)
                Hi Hw) as (_ & Hl).
    cbv zeta in Hl. rewrite Ht in Hl. destruct Hl as (L1 & _ & _).
    rewrite L1, G1, G2, G3. unfold accumulated. rewrite !fold_left_app.
    reflexivity.
  - intros m v. apply one_stretch.
  - intros m laters v. apply overtaken_as_later.
Qed.

(** Property X9.  What the model had said before an interruption is
    never dispatched: the interruption empties the model's accumulator
    and keeps the user's.  At the next turn boundary the user's turn is
    the text accumulated across the interruption, and the model's turn
    is made of the fragments handled after the interruption only.
    These include the fragment of a message that arrived before the
    interruption when its handler was still waiting for a decode: it is
    appended after the interruption has emptied the accumulator. *)
Theorem interrupted_model_text_is_never_dispatched
  (m : LiveServerMessage) (ms : list LiveServerMessage)
  (last : LiveServerMessage) (w : World T) :
  interruptedOf (serverContent m) = true ->
  Forall betweenTurns ms ->
  interruptedOf (serverContent last) = false ->
  turnCompleteOf (serverContent last) = true ->
  wellTyped last = true ->
  let u := exec (handleMessage m) w in
  let w' :=
    exec (handleMessage m ;; forEach ms handleMessage ;; handleMessage last)
      w in
  let inputs :=
    (map (fun m => inputFragmentOf (serverContent m)) ms
       ++ [inputFragmentOf (serverContent last)])%list in
  let outputs :=
    (map (fun m => outputFragmentOf (serverContent m)) ms
       ++ [outputFragmentOf (serverContent last)])%list in
  currentInputTranscription (svc u) = currentInputTranscription (svc w)
  /\ currentOutputTranscription (svc u) = ""
  /\ transcripts (trace u) = transcripts (trace w)
  /\ transcripts (trace w') =
     (transcripts (trace w)
        ++ flushed (accumulated (currentInputTranscription (svc w)) inputs)
             user
        ++ flushed (accumulated "" outputs) model)%list
  /\ (forall earlier,
        betweenTurns earlier ->
        hasAudio earlier = true ->
        currentOutputTranscription (svc (exec (overtaken earlier [m]) w)) =
        accumulate "" (outputFragmentOf (serverContent earlier))).
Proof.
  intros Hm Hms Hi Ht Hw. cbv zeta.
  destruct (text_after_interruption m w Hm) as (A0 & A1 & A2 & A3).
  cbv zeta in A1, A2, A3.
  split; [exact A2|]. split; [exact A3|]. split; [exact A1|]. split.
  - unfold exec at 1. unfold bind at 1. rewrite (completion_exec _ _ A0).
    destruct (fragments_run ms (exec (handleMessage m) w) Hms)
      as (G0 & G1 & G2 & G3). cbv zeta in G1, G2, G3.
    unfold bind at 1. rewrite (completion_exec _ _ G0).
    destruct (text_after_message last
                (exec (forEach ms handleMessage) (exec (handleMessage m) w))
                Hi Hw) as (_ & Hl).
    cbv zeta in Hl. rewrite Ht in Hl. destruct Hl as (L1 & _ & _).
    unfold exec in L1 |- *. rewrite L1.
    unfold exec in G1, G2, G3, A1, A2, A3.
    rewrite G1, G2, G3, A1, A2, A3.
    unfold accumulated. rewrite !fold_left_app. reflexivity.
  - intros earlier (Ei & Et & Ew) Ea.
    unfold exec at 1. rewrite (overtaken_as_later earlier [m] w Ei Ea).
    assert (Hone : handleInTurn [m] w = (Normal tt, exec (handleMessage m) w)).
    { unfold handleInTurn. cbn [forEach]. unfold bind, tryCatch, ret.
      rewrite (completion_exec _ _ A0). reflexivity. }
    unfold bind. rewrite Hone.
    destruct (text_after_message earlier (exec (handleMessage m) w) Ei Ew)
      as (_ & He).
    cbv zeta in He. rewrite Et in He. destruct He as (_ & _ & E3).
    unfold exec in E3 |- *. rewrite E3.
    unfold exec in A3. rewrite A3. reflexivity.
Qed.

Lemma transcripts_closeCalls (o : option (AudioContext T)) :
  transcripts (closeCalls o) = [].
Proof. destruct o as [[i [] c]|]; reflexivity. Qed.

Lemma transcripts_after_connect (settle : Settlement)
  (mic : option MediaStream) (w : World T) :
  let c := exec (connect settle mic) w in
  completion (connect settle mic) w = Normal tt
  /\ transcripts (trace c) = transcripts (trace w)
  /\ currentInputTranscription (svc c) = ""
  /\ currentOutputTranscription (svc c) = "".
Proof.
  cbv zeta.
  destruct (disconnect_general settle w) as (added & Hrun & Hq & _).
  unfold completion, exec. destruct mic as [st|].
  - rewrite connect_granted_spec. unfold exec. rewrite Hrun.
    cbn [fst snd svc trace currentInputTranscription
         currentOutputTranscription connectingService].
    rewrite !transcripts_app, Hq. simpl. rewrite !app_nil_r. auto.
  - rewrite connect_denied_spec. unfold exec. rewrite Hrun.
    cbn [fst snd svc trace currentInputTranscription
         currentOutputTranscription newService].
    rewrite !transcripts_app, Hq, !transcripts_closeCalls. simpl.
    rewrite !app_nil_r. auto.
Qed.

(** Property X10.  Teardown does not touch the transcript accumulators,
    and the message handler does not look at the connection state: a
    turn-complete message handled after [disconnect] still dispatches
    the text accumulated before it.  It is [connect] that empties the
    accumulators: after a [connect], whether or not it gets the
    microphone, a bare turn-complete message dispatches nothing.  This
    is so of a message that its handler handles to the end; one with
    inline data that carry no type makes the handler throw before the
    turn boundary, and dispatches nothing in either case. *)
Theorem accumulated_text_survives_teardown
  (settle : Settlement) (mic : option MediaStream) (last : LiveServerMessage)
  (w : World T) :
  interruptedOf (serverContent last) = false ->
  turnCompleteOf (serverContent last) = true ->
  let afterDisconnect :=
    transcripts (trace (exec (disconnect settle ;; handleMessage last) w)) in
  let afterConnect :=
    transcripts (trace (exec (connect settle mic ;; handleMessage last) w)) in
  if wellTyped last then
    afterDisconnect =
      (transcripts (trace w)
         ++ flushed (accumulate (currentInputTranscription (svc w))
                       (inputFragmentOf (serverContent last))) user
         ++ flushed (accumulate (currentOutputTranscription (svc w))
                       (outputFragmentOf (serverContent last))) model)%list
    /\ (inputFragmentOf (serverContent last) = None ->
        outputFragmentOf (serverContent last) = None ->
        afterConnect = transcripts (trace w))
  else
    afterDisconnect = transcripts (trace w)
    /\ afterConnect = transcripts (trace w).
Proof.
  intros Hi Ht. cbv zeta.
  destruct (disconnect_general settle w) as (added & Hrun & Hq & _).
  destruct (transcripts_after_connect settle mic w) as (C0 & C1 & C2 & C3).
  cbv zeta in C1, C2, C3.
  assert (Hd : exec (disconnect settle ;; handleMessage last) w =
               exec (handleMessage last)
                 {| svc := released (svc w);
                    trace := trace w ++ added;
                    fresh := fresh w |}).
  { unfold exec at 1. unfold bind. rewrite Hrun. reflexivity. }
  assert (Hc : exec (connect settle mic ;; handleMessage last) w =
               exec (handleMessage last) (exec (connect settle mic) w)).
  { unfold exec at 1. unfold bind. rewrite (completion_exec _ _ C0).
    reflexivity. }
  rewrite Hd, Hc.
  destruct (wellTyped last) eqn:Hw.
  - split.
    + destruct (text_after_message last
                  {| svc := released (svc w);
                     trace := trace w ++ added;
                     fresh := fresh w |} Hi Hw) as (_ & Hl).
      cbv zeta in Hl. rewrite Ht in Hl. destruct Hl as (L1 & _ & _).
      rewrite L1. simpl.
      rewrite !transcripts_app, Hq, !app_nil_r. reflexivity.
    + intros Hin Hout.
      destruct (text_after_message last (exec (connect settle mic) w) Hi Hw)
        as (_ & Hl).
      cbv zeta in Hl. rewrite Ht, Hin, Hout, C1, C2, C3 in Hl.
      destruct Hl as (L1 & _ & _). rewrite L1. simpl.
      rewrite !app_nil_r. reflexivity.
  - split.
    + destruct (text_after_throw last
                  {| svc := released (svc w);
                     trace := trace w ++ added;
                     fresh := fresh w |} Hi Hw) as (_ & L1 & _).
      cbv zeta in L1. rewrite L1. cbn [trace].
      rewrite transcripts_app, Hq, app_nil_r. reflexivity.
    + destruct (text_after_throw last (exec (connect settle mic) w) Hi Hw)
        as (_ & L1 & _).
      cbv zeta in L1. rewrite L1. exact C1.
Qed.

(** ** What reaches the scheduler, and what a late rejection does *)

(** Property X18.  Of the parts of a message without interruption, only
    those with inline data tagged [audio/pcm] reach the scheduler, in
    the order of the message: what the sink is handed, the cursor and
    the scheduled set are those of the scheduler run that enqueues
    exactly these payloads; parts without inline data or of another
    type are skipped, and fragments and turn boundaries in the same
    message have no effect on playback. *)
Theorem only_audio_parts_are_enqueued (m : LiveServerMessage) (w : World T) :
  interruptedOf (serverContent m) = false ->
  let w' := exec (handleMessage m) w in
  let v :=
    exec (runScheduler
            (map Enqueue (audioPayloads (partsOf (serverContent m))))) w in
  started (trace w') = started (trace v)
  /\ nextStartTime (svc w') = nextStartTime (svc v)
  /\ scheduledSources (svc w') = scheduledSources (svc v)
  /\ fresh w' = fresh v.
Proof. apply message_playback. Qed.



End Further.

(** ** The bars of the visualizer *)

(** Property X19.  With at least one frequency bin, every one of the 64
    bars reads a bin inside the data array.  With at least 64 bins the
    bars read 64 different bins, in increasing order; with fewer, the
    step is zero and every bar reads bin zero. *)
Theorem bars_read_inside_the_bins (bufferLength i j : nat) :
  1 <= bufferLength ->
  i < j -> j < bars ->
  binIndex bufferLength i < bufferLength
  /\ binIndex bufferLength j < bufferLength
  /\ (bars <= bufferLength ->
      binIndex bufferLength i < binIndex bufferLength j)
  /\ (bufferLength < bars ->
      binIndex bufferLength i = 0 /\ binIndex bufferLength j = 0).
Proof.
  unfold binIndex, binStep, bars. intros Hn Hij Hj.
  assert (Hdiv : 64 * (bufferLength / 64) <= bufferLength)
    by (apply Nat.Div0.mul_div_le).
  split; [|split; [|split]].
  - destruct (Nat.eq_dec (bufferLength / 64) 0) as [Hz|Hz].
    + rewrite Hz. lia.
    + nia.
  - destruct (Nat.eq_dec (bufferLength / 64) 0) as [Hz|Hz].
    + rewrite Hz. lia.
    + nia.
  - intros Hb.
    assert (1 <= bufferLength / 64)
      by (apply Nat.div_le_lower_bound; lia).
    nia.
  - intros Hb. rewrite (Nat.div_small bufferLength 64 Hb). lia.
Qed.

(** ** The further properties on the host of the examples *)

Lemma Z_ltb_total (x y : Z) : tltb x y = false -> tle y x.
Proof. simpl. intros H. apply Z.ltb_ge in H. exact H. Qed.

Lemma connected_world_wellScheduled : wellScheduled connectedWorld.
Proof. split; constructor. Qed.

Lemma playback_never_overlaps_witness :
  hasSink (svc connectedWorld) = true
  /\ exists new,
       started (trace (exec (runScheduler demoRunWithBadChunk) connectedWorld))
       = (started (trace connectedWorld) ++ new)%list
       /\ chained 0%Z new 7%Z
       /\ map snd new = decodedBuffers demoRunWithBadChunk.
Proof.
  assert (H1 : hasSink (svc connectedWorld) = true) by reflexivity.
  split; [exact H1|].
  destruct (playback_never_overlaps demoRunWithBadChunk connectedWorld)
    as (new & Hs & Hc & Hb).
  exists new. split; [exact Hs|]. split; [exact Hc | exact (Hb H1)].
Defined.

Lemma buffer_starts_at_or_after_clock_witness :
  (forall x y : Z, tltb x y = false -> tle y x)
  /\ audioContext (svc playingWorld)
     = Some {| ctxId := 0; ctxState := Running; currentTime := 2%Z |}
  /\ outputGain (svc playingWorld) = Some 2
  /\ decodeAudio (T := Z) "bb" = Some {| duration := 2%Z |}
  /\ exists when,
       started (trace (exec (queueAudioOutput "bb") playingWorld)) =
         (started (trace playingWorld) ++ [(8, when, {| duration := 2%Z |})])%list
       /\ tle 2%Z when
       /\ tle 5%Z when.
Proof.
  assert (H1 : audioContext (svc playingWorld)
               = Some {| ctxId := 0; ctxState := Running; currentTime := 2%Z |})
    by reflexivity.
  assert (H2 : outputGain (svc playingWorld) = Some 2) by reflexivity.
  assert (H3 : decodeAudio (T := Z) "bb" = Some {| duration := 2%Z |})
    by reflexivity.
  split; [exact Z_ltb_total|]. split; [exact H1|]. split; [exact H2|].
  split; [exact H3|].
  destruct (buffer_starts_at_or_after_clock "bb" playingWorld _ _ _
              Z_ltb_total H1 H2 H3) as (when & Hs & Hn & Hc & _).
  exists when. split; [exact Hs|]. split; [exact Hn | exact Hc].
Defined.

Lemma scheduled_set_stays_well_formed_witness :
  wellScheduled connectedWorld
  /\ wellScheduled
       (exec (forEach [Message (demoAudio "aaaa"); Message (demoAudio "bb");
                       SourceEnded 7; ClockAdvanced 3%Z;
                       Message demoInterruption; Message (demoAudio "c")]
                activeStep) connectedWorld).
Proof.
  split; [exact connected_world_wellScheduled|].
  exact (scheduled_set_stays_well_formed _ connectedWorld
           connected_world_wellScheduled).
Defined.

Lemma finished_source_leaves_set_as_before_witness :
  wellScheduled connectedWorld
  /\ audioContext (svc connectedWorld)
     = Some {| ctxId := 0; ctxState := Running; currentTime := 0%Z |}
  /\ outputGain (svc connectedWorld) = Some 2
  /\ decodeAudio (T := Z) "bb" = Some {| duration := 2%Z |}
  /\ scheduledSources
       (svc (exec (sourceEnded 7)
               (exec (queueAudioOutput "bb") connectedWorld))) =
     scheduledSources (svc connectedWorld).
Proof.
  assert (H1 : audioContext (svc connectedWorld)
               = Some {| ctxId := 0; ctxState := Running; currentTime := 0%Z |})
    by reflexivity.
  assert (H2 : outputGain (svc connectedWorld) = Some 2) by reflexivity.
  assert (H3 : decodeAudio (T := Z) "bb" = Some {| duration := 2%Z |})
    by reflexivity.
  split; [exact connected_world_wellScheduled|]. split; [exact H1|].
  split; [exact H2|]. split; [exact H3|].
  exact (proj2 (finished_source_leaves_set_as_before "bb" connectedWorld _ _ _
                  connected_world_wellScheduled H1 H2 H3)).
Defined.

Lemma late_ended_after_flush_changes_nothing_witness :
  interruptedOf (serverContent demoInterruption) = true
  /\ exec (handleMessage demoInterruption ;; sourceEnded 7) playingWorld =
     exec (handleMessage demoInterruption) playingWorld.
Proof.
  assert (H1 : interruptedOf (serverContent demoInterruption) = true)
    by reflexivity.
  split; [exact H1|].
  exact (proj1 (late_ended_after_flush_changes_nothing demoInterruption 7
                  playingWorld) H1).
Defined.

Lemma audio_after_interruption_starts_at_clock_witness :
  interruptedOf (serverContent demoInterruption) = true
  /\ audioContext (svc playingWorld)
     = Some {| ctxId := 0; ctxState := Running; currentTime := 2%Z |}
  /\ outputGain (svc playingWorld) = Some 2
  /\ decodeAudio (T := Z) "bb" = Some {| duration := 2%Z |}
  /\ started (trace (exec (handleMessage demoInterruption ;;
                           queueAudioOutput "bb") playingWorld)) =
     (started (trace playingWorld) ++ [(8, 2%Z, {| duration := 2%Z |})])%list.
Proof.
  assert (H0 : interruptedOf (serverContent demoInterruption) = true)
    by reflexivity.
  assert (H1 : audioContext (svc playingWorld)
               = Some {| ctxId := 0; ctxState := Running; currentTime := 2%Z |})
    by reflexivity.
  assert (H2 : outputGain (svc playingWorld) = Some 2) by reflexivity.
  assert (H3 : decodeAudio (T := Z) "bb" = Some {| duration := 2%Z |})
    by reflexivity.
  split; [exact H0|]. split; [exact H1|]. split; [exact H2|].
  split; [exact H3|].
  exact (proj1 (audio_after_interruption_starts_at_clock demoInterruption "bb"
                  playingWorld _ _ _ H0 H1 H2 H3)).
Defined.

Lemma events_of_one_message_witness :
  interruptedOf (serverContent demoWholeTurn) = false
  /\ wellTyped demoWholeTurn = true
  /\ hasAudio demoWholeTurn = true
  /\ started (trace (exec (handleMessage demoWholeTurn) connectedWorld)) =
     [(7, 0%Z, {| duration := 4%Z |})]
  /\ transcripts (trace (exec (handleMessage demoWholeTurn) connectedWorld)) =
     [("hi", user); ("yo", model)]
  /\ (exists k,
        handleMessageUntilAwait demoWholeTurn connectedWorld =
          (Normal (Awaits k), connectedWorld)
        /\ content k = serverContent demoWholeTurn)
  /\ overtaken demoWholeTurn [demoInputFragment "lo"] connectedWorld =
     (handleInTurn [demoInputFragment "lo"] ;; handleMessage demoWholeTurn)
       connectedWorld
  /\ transcripts
       (trace (exec (overtaken demoWholeTurn [demoInputFragment "lo"])
                 connectedWorld)) = [("lohi", user); ("yo", model)]
  /\ interruptedOf (serverContent demoEverything) = true
  /\ handleMessage demoEverything playingWorld =
     handleMessage (onlyInterrupted demoEverything) playingWorld
  /\ wellTyped demoUntypedTurn = false
  /\ completion (handleMessage demoUntypedTurn) connectedWorld = Thrown
  /\ transcripts (trace (exec (handleMessage demoUntypedTurn) connectedWorld))
     = [].
Proof.
  assert (H1 : interruptedOf (serverContent demoWholeTurn) = false)
    by reflexivity.
  assert (H2 : wellTyped demoWholeTurn = true) by reflexivity.
  assert (H3 : hasAudio demoWholeTurn = true) by reflexivity.
  assert (H4 : interruptedOf (serverContent demoEverything) = true)
    by reflexivity.
  assert (H5 : interruptedOf (serverContent demoUntypedTurn) = false)
    by reflexivity.
  assert (H6 : wellTyped demoUntypedTurn = false) by reflexivity.
  destruct (events_of_one_message demoWholeTurn connectedWorld)
    as (_ & _ & Hall & Hfirst & _ & Hlate).
  destruct (Hall H1 H2) as (_ & Hs & _ & _ & Ht & _).
  destruct (events_of_one_message demoEverything playingWorld)
    as (Hint & _).
  destruct (events_of_one_message demoUntypedTurn connectedWorld)
    as (_ & Hthrow & _).
  destruct (Hthrow H5 H6) as (Hc & Hn & _).
  split; [exact H1|]. split; [exact H2|]. split; [exact H3|].
  split; [exact Hs|]. split; [exact Ht|]. split; [exact (Hfirst H1 H3)|].
  split; [exact (Hlate _ H1 H3)|]. split; [vm_compute; reflexivity|].
  split; [exact H4|]. split; [exact (Hint H4)|]. split; [exact H6|].
  split; [exact Hc | exact Hn].
Defined.

Lemma demo_fragments_between_turns :
  Forall betweenTurns
    [demoInputFragment "Hel"; demoAudio "aaaa"; demoInputFragment "lo"].
Proof. repeat constructor. Qed.

Lemma fragments_accumulate_in_arrival_order_witness :
  Forall betweenTurns
    [demoInputFragment "Hel"; demoAudio "aaaa"; demoInputFragment "lo"]
  /\ interruptedOf (serverContent demoTurnComplete) = false
  /\ turnCompleteOf (serverContent demoTurnComplete) = true
  /\ wellTyped demoTurnComplete = true
  /\ transcripts
       (trace (exec (handleMessage demoTurnComplete)
                 (exec (forEach [demoInputFragment "Hel"; demoAudio "aaaa";
                                 demoInputFragment "lo"] handleMessage)
                    connectedWorld))) = [("Hello", user)]
  /\ (interruptedOf (serverContent (demoAudioWithInput "aaaa" "Hel")) = false
      /\ hasAudio (demoAudioWithInput "aaaa" "Hel") = true
      /\ overtaken (demoAudioWithInput "aaaa" "Hel")
           [demoInputFragment "lo"; demoTurnComplete] connectedWorld =
         (handleInTurn [demoInputFragment "lo"; demoTurnComplete] ;;
          handleMessage (demoAudioWithInput "aaaa" "Hel")) connectedWorld
      /\ transcripts
           (trace (exec (overtaken (demoAudioWithInput "aaaa" "Hel")
                           [demoInputFragment "lo"; demoTurnComplete])
                     connectedWorld)) = [("lo", user)]
      /\ currentInputTranscription
           (svc (exec (overtaken (demoAudioWithInput "aaaa" "Hel")
                         [demoInputFragment "lo"; demoTurnComplete])
                   connectedWorld)) = "Hel").
Proof.
  assert (H2 : interruptedOf (serverContent demoTurnComplete) = false)
    by reflexivity.
  assert (H3 : turnCompleteOf (serverContent demoTurnComplete) = true)
    by reflexivity.
  assert (H4 : wellTyped demoTurnComplete = true) by reflexivity.
  assert (H5 : interruptedOf
                 (serverContent (demoAudioWithInput "aaaa" "Hel")) = false)
    by reflexivity.
  assert (H6 : hasAudio (demoAudioWithInput "aaaa" "Hel") = true)
    by reflexivity.
  split; [exact demo_fragments_between_turns|].
  split; [exact H2|]. split; [exact H3|]. split; [exact H4|].
  destruct (fragments_accumulate_in_arrival_order _ demoTurnComplete
              connectedWorld demo_fragments_between_turns H2 H3 H4)
    as (_ & _ & _ & Ht & _ & Hlate).
  split; [exact Ht|].
  split; [exact H5|]. split; [exact H6|].
  split; [exact (Hlate _ _ connectedWorld H5 H6)|].
  split; vm_compute; reflexivity.
Defined.

Lemma demo_late_fragment_between_turns :
  Forall betweenTurns [demoOutputFragment "late"].
Proof. repeat constructor. Qed.

Lemma demo_early_audio_between_turns :
  betweenTurns (demoAudioWithOutput "aaaa" "early").
Proof. repeat constructor. Qed.

Lemma interrupted_model_text_is_never_dispatched_witness :
  interruptedOf (serverContent demoInterruption) = true
  /\ Forall betweenTurns [demoOutputFragment "late"]
  /\ interruptedOf (serverContent demoTurnComplete) = false
  /\ turnCompleteOf (serverContent demoTurnComplete) = true
  /\ wellTyped demoTurnComplete = true
  /\ currentOutputTranscription (svc midSentenceWorld) = "early"
  /\ transcripts
       (trace (exec (handleMessage demoInterruption ;;
                     forEach [demoOutputFragment "late"] handleMessage ;;
                     handleMessage demoTurnComplete) midSentenceWorld)) =
     [("late", model)]
  /\ (betweenTurns (demoAudioWithOutput "aaaa" "early")
      /\ hasAudio (demoAudioWithOutput "aaaa" "early") = true
      /\ currentOutputTranscription
           (svc (exec (overtaken (demoAudioWithOutput "aaaa" "early")
                         [demoInterruption]) connectedWorld)) = "early").
Proof.
  assert (H1 : interruptedOf (serverContent demoInterruption) = true)
    by reflexivity.
  assert (H2 : interruptedOf (serverContent demoTurnComplete) = false)
    by reflexivity.
  assert (H3 : turnCompleteOf (serverContent demoTurnComplete) = true)
    by reflexivity.
  assert (H4 : wellTyped demoTurnComplete = true) by reflexivity.
  assert (H5 : hasAudio (demoAudioWithOutput "aaaa" "early") = true)
    by reflexivity.
  split; [exact H1|]. split; [exact demo_late_fragment_between_turns|].
  split; [exact H2|]. split; [exact H3|]. split; [exact H4|].
  split; [reflexivity|].
  destruct (interrupted_model_text_is_never_dispatched demoInterruption
              [demoOutputFragment "late"] demoTurnComplete midSentenceWorld
              H1 demo_late_fragment_between_turns H2 H3 H4)
    as (_ & _ & _ & Ht & _).
  split; [exact Ht|].
  destruct (interrupted_model_text_is_never_dispatched demoInterruption
              [] demoTurnComplete connectedWorld
              H1 (Forall_nil _) H2 H3 H4)
    as (_ & _ & _ & _ & He).
  split; [exact demo_early_audio_between_turns|]. split; [exact H5|].
  exact (He _ demo_early_audio_between_turns H5).
Defined.

Lemma accumulated_text_survives_teardown_witness :
  interruptedOf (serverContent demoTurnComplete) = false
  /\ turnCompleteOf (serverContent demoTurnComplete) = true
  /\ (let w := exec (handleMessage (demoInputFragment "Hello")) connectedWorld in
      transcripts
        (trace (exec (disconnect (Resolves demoSession) ;;
                      handleMessage demoTurnComplete) w)) = [("Hello", user)]
      /\ transcripts
           (trace (exec (connect (Resolves demoSession) (Some demoMic) ;;
                         handleMessage demoTurnComplete) w)) = []).
Proof.
  assert (H1 : interruptedOf (serverContent demoTurnComplete) = false)
    by reflexivity.
  assert (H2 : turnCompleteOf (serverContent demoTurnComplete) = true)
    by reflexivity.
  split; [exact H1|]. split; [exact H2|]. cbv zeta.
  pose proof (accumulated_text_survives_teardown (Resolves demoSession)
                (Some demoMic) demoTurnComplete
                (exec (handleMessage (demoInputFragment "Hello"))
                   connectedWorld) H1 H2) as H.
  cbv zeta in H. change (wellTyped demoTurnComplete) with true in H.
  cbv iota in H. destruct H as (Hd & Hc).
  split; [exact Hd | exact (Hc eq_refl eq_refl)].
Defined.

Lemma message_handling_is_contained_witness :
  contained connectedWorld
    (exec (handleMessage demoWholeTurn) connectedWorld)
  /\ contained connectedWorld
       (exec (handleMessage demoUntypedTurn) connectedWorld)
  /\ interruptedOf (serverContent demoUntypedTurn) = false
  /\ wellTyped demoUntypedTurn = false
  /\ completion (handleMessage demoUntypedTurn) connectedWorld = Thrown.
Proof.
  assert (H1 : interruptedOf (serverContent demoUntypedTurn) = false)
    by reflexivity.
  assert (H2 : wellTyped demoUntypedTurn = false) by reflexivity.
  destruct (message_handling_is_contained demoWholeTurn connectedWorld)
    as (Ha & _).
  destruct (message_handling_is_contained demoUntypedTurn connectedWorld)
    as (Hb & _ & _ & _ & Hc).
  split; [exact Ha|]. split; [exact Hb|]. split; [exact H1|].
  split; [exact H2 | exact (Hc H1 H2)].
Defined.




Lemma error_then_close_notifies_each_once_witness :
  inputAudioContext (svc connectedWorld) = Some (newContext 1)
  /\ isClosed (ctxState (newContext (T := Z) 1)) = false
  /\ (let v := exec (onerrorUntilAwait ;; onclose ;; cleanupAfterAwait)
                 connectedWorld in
      svc v = newService
      /\ errorNotifications (trace v) = 1
      /\ closeNotifications (trace v) = 1
      /\ cleanupRuns (trace v) = 3).
Proof.
  assert (H1 : inputAudioContext (svc connectedWorld) = Some (newContext 1))
    by reflexivity.
  assert (H2 : isClosed (ctxState (newContext (T := Z) 1)) = false)
    by reflexivity.
  split; [exact H1|]. split; [exact H2|]. cbv zeta.
  destruct (proj2 (error_then_close_notifies_each_once connectedWorld)
              _ H1 H2) as (Hs & _ & He & Hc & Hr).
  split; [exact Hs|]. split; [exact He|]. split; [exact Hc | exact Hr].
Defined.


Lemma frames_are_sent_in_order_witness :
  isConnected (svc connectedWorld) = true
  /\ sessionPromise (svc connectedWorld) <> None
  /\ sent (trace (exec (forEach [[1; 2; 3]; [4]; []]%Z
                          (captureFrame demoSession)) connectedWorld)) =
     ["AAA"; "A"; ""].
Proof.
  assert (H1 : isConnected (svc connectedWorld) = true) by reflexivity.
  assert (H2 : sessionPromise (svc connectedWorld) <> None)
    by (vm_compute; discriminate).
  split; [exact H1|]. split; [exact H2|].
  destruct (frames_are_sent_in_order demoSession [[1; 2; 3]; [4]; []]%Z
              connectedWorld H1 H2) as (_ & _ & _ & Hs & _).
  exact Hs.
Defined.

Lemma bars_read_inside_the_bins_witness :
  1 <= 128 /\ 3 < 63 /\ 63 < bars
  /\ binIndex 128 63 < 128
  /\ binIndex 128 3 < binIndex 128 63.
Proof.
  assert (H1 : 1 <= 128) by lia.
  assert (H2 : 3 < 63) by lia.
  assert (H3 : 63 < bars) by (unfold bars; lia).
  destruct (bars_read_inside_the_bins 128 3 63 H1 H2 H3)
    as (_ & Hj & Hlt & _).
  split; [exact H1|]. split; [exact H2|]. split; [exact H3|].
  split; [exact Hj|]. apply Hlt. unfold bars. lia.
Defined.

Lemma only_audio_parts_are_enqueued_witness :
  interruptedOf (serverContent demoMixedParts) = false
  /\ audioPayloads (partsOf (serverContent demoMixedParts)) = ["aaaa"; "bb"]
  /\ started (trace (exec (handleMessage demoMixedParts) connectedWorld)) =
     started (trace (exec (runScheduler [Enqueue "aaaa"; Enqueue "bb"])
                       connectedWorld)).
Proof.
  assert (H1 : interruptedOf (serverContent demoMixedParts) = false)
    by reflexivity.
  split; [exact H1|]. split; [reflexivity|].
  exact (proj1 (only_audio_parts_are_enqueued demoMixedParts connectedWorld
                  H1)).
Defined.
